(** * Articulotor browser client: session socket, turn coordination, audio capture

    A shallow embedding of the hooks and pages that carry the real-time
    session protocol:

    - [frontend/src/store/voice-store.js], [app-store.js]  ([VoiceStore], [AppStore])
    - [frontend/src/hooks/use-audio-recorder.js]           ([AudioRecorder])
    - [frontend/src/hooks/use-text-to-speech.js]           ([TextToSpeech])
    - [frontend/src/hooks/use-speech-recognition.js]       ([SpeechRecognition])
    - [frontend/src/pages/VoiceSession.jsx]                ([VoiceSession])
    - [frontend/src/pages/CameraSession.jsx]               ([CameraSession])
    - [frontend/src/hooks/use-silence-detection.js]        ([SilenceDetection])
    - [frontend/src/lib/api.js]                            ([Api], [Leaving])
    - [frontend/src/store/camera-store.js]                 ([CameraStore])
    - [frontend/src/hooks/use-body-language.js]            ([BodyLanguage])

    Handlers are written in a small state-and-exception monad that also
    records the calls made on browser objects (console, WebSocket, timers,
    speech synthesis).  An [async] function is cut at each [await] into the
    segment that runs before the promise settles and the one that runs after. *)

From Stdlib Require Import ZArith NArith QArith Qround List String Ascii Bool Lia.
From stdpp Require Import base option list.
Import ListNotations.

Close Scope Q_scope.
Set Warnings "-register-all".
Local Open Scope string_scope.
Local Open Scope Z_scope.
Local Open Scope list_scope.

(* ===================================================================== *)
(** * Doubles *)
(* ===================================================================== *)

Module Double.

(** A double: not-a-number, an infinity, or the rational that a finite
    double denotes.  The two zeros are one: nothing here divides by a zero
    that could be negative. *)
Inductive t := NaN | Infinity (negative : bool) | Finite (q : Q).

(** 2^k *)
Definition pow2 (k : Z) : Q := Qpower (2 # 1) k.

(** For a positive rational, the [e] with 2^e <= q < 2^(e+1). *)
Definition exponent (q : Q) : Z :=
  let e := Z.log2 (Qnum q) - Z.log2 (Zpos (Qden q)) in
  if Qle_bool (pow2 e) q then e else e - 1.

(** The nearest whole number, and of two equally near the even one. *)
Definition nearest_even (x : Q) : Z :=
  let f := Qfloor x in
  match Qcompare (x - inject_Z f)%Q (1 # 2) with
  | Lt => f
  | Gt => f + 1
  | Eq => if Z.even f then f else f + 1
  end.

(** [Number.MAX_VALUE] *)
Definition MAX_VALUE : Q := Qred ((2 - pow2 (-52)) * pow2 1023)%Q.

(** The double nearest to a positive rational (IEEE 754 binary64, round
    to nearest, ties to even): 53 significant bits, the exponent not below
    -1022, an infinity beyond the largest double. *)
Definition round_positive (q : Q) : t :=
  let e := Z.max (exponent q) (-1022) in
  let ulp := pow2 (e - 52) in
  let r := Qred (inject_Z (nearest_even (q / ulp)%Q) * ulp)%Q in
  if Qle_bool r MAX_VALUE then Finite r else Infinity false.

(** [-x] *)
Definition neg (x : t) : t :=
  match x with
  | NaN => NaN
  | Infinity s => Infinity (negb s)
  | Finite q => Finite (Qred (- q)%Q)
  end.

(** The double nearest to a rational: what a decimal literal denotes,
    and what an operation on doubles gives for its exact result. *)
Definition of_Q (q : Q) : t :=
  match Qcompare q 0 with
  | Eq => Finite 0
  | Gt => round_positive q
  | Lt => neg (round_positive (- q)%Q)
  end.

Definition of_N (n : N) : t := of_Q (inject_Z (Z.of_N n)).
Definition of_nat (n : nat) : t := of_Q (inject_Z (Z.of_nat n)).

(** [x + y] *)
Definition add (x y : t) : t :=
  match x, y with
  | NaN, _ | _, NaN => NaN
  | Finite a, Finite b => of_Q (a + b)%Q
  | Infinity s, Finite _ => Infinity s
  | Finite _, Infinity s => Infinity s
  | Infinity s, Infinity s' => if Bool.eqb s s' then Infinity s else NaN
  end.

(** [x - y] *)
Definition sub (x y : t) : t := add x (neg y).

(** [x / y] for a [y] that is not negative. *)
Definition div (x y : t) : t :=
  match x, y with
  | NaN, _ | _, NaN => NaN
  | Finite a, Finite b =>
      if Qeq_bool b 0 then
        match Qcompare a 0 with
        | Eq => NaN
        | Gt => Infinity false
        | Lt => Infinity true
        end
      else of_Q (a / b)%Q
  | Infinity s, Finite _ => Infinity s
  | Finite _, Infinity _ => Finite 0
  | Infinity _, Infinity _ => NaN
  end.

(** [x < y] *)
Definition lt (x y : t) : bool :=
  match x, y with
  | NaN, _ | _, NaN => false
  | Finite a, Finite b => negb (Qle_bool b a)
  | Infinity s, Infinity s' => s && negb s'
  | Infinity s, Finite _ => s
  | Finite _, Infinity s' => negb s'
  end.

(** [x >= y] *)
Definition ge (x y : t) : bool :=
  match x, y with
  | NaN, _ | _, NaN => false
  | _, _ => negb (lt x y)
  end.

End Double.

(* ===================================================================== *)
(** * JavaScript values *)
(* ===================================================================== *)

Module Js.

(** A JavaScript string is a sequence of UTF-16 code units. *)
Definition jsstring := list N.

(** An ASCII literal of the source as a JavaScript string. *)
Definition lit (s : string) : jsstring :=
  List.map N_of_ascii (list_ascii_of_string s).

Definition jsstring_eqb (a b : jsstring) : bool :=
  bool_decide (a = b).

(** ECMAScript [WhiteSpace] and [LineTerminator] code units: the
    characters [String.prototype.trim] strips. *)
Definition isWhiteSpace (c : N) : bool :=
  ((c =? 0x0009) || (c =? 0x000B) || (c =? 0x000C) || (c =? 0x0020)
   || (c =? 0x00A0) || (c =? 0x1680)
   || ((0x2000 <=? c) && (c <=? 0x200A))
   || (c =? 0x202F) || (c =? 0x205F) || (c =? 0x3000) || (c =? 0xFEFF))%N.

Definition isLineTerminator (c : N) : bool :=
  ((c =? 0x000A) || (c =? 0x000D) || (c =? 0x2028) || (c =? 0x2029))%N.

Definition isTrimmed (c : N) : bool := isWhiteSpace c || isLineTerminator c.

Fixpoint trimStart (s : jsstring) : jsstring :=
  match s with
  | [] => []
  | c :: r => if isTrimmed c then trimStart r else s
  end.

Definition trimEnd (s : jsstring) : jsstring := rev (trimStart (rev s)).

(** [String.prototype.trim] *)
Definition trim (s : jsstring) : jsstring := trimEnd (trimStart s).

(** Numbers.  The pages only test numbers for zero and NaN, double them
    and add small counters; finite doubles are represented by the
    rational they denote. *)
Inductive number := NaN | Finite (q : Q) | Infinity (negative : bool).

(** A double as a number. *)
Definition of_double (x : Double.t) : number :=
  match x with
  | Double.NaN => NaN
  | Double.Infinity s => Infinity s
  | Double.Finite q => Finite q
  end.

Definition of_Z (z : Z) : number := Finite (inject_Z z).
Definition of_nat (n : nat) : number := of_Z (Z.of_nat n).

Definition isNaN (x : number) : bool :=
  match x with NaN => true | Finite _ | Infinity _ => false end.

Definition mul (x y : number) : number :=
  match x, y with
  | Finite a, Finite b => Finite (Qred (a * b))
  | Infinity s, Finite b | Finite b, Infinity s =>
      if Qeq_bool b 0 then NaN else Infinity (xorb s (negb (Qle_bool 0 b)))
  | Infinity s, Infinity s' => Infinity (xorb s s')
  | _, _ => NaN
  end.

(** [x / y] for [x >= 0] and [y >= 0]; [0 / 0] is NaN.  A positive
    numerator over zero does not occur (an empty array sums to 0). *)
Definition div (x y : number) : number :=
  match x, y with
  | Finite a, Finite b =>
      if Qeq_bool b 0 then NaN else Finite (Qred (a / b))
  | Infinity s, Finite _ => Infinity s
  | Finite _, Infinity _ => Finite 0
  | _, _ => NaN
  end.

(** [Math.min(x, y)]: NaN if either argument is NaN. *)
Definition Math_min (x y : number) : number :=
  match x, y with
  | Finite a, Finite b => if Qle_bool a b then x else y
  | NaN, _ | _, NaN => NaN
  | Infinity true, _ | _, Infinity true => Infinity true
  | Infinity false, _ => y
  | _, Infinity false => x
  end.

(** What [JSON.parse] produces, plus [undefined]. *)
Inductive value :=
| VUndefined
| VNull
| VBool (b : bool)
| VNumber (n : number)
| VString (s : jsstring)
| VArray (items : list value)
| VObject (props : list (jsstring * value)).

Definition str (s : string) : value := VString (lit s).

(** ToBoolean *)
Definition truthy (v : value) : bool :=
  match v with
  | VUndefined | VNull => false
  | VBool b => b
  | VNumber NaN => false
  | VNumber (Finite q) => negb (Qeq_bool q 0)
  | VNumber (Infinity _) => true
  | VString s => match s with [] => false | _ => true end
  | VArray _ | VObject _ => true
  end.

(** [a || b] *)
Definition or (a b : value) : value := if truthy a then a else b.

Fixpoint assoc (k : jsstring) (props : list (jsstring * value)) : option value :=
  match props with
  | [] => None
  | (k', v) :: r => if jsstring_eqb k k' then Some v else assoc k r
  end.

(** [v.k] for a [v] that is neither [undefined] nor [null], and for the
    property names the pages read ([type], [message], [scenario],
    [opening], [text], [analysis], [filler_words], [clarity_score],
    [length]): own properties of an object, [length] of a string or an
    array, [undefined] otherwise.  None of these names is an index or a
    prototype property. *)
Definition member (v : value) (k : string) : value :=
  match v with
  | VObject props => default VUndefined (assoc (lit k) props)
  | VString s => if String.eqb k "length" then VNumber (of_nat (List.length s)) else VUndefined
  | VArray l => if String.eqb k "length" then VNumber (of_nat (List.length l)) else VUndefined
  | _ => VUndefined
  end.

Definition nullish (v : value) : bool :=
  match v with VUndefined | VNull => true | _ => false end.

(** [v.k]: a TypeError on [undefined] and [null]. *)
Definition get (v : value) (k : string) : option value :=
  if nullish v then None else Some (member v k).

(** [v?.k] *)
Definition get_opt (v : value) (k : string) : value :=
  if nullish v then VUndefined else member v k.

(** [a === b] against a string literal. *)
Definition is_string (v : value) (s : string) : bool :=
  match v with VString t => jsstring_eqb t (lit s) | _ => false end.

(** [typeof v === 'number'] *)
Definition is_number (v : value) : bool :=
  match v with VNumber _ => true | _ => false end.

End Js.

(* ===================================================================== *)
(** * Calls on browser objects, and the handler monad *)
(* ===================================================================== *)

(** Outbound frames: the object handed to [JSON.stringify] before [send]. *)
Inductive outbound :=
| user_audio_transcript (text : Js.jsstring)
| end_session.

(** The functions the code passes to [setTimeout]. *)
Inductive callback :=
| cb_connectWs
| cb_thinkingSlow
| cb_fillerFlashOff.

Inductive effect :=
| console_error (msg : string)
| console_warn (msg : string)
| ws_new (id : nat)
| ws_close (id : nat) (code : option Z)
| ws_send (id : nat) (frame : outbound)
| set_timeout (id : nat) (cb : callback) (ms : Z)
| clear_timeout (id : nat)
| synth_speak (text : Js.value)
| synth_cancel
| recognition_start
| recognition_stop
| silence_attach
| silence_detach
| request_animation_frame (id : nat)
| cancel_animation_frame (id : nat)
| navigate (path : Js.jsstring)
| load_vision (url : string).

Inductive outcome (A : Type) :=
| Return (a : A)
| Throw (e : string).
Arguments Return {A} a.
Arguments Throw {A} e.

Record ran (S A : Type) := Ran { final : S; calls : list effect; out : outcome A }.
Arguments Ran {S A}.
Arguments final {S A}.
Arguments calls {S A}.
Arguments out {S A}.

(** A handler: from the state before to the state after, the browser calls
    made on the way, and a returned value or a thrown exception. *)
Definition M (S A : Type) : Type := S -> ran S A.

Section Monad.
Context {S : Type}.

Definition ret {A} (a : A) : M S A := fun s => Ran s [] (Return a).

Definition throw {A} (e : string) : M S A := fun s => Ran s [] (Throw e).

Definition bind {A B} (m : M S A) (k : A -> M S B) : M S B := fun s =>
  let r := m s in
  match out r with
  | Return a => let r' := k a (final r) in
                Ran (final r') (calls r ++ calls r') (out r')
  | Throw e => Ran (final r) (calls r) (Throw e)
  end.

(** [try { m } catch (e) { h e }] *)
Definition try_catch {A} (m : M S A) (h : string -> M S A) : M S A := fun s =>
  let r := m s in
  match out r with
  | Return a => r
  | Throw e => let r' := h e (final r) in
               Ran (final r') (calls r ++ calls r') (out r')
  end.

Definition read : M S S := fun s => Ran s [] (Return s).

Definition modify (f : S -> S) : M S unit := fun s => Ran (f s) [] (Return tt).

Definition emit (e : effect) : M S unit := fun s => Ran s [e] (Return tt).

Definition when (b : bool) (m : M S unit) : M S unit := if b then m else ret tt.

End Monad.

(** Run a handler written for a component [T] of the state [S]. *)
Definition lift {S T A} (proj : S -> T) (inj : T -> S -> S) (m : M T A) : M S A :=
  fun s => let r := m (proj s) in Ran (inj (final r) s) (calls r) (out r).

Declare Scope handler_scope.
Delimit Scope handler_scope with handler.
Notation "x <- m ;; k" := (bind m (fun x => k))
  (at level 100, m at next level, k at level 200, right associativity) : handler_scope.
Notation "m ;; k" := (bind m (fun _ => k))
  (at level 100, k at level 200, right associativity) : handler_scope.
Local Open Scope handler_scope.

(* ===================================================================== *)
(** * Stores (zustand) *)
(* ===================================================================== *)

(** [store/voice-store.js]: the fields the hooks and pages write.  Every
    action of the store is a [set({ ... })], and [set] replaces the state
    object by a new one, [Object.assign({}, state, partial)], also when
    it is given the values the state has.  [writes] numbers the state
    objects: two states are the same object exactly when they carry the
    same number. *)
Module VoiceStore.

Record t := {
  state : string;          (* 'idle' | 'listening' | 'processing' | 'speaking' *)
  audioLevel : Js.number;
  error : option string;   (* null or a message *)
  writes : N;
}.

Definition initial : t :=
  {| state := "idle"; audioLevel := Js.of_Z 0; error := None; writes := 0%N |}.

Definition setState (v : string) (s : t) : t :=
  {| state := v; audioLevel := audioLevel s; error := error s;
     writes := (writes s + 1)%N |}.

Definition setAudioLevel (v : Js.number) (s : t) : t :=
  {| state := state s; audioLevel := v; error := error s;
     writes := (writes s + 1)%N |}.

Definition setError (v : option string) (s : t) : t :=
  {| state := state s; audioLevel := audioLevel s; error := v;
     writes := (writes s + 1)%N |}.

End VoiceStore.

(** [store/app-store.js]: the voice metrics the pages write. *)
Module AppStore.

Record t := { wpm : Js.value; fillerCount : Js.value }.

Definition initial : t :=
  {| wpm := Js.VNumber (Js.of_Z 0); fillerCount := Js.VNumber (Js.of_Z 0) |}.

Definition setWpm (v : Js.value) (s : t) : t :=
  {| wpm := v; fillerCount := fillerCount s |}.

Definition setFillerCount (v : Js.value) (s : t) : t :=
  {| wpm := wpm s; fillerCount := v |}.

End AppStore.

(* ===================================================================== *)
(** * hooks/use-audio-recorder.js *)
(* ===================================================================== *)

Module AudioRecorder.

(** A Blob, by its bytes. *)
Definition blob := list N.

Inductive recorder_state := inactive | recording | paused.

Inductive promise (A : Type) := Pending | Resolved (v : A).
Arguments Pending {A}.
Arguments Resolved {A} v.

(** One invocation of [stopRecording]: the promise it returned and its
    [setTimeout(..., 5000)], kept by the time at which it is due and
    dropped once it has run or has been cleared. *)
Record stop_call := {
  settled : promise (option blob);
  timeoutId : option N;
}.

Record MediaRecorder := {
  mr_state : recorder_state;
  mr_mimeType : string;
  mr_onstop : option nat;    (* the invocation whose handler is installed *)
}.

Record MediaStream := { tracks_live : bool }.
Record AudioContext := { closed : bool }.
Record AnalyserNode := { fftSize : N }.

Record refs := {
  mediaRecorderRef : option MediaRecorder;
  audioChunksRef : list blob;
  analyserRef : option AnalyserNode;
  animationFrameRef : option nat;
  streamRef : option MediaStream;
  audioContextRef : option AudioContext;
}.

Definition initial_refs : refs :=
  {| mediaRecorderRef := None; audioChunksRef := []; analyserRef := None;
     animationFrameRef := None; streamRef := None; audioContextRef := None |}.

(** The hook's refs, the store it writes, and the event loop around it:
    the clock in milliseconds, the invocations of [stopRecording] so
    far, and the animation-frame requests handed out. *)
Record world := {
  hook : refs;
  voice : VoiceStore.t;
  now : N;
  stops : list stop_call;
  frames : nat;
}.

Definition initial : world :=
  {| hook := initial_refs; voice := VoiceStore.initial; now := 0%N;
     stops := []; frames := 0%nat |}.

Definition with_hook (f : refs -> refs) (w : world) : world :=
  {| hook := f (hook w); voice := voice w; now := now w;
     stops := stops w; frames := frames w |}.
Definition with_voice (f : VoiceStore.t -> VoiceStore.t) (w : world) : world :=
  {| hook := hook w; voice := f (voice w); now := now w;
     stops := stops w; frames := frames w |}.
Definition with_now (f : N -> N) (w : world) : world :=
  {| hook := hook w; voice := voice w; now := f (now w);
     stops := stops w; frames := frames w |}.
Definition with_stops (f : list stop_call -> list stop_call) (w : world) : world :=
  {| hook := hook w; voice := voice w; now := now w;
     stops := f (stops w); frames := frames w |}.
Definition with_frames (f : nat -> nat) (w : world) : world :=
  {| hook := hook w; voice := voice w; now := now w;
     stops := stops w; frames := f (frames w) |}.

Definition set_mediaRecorderRef v (r : refs) : refs :=
  {| mediaRecorderRef := v; audioChunksRef := audioChunksRef r;
     analyserRef := analyserRef r; animationFrameRef := animationFrameRef r;
     streamRef := streamRef r; audioContextRef := audioContextRef r |}.
Definition set_audioChunksRef v (r : refs) : refs :=
  {| mediaRecorderRef := mediaRecorderRef r; audioChunksRef := v;
     analyserRef := analyserRef r; animationFrameRef := animationFrameRef r;
     streamRef := streamRef r; audioContextRef := audioContextRef r |}.
Definition set_analyserRef v (r : refs) : refs :=
  {| mediaRecorderRef := mediaRecorderRef r; audioChunksRef := audioChunksRef r;
     analyserRef := v; animationFrameRef := animationFrameRef r;
     streamRef := streamRef r; audioContextRef := audioContextRef r |}.
Definition set_animationFrameRef v (r : refs) : refs :=
  {| mediaRecorderRef := mediaRecorderRef r; audioChunksRef := audioChunksRef r;
     analyserRef := analyserRef r; animationFrameRef := v;
     streamRef := streamRef r; audioContextRef := audioContextRef r |}.
Definition set_streamRef v (r : refs) : refs :=
  {| mediaRecorderRef := mediaRecorderRef r; audioChunksRef := audioChunksRef r;
     analyserRef := analyserRef r; animationFrameRef := animationFrameRef r;
     streamRef := v; audioContextRef := audioContextRef r |}.
Definition set_audioContextRef v (r : refs) : refs :=
  {| mediaRecorderRef := mediaRecorderRef r; audioChunksRef := audioChunksRef r;
     analyserRef := analyserRef r; animationFrameRef := animationFrameRef r;
     streamRef := streamRef r; audioContextRef := v |}.

Definition setState (v : string) : M world unit :=
  modify (with_voice (VoiceStore.setState v)).
Definition setAudioLevel (v : Js.number) : M world unit :=
  modify (with_voice (VoiceStore.setAudioLevel v)).

(** [resetState] *)
Definition resetState : M world unit :=
  setAudioLevel (Js.of_Z 0) ;;
  setState "idle".

(** ** startRecording *)

(** What the browser answers to the calls [startRecording] makes; [None]
    and [false] stand for a rejected promise or a thrown exception. *)
Record platform := {
  getUserMedia : option MediaStream;
  newAudioContext : bool;
  createMediaStreamSource : bool;
  createAnalyser : bool;
  connectSource : bool;
  byteFrequencyData : list N;
  opusSupported : bool;
  newMediaRecorder : bool;
  startMediaRecorder : bool;
}.

(** A browser call that returns or throws. *)
Definition call (ok : bool) (e : string) : M world unit :=
  if ok then ret tt else throw e.

Definition sum_bytes (l : list N) : N := fold_left N.add l 0%N.

(** [analyzeLoop]: one run of the frame callback. *)
Definition analyzeLoop (p : platform) : M world unit :=
  w <- read ;;
  match analyserRef (hook w) with
  | None => ret tt
  | Some _ =>
      let dataArray := byteFrequencyData p in
      let average :=
        Js.div (Js.of_Z (Z.of_N (sum_bytes dataArray)))
               (Js.of_nat (List.length dataArray)) in
      let normalized := Js.Math_min (Js.div average (Js.of_Z 128)) (Js.of_Z 1) in
      setAudioLevel normalized ;;
      let id := Datatypes.S (frames w) in
      modify (with_frames (fun _ => id)) ;;
      emit (request_animation_frame id) ;;
      modify (with_hook (set_animationFrameRef (Some id)))
  end.

(** Up to [await navigator.mediaDevices.getUserMedia(...)]: an audio
    context left from an earlier start is closed, errors ignored. *)
Definition startRecording_begin : M world unit :=
  w <- read ;;
  match audioContextRef (hook w) with
  | Some _ => modify (with_hook (set_audioContextRef (Some {| closed := true |})))
  | None => ret tt
  end.

(** The body of the outer [try], from the point where [getUserMedia]
    settles. *)
Definition startRecording_try (p : platform) : M world bool :=
  stream <- match getUserMedia p with
            | Some stream => ret stream
            | None => throw "getUserMedia"
            end ;;
  modify (with_hook (set_streamRef (Some stream))) ;;
  if negb (newAudioContext p) then
    (* inner catch *)
    emit (console_error "Failed to create AudioContext:") ;;
    resetState ;;
    ret false
  else
    modify (with_hook (set_audioContextRef (Some {| closed := false |}))) ;;
    call (createMediaStreamSource p) "createMediaStreamSource" ;;
    call (createAnalyser p) "createAnalyser" ;;
    call (connectSource p) "connect" ;;
    modify (with_hook (set_analyserRef (Some {| fftSize := 256 |}))) ;;
    analyzeLoop p ;;
    let mimeType := if opusSupported p then "audio/webm;codecs=opus" else "audio/webm" in
    call (newMediaRecorder p) "MediaRecorder" ;;
    modify (with_hook (set_audioChunksRef [])) ;;
    modify (with_hook (set_mediaRecorderRef
      (Some {| mr_state := inactive; mr_mimeType := mimeType; mr_onstop := None |}))) ;;
    call (startMediaRecorder p) "start" ;;
    modify (with_hook (set_mediaRecorderRef
      (Some {| mr_state := recording; mr_mimeType := mimeType; mr_onstop := None |}))) ;;
    setState "listening" ;;
    ret true.

Definition startRecording_resume (p : platform) : M world bool :=
  try_catch (startRecording_try p)
    (fun _ =>
       emit (console_error "Failed to start recording:") ;;
       resetState ;;
       ret false).

(** [startRecording], run to completion. *)
Definition startRecording (p : platform) : M world bool :=
  startRecording_begin ;;
  startRecording_resume p.

(** Every browser call of a start succeeded. *)
Definition start_succeeds (p : platform) : bool :=
  match getUserMedia p with Some _ => true | None => false end
  && newAudioContext p && createMediaStreamSource p && createAnalyser p
  && connectSource p && newMediaRecorder p && startMediaRecorder p.

(** ** stopRecording *)

Definition STOP_TIMEOUT_MS : N := 5000.

(** [resolve(v)] on the promise of invocation [i]: a settled promise
    stays as it is. *)
Definition resolve_call (v : option blob) (c : stop_call) : stop_call :=
  match settled c with
  | Pending => {| settled := Resolved v; timeoutId := timeoutId c |}
  | Resolved _ => c
  end.

Definition clear_call_timeout (c : stop_call) : stop_call :=
  {| settled := settled c; timeoutId := None |}.

Definition resolve (i : nat) (v : option blob) : M world unit :=
  modify (with_stops (alter (resolve_call v) i)).

Definition clearTimeout (i : nat) : M world unit :=
  modify (with_stops (alter clear_call_timeout i)).

Definition is_inactive (st : recorder_state) : bool :=
  match st with inactive => true | _ => false end.

(** [new Blob(chunks, { type: 'audio/webm' })] *)
Definition Blob (chunks : list blob) : blob := List.concat chunks.

(** The executor of the promise [stopRecording] returns; the value is
    the invocation, by its index in [stops]. *)
Definition stopRecording : M world nat :=
  w <- read ;;
  let i := List.length (stops w) in
  modify (with_stops (fun l => l ++ [{| settled := Pending; timeoutId := None |}])) ;;
  match mediaRecorderRef (hook w) with
  | None => resolve i None ;; ret i
  | Some mediaRecorder =>
      if is_inactive (mr_state mediaRecorder) then resolve i None ;; ret i
      else
        (* const timeoutId = setTimeout(() => resolve(null), 5000) *)
        modify (with_stops (alter (fun c =>
          {| settled := settled c;
             timeoutId := Some (now w + STOP_TIMEOUT_MS)%N |}) i)) ;;
        (* mediaRecorder.onstop = ...; mediaRecorder.stop() *)
        modify (with_hook (set_mediaRecorderRef
          (Some {| mr_state := inactive; mr_mimeType := mr_mimeType mediaRecorder;
                   mr_onstop := Some i |}))) ;;
        match streamRef (hook w) with
        | Some _ => modify (with_hook (set_streamRef (Some {| tracks_live := false |})))
        | None => ret tt
        end ;;
        match animationFrameRef (hook w) with
        | Some id => emit (cancel_animation_frame id)
        | None => ret tt
        end ;;
        resetState ;;
        ret i
  end.

(** What happens around a pending stop. *)
Inductive event :=
| Elapse (ms : N)            (* time passes; timers that are due run *)
| DataAvailable (data : blob) (* the recorder's [dataavailable] event *)
| StopEvent.                 (* the recorder's [stop] event *)

(** The timer of an invocation runs once the clock has reached it. *)
Definition run_timeout (t : N) (c : stop_call) : stop_call :=
  match timeoutId c with
  | Some due => if (due <=? t)%N then clear_call_timeout (resolve_call None c) else c
  | None => c
  end.

(** [mediaRecorder.ondataavailable] *)
Definition ondataavailable (data : blob) : M world unit :=
  w <- read ;;
  when (0 <? N.of_nat (List.length data))%N
    (modify (with_hook (set_audioChunksRef (audioChunksRef (hook w) ++ [data])))).

(** [mediaRecorder.onstop], as installed by invocation [i] *)
Definition onstop (i : nat) : M world unit :=
  clearTimeout i ;;
  w <- read ;;
  let chunks := audioChunksRef (hook w) in
  let audioBlob :=
    if (0 <? N.of_nat (List.length chunks))%N then Some (Blob chunks) else None in
  resolve i audioBlob.

Definition step (e : event) : M world unit :=
  match e with
  | Elapse ms =>
      w <- read ;;
      let t := (now w + ms)%N in
      modify (with_now (fun _ => t)) ;;
      modify (with_stops (fmap (run_timeout t)))
  | DataAvailable data =>
      w <- read ;;
      match mediaRecorderRef (hook w) with
      | Some _ => ondataavailable data
      | None => ret tt
      end
  | StopEvent =>
      w <- read ;;
      match mediaRecorderRef (hook w) with
      | Some mediaRecorder =>
          match mr_onstop mediaRecorder with
          | Some i => onstop i
          | None => ret tt
          end
      | None => ret tt
      end
  end.

Fixpoint steps (es : list event) : M world unit :=
  match es with
  | [] => ret tt
  | e :: r => step e ;; steps r
  end.

Definition elapsed (es : list event) : N :=
  fold_right (fun e acc => match e with Elapse ms => (ms + acc)%N | _ => acc end) 0%N es.

Definition is_stop (e : event) : bool :=
  match e with StopEvent => true | _ => false end.

(** The promise of invocation [i]. *)
Definition promise_of (i : nat) (w : world) : promise (option blob) :=
  match stops w !! i with
  | Some c => settled c
  | None => Pending
  end.

(** The state after a run of events. *)
Definition exec (es : list event) (w : world) : world := final (steps es w).

(** The finalized clip, or null when no chunk was buffered. *)
Definition clip_or_null (chunks : list blob) : option blob :=
  match chunks with
  | [] => None
  | _ => Some (Blob chunks)
  end.

(** What one event does to the invocation whose handler is installed. *)
Definition call_after (e : event) (w : world) (c : stop_call) : stop_call :=
  match e with
  | Elapse ms => run_timeout (now w + ms) c
  | DataAvailable _ => c
  | StopEvent => resolve_call (clip_or_null (audioChunksRef (hook w))) (clear_call_timeout c)
  end.

Definition no_stop (es : list event) : bool :=
  forallb (fun e => negb (is_stop e)) es.

Definition recorder_active (w : world) : bool :=
  match mediaRecorderRef (hook w) with
  | Some mediaRecorder => negb (is_inactive (mr_state mediaRecorder))
  | None => false
  end.

End AudioRecorder.

(* ===================================================================== *)
(** * What the two session pages share *)
(* ===================================================================== *)

(** What the pages take as given.  Of the language, the built-ins
    [JSON.parse] ([None] when it throws a SyntaxError) and the [+]
    operator on arbitrary values.  Of React, [update_limit]: how many
    times in a row it lets the effects of a page cause a new render of
    that page before it stops with 'Maximum update depth exceeded'. *)
Class Runtime := {
  JSON_parse : Js.jsstring -> option Js.value;
  plus : Js.value -> Js.value -> Js.value;
  update_limit : nat;
}.

Module Session.

Inductive readyState := CONNECTING | OPEN | CLOSING | CLOSED.

(** [event.data] of a message event.  A binary frame is stringified by
    [JSON.parse] to ["[object Blob]"] or ["[object ArrayBuffer]"], which
    is not JSON. *)
Inductive frame_data := text (s : Js.jsstring) | binary.

(** [useState] cells of a page.  [isRecording], [isThinkingSlow] and
    [voiceInputMode] are declared by the voice page only.  A cell holds
    what its setter was last called with: the setters are closures that
    the handlers keep calling after React has unmounted the page, while
    React renders the cells only as long as the page is mounted. *)
Record ui_state := {
  aiQuestion : Js.value;
  isHolding : bool;
  isRecording : bool;
  fillerFlash : bool;
  isThinking : bool;
  isThinkingSlow : bool;
  voiceInputMode : string;   (* 'push' | 'hold' *)
  wsStatus : string;
}.

(** [useRef] cells of a page.  [thinkingTimerRef] and
    [analyserAttachedRef] are declared by the voice page only. *)
Record ref_cells := {
  transcriptRef : Js.jsstring;
  thinkingTimerRef : option nat;
  wsRef : option nat;
  reconnectCountRef : N;
  reconnectTimerRef : option nat;
  welcomePlayedRef : bool;
  analyserAttachedRef : bool;
}.

(** [useSpeechRecognition]: the transcript cells, whether a recognizer
    was created, and [isListeningRef]. *)
Record recognition := {
  transcript : Js.jsstring;
  interimTranscript : Js.jsstring;
  recognitionRef : bool;
  isListeningRef : bool;
}.

(** [useTextToSpeech]: whether [window.speechSynthesis] exists, and
    whether the level interval of [intervalRef] is running. *)
Record synthesis := {
  speechSynthesis : bool;
  intervalRef : bool;
}.

(** Sockets created so far (a socket is its index), pending timeouts,
    and the last timer id handed out. *)
Record browser := {
  sockets : list readyState;
  timers : list (nat * callback);
  timerIds : nat;
}.

(** Handlers suspended at an [await]: in [startRecording], and on the
    promise of an invocation of [stopRecording]. *)
Record suspended := {
  awaitingStart : nat;
  awaitingStop : list nat;
}.

(** Where a page is in its life: React has not mounted it yet, it is
    mounted, or React has unmounted it.  A component that is mounted
    again is another page, with cells of its own. *)
Inductive lifecycle := NotMounted | Mounted | Unmounted.

(** A page: [currentSession.session_id] if there is a session, the
    cells, the recorder hook with the voice store, the app store, and
    what React keeps of the page: where it is in its life, and for each of
    the two effects that register a cleanup the dependencies with which
    the effect last ran ([None] while no cleanup is registered).  Of
    the dependencies of the connect effect those that can change during a
    mount are kept: [isHolding], [isRecording] and the state object of
    the voice store.  [cameraStore] numbers the state objects of the
    camera store, which the camera page reads whole. *)
Record state := {
  currentSession : option Js.jsstring;
  ui : ui_state;
  refs : ref_cells;
  media : AudioRecorder.world;
  app : AppStore.t;
  speech : recognition;
  synth : synthesis;
  net : browser;
  susp : suspended;
  connectDeps : option (bool * bool * N);
  life : lifecycle;
  cameraStore : N;
  setupDeps : option N;
}.

Definition initial (session : option Js.jsstring) : state :=
  {| currentSession := session;
     ui := {| aiQuestion := Js.VString []; isHolding := false; isRecording := false;
              fillerFlash := false; isThinking := false; isThinkingSlow := false;
              voiceInputMode := "push"; wsStatus := "idle" |};
     refs := {| transcriptRef := []; thinkingTimerRef := None; wsRef := None;
                reconnectCountRef := 0%N; reconnectTimerRef := None;
                welcomePlayedRef := false; analyserAttachedRef := false |};
     media := AudioRecorder.initial;
     app := AppStore.initial;
     speech := {| transcript := []; interimTranscript := [];
                  recognitionRef := true; isListeningRef := false |};
     synth := {| speechSynthesis := true; intervalRef := false |};
     net := {| sockets := []; timers := []; timerIds := 0%nat |};
     susp := {| awaitingStart := 0%nat; awaitingStop := [] |};
     connectDeps := None;
     life := NotMounted;
     cameraStore := 0%N;
     setupDeps := None |}.

Definition set_aiQuestion (v : Js.value) (r : ui_state) : ui_state :=
  {| aiQuestion := v; isHolding := isHolding r; isRecording := isRecording r;
     fillerFlash := fillerFlash r; isThinking := isThinking r; isThinkingSlow :=
     isThinkingSlow r; voiceInputMode := voiceInputMode r; wsStatus := wsStatus r
     |}.
Definition set_isHolding (v : bool) (r : ui_state) : ui_state :=
  {| aiQuestion := aiQuestion r; isHolding := v; isRecording := isRecording r;
     fillerFlash := fillerFlash r; isThinking := isThinking r; isThinkingSlow :=
     isThinkingSlow r; voiceInputMode := voiceInputMode r; wsStatus := wsStatus r
     |}.
Definition set_isRecording (v : bool) (r : ui_state) : ui_state :=
  {| aiQuestion := aiQuestion r; isHolding := isHolding r; isRecording := v;
     fillerFlash := fillerFlash r; isThinking := isThinking r; isThinkingSlow :=
     isThinkingSlow r; voiceInputMode := voiceInputMode r; wsStatus := wsStatus r
     |}.
Definition set_fillerFlash (v : bool) (r : ui_state) : ui_state :=
  {| aiQuestion := aiQuestion r; isHolding := isHolding r; isRecording :=
     isRecording r; fillerFlash := v; isThinking := isThinking r; isThinkingSlow :=
     isThinkingSlow r; voiceInputMode := voiceInputMode r; wsStatus := wsStatus r
     |}.
Definition set_isThinking (v : bool) (r : ui_state) : ui_state :=
  {| aiQuestion := aiQuestion r; isHolding := isHolding r; isRecording :=
     isRecording r; fillerFlash := fillerFlash r; isThinking := v; isThinkingSlow :=
     isThinkingSlow r; voiceInputMode := voiceInputMode r; wsStatus := wsStatus r
     |}.
Definition set_isThinkingSlow (v : bool) (r : ui_state) : ui_state :=
  {| aiQuestion := aiQuestion r; isHolding := isHolding r; isRecording :=
     isRecording r; fillerFlash := fillerFlash r; isThinking := isThinking r;
     isThinkingSlow := v; voiceInputMode := voiceInputMode r; wsStatus := wsStatus r
     |}.
Definition set_voiceInputMode (v : string) (r : ui_state) : ui_state :=
  {| aiQuestion := aiQuestion r; isHolding := isHolding r; isRecording :=
     isRecording r; fillerFlash := fillerFlash r; isThinking := isThinking r;
     isThinkingSlow := isThinkingSlow r; voiceInputMode := v; wsStatus := wsStatus r
     |}.
Definition set_wsStatus (v : string) (r : ui_state) : ui_state :=
  {| aiQuestion := aiQuestion r; isHolding := isHolding r; isRecording :=
     isRecording r; fillerFlash := fillerFlash r; isThinking := isThinking r;
     isThinkingSlow := isThinkingSlow r; voiceInputMode := voiceInputMode r;
     wsStatus := v |}.
Definition set_transcriptRef (v : Js.jsstring) (r : ref_cells) : ref_cells :=
  {| transcriptRef := v; thinkingTimerRef := thinkingTimerRef r; wsRef := wsRef r;
     reconnectCountRef := reconnectCountRef r; reconnectTimerRef :=
     reconnectTimerRef r; welcomePlayedRef := welcomePlayedRef r;
     analyserAttachedRef := analyserAttachedRef r |}.
Definition set_thinkingTimerRef (v : option nat) (r : ref_cells) : ref_cells :=
  {| transcriptRef := transcriptRef r; thinkingTimerRef := v; wsRef := wsRef r;
     reconnectCountRef := reconnectCountRef r; reconnectTimerRef :=
     reconnectTimerRef r; welcomePlayedRef := welcomePlayedRef r;
     analyserAttachedRef := analyserAttachedRef r |}.
Definition set_wsRef (v : option nat) (r : ref_cells) : ref_cells :=
  {| transcriptRef := transcriptRef r; thinkingTimerRef := thinkingTimerRef r;
     wsRef := v; reconnectCountRef := reconnectCountRef r; reconnectTimerRef :=
     reconnectTimerRef r; welcomePlayedRef := welcomePlayedRef r;
     analyserAttachedRef := analyserAttachedRef r |}.
Definition set_reconnectCountRef (v : N) (r : ref_cells) : ref_cells :=
  {| transcriptRef := transcriptRef r; thinkingTimerRef := thinkingTimerRef r;
     wsRef := wsRef r; reconnectCountRef := v; reconnectTimerRef :=
     reconnectTimerRef r; welcomePlayedRef := welcomePlayedRef r;
     analyserAttachedRef := analyserAttachedRef r |}.
Definition set_reconnectTimerRef (v : option nat) (r : ref_cells) : ref_cells :=
  {| transcriptRef := transcriptRef r; thinkingTimerRef := thinkingTimerRef r;
     wsRef := wsRef r; reconnectCountRef := reconnectCountRef r; reconnectTimerRef
     := v; welcomePlayedRef := welcomePlayedRef r; analyserAttachedRef :=
     analyserAttachedRef r |}.
Definition set_welcomePlayedRef (v : bool) (r : ref_cells) : ref_cells :=
  {| transcriptRef := transcriptRef r; thinkingTimerRef := thinkingTimerRef r;
     wsRef := wsRef r; reconnectCountRef := reconnectCountRef r; reconnectTimerRef
     := reconnectTimerRef r; welcomePlayedRef := v; analyserAttachedRef :=
     analyserAttachedRef r |}.
Definition set_analyserAttachedRef (v : bool) (r : ref_cells) : ref_cells :=
  {| transcriptRef := transcriptRef r; thinkingTimerRef := thinkingTimerRef r;
     wsRef := wsRef r; reconnectCountRef := reconnectCountRef r; reconnectTimerRef
     := reconnectTimerRef r; welcomePlayedRef := welcomePlayedRef r;
     analyserAttachedRef := v |}.
Definition set_transcript (v : Js.jsstring) (r : recognition) : recognition :=
  {| transcript := v; interimTranscript := interimTranscript r; recognitionRef :=
     recognitionRef r; isListeningRef := isListeningRef r |}.
Definition set_interimTranscript (v : Js.jsstring) (r : recognition) : recognition :=
  {| transcript := transcript r; interimTranscript := v; recognitionRef :=
     recognitionRef r; isListeningRef := isListeningRef r |}.
Definition set_recognitionRef (v : bool) (r : recognition) : recognition :=
  {| transcript := transcript r; interimTranscript := interimTranscript r;
     recognitionRef := v; isListeningRef := isListeningRef r |}.
Definition set_isListeningRef (v : bool) (r : recognition) : recognition :=
  {| transcript := transcript r; interimTranscript := interimTranscript r;
     recognitionRef := recognitionRef r; isListeningRef := v |}.
Definition set_speechSynthesis (v : bool) (r : synthesis) : synthesis :=
  {| speechSynthesis := v; intervalRef := intervalRef r |}.
Definition set_intervalRef (v : bool) (r : synthesis) : synthesis :=
  {| speechSynthesis := speechSynthesis r; intervalRef := v |}.
Definition set_sockets (v : list readyState) (r : browser) : browser :=
  {| sockets := v; timers := timers r; timerIds := timerIds r |}.
Definition set_timers (v : list (nat * callback)) (r : browser) : browser :=
  {| sockets := sockets r; timers := v; timerIds := timerIds r |}.
Definition set_timerIds (v : nat) (r : browser) : browser :=
  {| sockets := sockets r; timers := timers r; timerIds := v |}.
Definition set_awaitingStart (v : nat) (r : suspended) : suspended :=
  {| awaitingStart := v; awaitingStop := awaitingStop r |}.
Definition set_awaitingStop (v : list nat) (r : suspended) : suspended :=
  {| awaitingStart := awaitingStart r; awaitingStop := v |}.
Definition with_currentSession (f : option Js.jsstring -> option Js.jsstring) (s : state) : state :=
  {| currentSession := f (currentSession s); ui := ui s; refs := refs s;
     media := media s; app := app s; speech := speech s; synth := synth s;
     net := net s; susp := susp s; connectDeps := connectDeps s; life := life s;
     cameraStore := cameraStore s; setupDeps := setupDeps s |}.
Definition with_ui (f : ui_state -> ui_state) (s : state) : state :=
  {| currentSession := currentSession s; ui := f (ui s); refs := refs s;
     media := media s; app := app s; speech := speech s; synth := synth s;
     net := net s; susp := susp s; connectDeps := connectDeps s; life := life s;
     cameraStore := cameraStore s; setupDeps := setupDeps s |}.
Definition with_refs (f : ref_cells -> ref_cells) (s : state) : state :=
  {| currentSession := currentSession s; ui := ui s; refs := f (refs s);
     media := media s; app := app s; speech := speech s; synth := synth s;
     net := net s; susp := susp s; connectDeps := connectDeps s; life := life s;
     cameraStore := cameraStore s; setupDeps := setupDeps s |}.
Definition with_media (f : AudioRecorder.world -> AudioRecorder.world) (s : state) : state :=
  {| currentSession := currentSession s; ui := ui s; refs := refs s;
     media := f (media s); app := app s; speech := speech s; synth := synth s;
     net := net s; susp := susp s; connectDeps := connectDeps s; life := life s;
     cameraStore := cameraStore s; setupDeps := setupDeps s |}.
Definition with_app (f : AppStore.t -> AppStore.t) (s : state) : state :=
  {| currentSession := currentSession s; ui := ui s; refs := refs s; media := media s;
     app := f (app s); speech := speech s; synth := synth s; net := net s;
     susp := susp s; connectDeps := connectDeps s; life := life s;
     cameraStore := cameraStore s; setupDeps := setupDeps s |}.
Definition with_speech (f : recognition -> recognition) (s : state) : state :=
  {| currentSession := currentSession s; ui := ui s; refs := refs s; media := media s;
     app := app s; speech := f (speech s); synth := synth s; net := net s;
     susp := susp s; connectDeps := connectDeps s; life := life s;
     cameraStore := cameraStore s; setupDeps := setupDeps s |}.
Definition with_synth (f : synthesis -> synthesis) (s : state) : state :=
  {| currentSession := currentSession s; ui := ui s; refs := refs s; media := media s;
     app := app s; speech := speech s; synth := f (synth s); net := net s;
     susp := susp s; connectDeps := connectDeps s; life := life s;
     cameraStore := cameraStore s; setupDeps := setupDeps s |}.
Definition with_net (f : browser -> browser) (s : state) : state :=
  {| currentSession := currentSession s; ui := ui s; refs := refs s; media := media s;
     app := app s; speech := speech s; synth := synth s; net := f (net s);
     susp := susp s; connectDeps := connectDeps s; life := life s;
     cameraStore := cameraStore s; setupDeps := setupDeps s |}.
Definition with_susp (f : suspended -> suspended) (s : state) : state :=
  {| currentSession := currentSession s; ui := ui s; refs := refs s; media := media s;
     app := app s; speech := speech s; synth := synth s; net := net s;
     susp := f (susp s); connectDeps := connectDeps s; life := life s;
     cameraStore := cameraStore s; setupDeps := setupDeps s |}.
Definition with_connectDeps (f : option (bool * bool * N) -> option (bool * bool * N)) (s : state) : state :=
  {| currentSession := currentSession s; ui := ui s; refs := refs s; media := media s;
     app := app s; speech := speech s; synth := synth s; net := net s; susp := susp s;
     connectDeps := f (connectDeps s); life := life s; cameraStore := cameraStore s;
     setupDeps := setupDeps s |}.
Definition with_life (f : lifecycle -> lifecycle) (s : state) : state :=
  {| currentSession := currentSession s; ui := ui s; refs := refs s; media := media s;
     app := app s; speech := speech s; synth := synth s; net := net s; susp := susp s;
     connectDeps := connectDeps s; life := f (life s); cameraStore := cameraStore s;
     setupDeps := setupDeps s |}.
Definition with_cameraStore (f : N -> N) (s : state) : state :=
  {| currentSession := currentSession s; ui := ui s; refs := refs s; media := media s;
     app := app s; speech := speech s; synth := synth s; net := net s; susp := susp s;
     connectDeps := connectDeps s; life := life s; cameraStore := f (cameraStore s);
     setupDeps := setupDeps s |}.
Definition with_setupDeps (f : option N -> option N) (s : state) : state :=
  {| currentSession := currentSession s; ui := ui s; refs := refs s; media := media s;
     app := app s; speech := speech s; synth := synth s; net := net s; susp := susp s;
     connectDeps := connectDeps s; life := life s; cameraStore := cameraStore s;
     setupDeps := f (setupDeps s) |}.

(** ** Cells and stores *)

Definition setAiQuestion v : M state unit := modify (with_ui (set_aiQuestion v)).
Definition setIsHolding v : M state unit := modify (with_ui (set_isHolding v)).
Definition setIsRecording v : M state unit := modify (with_ui (set_isRecording v)).
Definition setFillerFlash v : M state unit := modify (with_ui (set_fillerFlash v)).
Definition setIsThinking v : M state unit := modify (with_ui (set_isThinking v)).
Definition setIsThinkingSlow v : M state unit := modify (with_ui (set_isThinkingSlow v)).
Definition setVoiceInputMode v : M state unit := modify (with_ui (set_voiceInputMode v)).
Definition setWsStatus v : M state unit := modify (with_ui (set_wsStatus v)).

Definition voice (s : state) : VoiceStore.t := AudioRecorder.voice (media s).

Definition with_voice (f : VoiceStore.t -> VoiceStore.t) : state -> state :=
  with_media (AudioRecorder.with_voice f).

Definition voiceStore_setState v : M state unit := modify (with_voice (VoiceStore.setState v)).
Definition voiceStore_setAudioLevel v : M state unit :=
  modify (with_voice (VoiceStore.setAudioLevel v)).
Definition voiceStore_setError v : M state unit := modify (with_voice (VoiceStore.setError v)).

Definition setWpm v : M state unit := modify (with_app (AppStore.setWpm v)).
Definition setFillerCount v : M state unit := modify (with_app (AppStore.setFillerCount v)).

(** The recorder hook, run inside the page. *)
Definition recorder {A} (m : M AudioRecorder.world A) : M state A :=
  lift media (fun w => with_media (fun _ => w)) m.

(** ** Timers *)

Definition setTimeout (cb : callback) (ms : Z) : M state nat :=
  s <- read ;;
  let id := Datatypes.S (timerIds (net s)) in
  modify (with_net (fun b =>
    {| sockets := sockets b; timers := timers b ++ [(id, cb)]; timerIds := id |})) ;;
  emit (set_timeout id cb ms) ;;
  ret id.

Definition clearTimeout (id : nat) : M state unit :=
  modify (with_net (fun b =>
    set_timers (List.filter (fun t => negb (Nat.eqb (fst t) id)) (timers b)) b)) ;;
  emit (clear_timeout id).

Definition pending_timer (id : nat) (s : state) : option callback :=
  snd <$> List.find (fun t => Nat.eqb (fst t) id) (timers (net s)).

(** ** Sockets *)

(** [wsRef.current?.readyState === WebSocket.OPEN] *)
Definition socket_open (s : state) : bool :=
  match wsRef (refs s) with
  | Some ws => match sockets (net s) !! ws with Some OPEN => true | _ => false end
  | None => false
  end.

Definition set_readyState (ws : nat) (f : readyState -> readyState) : M state unit :=
  modify (with_net (fun b => set_sockets (alter f ws (sockets b)) b)).

(** [ws.close(code)]: starts the closing handshake of a socket that is
    connecting or open, and does nothing otherwise. *)
Definition close (ws : nat) (code : option Z) : M state unit :=
  set_readyState ws (fun st => match st with CONNECTING | OPEN => CLOSING | _ => st end) ;;
  emit (ws_close ws code).

(** [lib/api.js]: [validateString(value, fieldName, true)] on a string. *)
Definition validateString_required (value : Js.jsstring) (fieldName : string)
  : M state unit :=
  match value with
  | [] => throw (String.append fieldName " is required")
  | _ => ret tt
  end.

(** [lib/api.js]: [createVoiceWebSocket]; the URL built from the API
    origin is taken to be one [new WebSocket] accepts. *)
Definition createVoiceWebSocket (sessionId : Js.jsstring) : M state nat :=
  validateString_required sessionId "session_id" ;;
  s <- read ;;
  let ws := List.length (sockets (net s)) in
  modify (with_net (fun b => set_sockets (sockets b ++ [CONNECTING]) b)) ;;
  emit (ws_new ws) ;;
  ret ws.

(** ** hooks/use-text-to-speech.js *)

(** [speak(text)], up to the promise it returns. *)
Definition speak (text : Js.value) : M state unit :=
  s <- read ;;
  if negb (speechSynthesis (synth s)) then
    emit (console_warn "Speech synthesis not supported")
  else
    voiceStore_setState "speaking" ;;
    emit (synth_speak text).

Definition utterance_onstart : M state unit :=
  modify (with_synth (set_intervalRef true)).

(** [utterance.onend], and [utterance.onerror] whose two branches do the
    same to the stores. *)
Definition utterance_onend : M state unit :=
  modify (with_synth (set_intervalRef false)) ;;
  voiceStore_setAudioLevel (Js.of_Z 0) ;;
  voiceStore_setState "idle".

(** [stop()]: the bare [speechSynthesis] is a ReferenceError where the
    browser has none. *)
Definition stopSpeech : M state unit :=
  modify (with_synth (set_intervalRef false)) ;;
  s <- read ;;
  (if speechSynthesis (synth s) then emit synth_cancel
   else throw "speechSynthesis is not defined") ;;
  voiceStore_setAudioLevel (Js.of_Z 0) ;;
  voiceStore_setState "idle".

(** ** hooks/use-speech-recognition.js *)

Definition startListening : M state unit :=
  s <- read ;;
  if negb (recognitionRef (speech s)) || isListeningRef (speech s) then ret tt
  else
    modify (with_speech (set_transcript [])) ;;
    modify (with_speech (set_interimTranscript [])) ;;
    emit recognition_start.

Definition stopListening : M state unit :=
  s <- read ;;
  if negb (recognitionRef (speech s)) || negb (isListeningRef (speech s)) then ret tt
  else
    emit recognition_stop ;;
    modify (with_speech (set_isListeningRef false)).

Definition clearTranscript : M state unit :=
  modify (with_speech (set_transcript [])) ;;
  modify (with_speech (set_interimTranscript [])).

Definition recognition_onstart : M state unit :=
  modify (with_speech (set_isListeningRef true)).

(** [recognition.onresult], given the concatenated final and interim
    texts of the event. *)
Definition recognition_onresult (finalTranscript interim : Js.jsstring) : M state unit :=
  s <- read ;;
  when (Js.truthy (Js.VString finalTranscript))
    (modify (with_speech (set_transcript
       (transcript (speech s) ++ Js.lit " " ++ finalTranscript)))) ;;
  when (Js.truthy (Js.VString interim))
    (modify (with_speech (set_interimTranscript interim))).

Definition recognition_onend : M state unit :=
  modify (with_speech (set_isListeningRef false)).

(** ** The session socket: the same text in both pages *)

Definition WS_RECONNECT_BASE_MS : Z := 1000.
Definition WS_RECONNECT_MAX_MS : Z := 16000.
Definition WS_MAX_RETRIES : N := 5.

(** [connectWs].  The handlers it installs on the new socket are
    [onopen], [onmessage], [onerror] and [onclose] below. *)
Definition connectWs : M state unit :=
  s <- read ;;
  match currentSession s with
  | None => ret tt
  | Some session_id =>
      match wsRef (refs s) with
      | Some ws => close ws None
      | None => ret tt
      end ;;
      ws <- createVoiceWebSocket session_id ;;
      modify (with_refs (set_wsRef (Some ws)))
  end.

(** [ws.onopen] *)
Definition onopen : M state unit :=
  modify (with_refs (set_reconnectCountRef 0%N)) ;;
  setWsStatus "connected" ;;
  voiceStore_setError None.

(** [ws.onerror] *)
Definition onerror : M state unit :=
  voiceStore_setError (Some "Connection error").

(** [ws.onclose], given [event.code] *)
Definition onclose (code : Z) : M state unit :=
  if code =? 1000 then ret tt
  else
    s <- read ;;
    if (reconnectCountRef (refs s) <? WS_MAX_RETRIES)%N then
      let delay :=
        Z.min (WS_RECONNECT_BASE_MS * 2 ^ Z.of_N (reconnectCountRef (refs s)))
              WS_RECONNECT_MAX_MS in
      setWsStatus "reconnecting" ;;
      modify (with_refs (set_reconnectCountRef (reconnectCountRef (refs s) + 1)%N)) ;;
      id <- setTimeout cb_connectWs delay ;;
      modify (with_refs (set_reconnectTimerRef (Some id)))
    else
      setWsStatus "failed" ;;
      voiceStore_setError (Some "Connection lost. Please refresh to retry.").

Section OnMessage.
Context {rt : Runtime}.

Definition parse (data : frame_data) : option Js.value :=
  match data with
  | text s => JSON_parse s
  | binary => None
  end.

(** [data.message || data.scenario?.opening || "Let's begin."] *)
Definition welcome_message (data : Js.value) : Js.value :=
  Js.or (Js.or (Js.member data "message")
               (Js.get_opt (Js.member data "scenario") "opening"))
        (Js.str "Let's begin.").

(** The branch of [ws.onmessage] for [data.type === 'welcome'];
    [before_speak] is what a page does between [setAiQuestion] and the
    played-flag test. *)
Definition on_welcome (before_speak : M state unit) (data : Js.value) : M state unit :=
  let msg := welcome_message data in
  setAiQuestion msg ;;
  before_speak ;;
  s <- read ;;
  if negb (welcomePlayedRef (refs s)) then
    modify (with_refs (set_welcomePlayedRef true)) ;;
    speak msg
  else ret tt.

(** The branch for [data.type === 'ai_response']; [on_arrival] is its
    first statement, which differs between the pages. *)
Definition on_ai_response (on_arrival : M state unit) (data : Js.value) : M state unit :=
  on_arrival ;;
  setAiQuestion (Js.member data "text") ;;
  let analysis := Js.member data "analysis" in
  when (Js.truthy analysis)
    (let length := Js.get_opt (Js.member analysis "filler_words") "length" in
     when (Js.truthy length)
       (current <- read ;;
        setFillerCount (plus (AppStore.fillerCount (app current)) length) ;;
        setFillerFlash true ;;
        _ <- setTimeout cb_fillerFlashOff 600 ;;
        ret tt) ;;
     let clarity_score := Js.member analysis "clarity_score" in
     match clarity_score with
     | Js.VNumber x =>
         when (negb (Js.isNaN x)) (setWpm (Js.VNumber (Js.mul x (Js.of_Z 2))))
     | _ => ret tt
     end) ;;
  voiceStore_setState "processing" ;;
  speak (Js.member data "text").

(** The branch for [data.type === 'session_ended'] *)
Definition on_session_ended : M state unit :=
  s <- read ;;
  match currentSession s with
  | Some session_id => emit (navigate (Js.lit "/feedback/" ++ session_id))
  | None => ret tt
  end.

(** [ws.onmessage], given [event.data].  Reading [data.type] of a
    parsed [null] throws a TypeError. *)
Definition onmessage (before_speak on_arrival : M state unit) (event_data : frame_data)
  : M state unit :=
  match parse event_data with
  | None => emit (console_error "Failed to parse WebSocket message:")
  | Some data =>
      match Js.get data "type" with
      | None => throw "TypeError"
      | Some type =>
          if Js.is_string type "welcome" then on_welcome before_speak data
          else if Js.is_string type "ai_response" then on_ai_response on_arrival data
          else if Js.is_string type "session_ended" then on_session_ended
          else ret tt
      end
  end.

End OnMessage.

(** The text of an outbound turn:
    [transcriptRef.current.trim() || 'I understand your point ...'] *)
Definition FALLBACK : Js.jsstring :=
  Js.lit "I understand your point and would like to respond...".

Definition turn_text (s : state) : Js.jsstring :=
  let trimmed := Js.trim (transcriptRef (refs s)) in
  if Js.truthy (Js.VString trimmed) then trimmed else FALLBACK.

(** [useEffect(() => { transcriptRef.current = transcript }, [transcript])] *)
Definition sync_transcriptRef : M state unit :=
  s <- read ;;
  modify (with_refs (set_transcriptRef (transcript (speech s)))).

(** What reaches a page. *)
Inductive event :=
| Mount
| Unmount
| WsOpen (ws : nat)
| WsMessage (ws : nat) (data : frame_data)
| WsError (ws : nat)
| WsClose (ws : nat) (code : Z)
| Timer (id : nat)                       (* a pending timeout runs *)
| SelectMode (key : string)              (* a mode button clicked *)
| PointerDown                            (* hold button pressed *)
| PointerUp                              (* hold button released *)
| ClickToggle                            (* record toggle clicked *)
| ClickRetry                             (* Retry clicked *)
| Silence                                (* the silence watchdog fires *)
| UserMedia (p : AudioRecorder.platform) (* [getUserMedia] settles *)
| Recorder (e : AudioRecorder.event)     (* time passes, recorder events *)
| SpeechStart
| SpeechResult (finalTranscript interim : Js.jsstring)
| SpeechEnd
| UtteranceStart
| UtteranceEnd.

(** An exception that leaves a handler is reported and goes no further. *)
Definition uncaught (m : M state unit) : M state unit :=
  try_catch m (fun e => emit (console_error e)).

(** An effect or a cleanup as React runs it: an exception that leaves it
    is reported, and the value tells whether there was one. *)
Definition guarded (m : M state unit) : M state bool :=
  try_catch (m ;; ret false) (fun e => emit (console_error e) ;; ret true).

Definition is_mounted (s : state) : bool :=
  match life s with
  | Mounted => true
  | NotMounted | Unmounted => false
  end.

(** Two values of the dependencies of the connect effect are the same. *)
Definition same_deps (a b : bool * bool * N) : bool :=
  Bool.eqb (fst (fst a)) (fst (fst b))
  && Bool.eqb (snd (fst a)) (snd (fst b))
  && (snd a =? snd b)%N.

(** The events of a run, one turn of the event loop each. *)
Fixpoint run_with (dispatch : event -> M state unit) (es : list event) : M state unit :=
  match es with
  | [] => ret tt
  | e :: rest => dispatch e ;; run_with dispatch rest
  end.

(** ** Reading a run *)

(** The delays of the reconnects a run scheduled, in order. *)
Definition reconnect_delays (log : list effect) : list Z :=
  flat_map (fun e => match e with
                     | set_timeout _ cb_connectWs ms => [ms]
                     | _ => []
                     end) log.

(** The texts handed to speech synthesis, in order. *)
Definition spoken (log : list effect) : list Js.value :=
  flat_map (fun e => match e with synth_speak t => [t] | _ => [] end) log.

(** The frames sent, in order. *)
Definition sent (log : list effect) : list outbound :=
  flat_map (fun e => match e with ws_send _ f => [f] | _ => [] end) log.

Definition is_open (e : event) : bool :=
  match e with WsOpen _ => true | _ => false end.

Definition is_abnormal_close (e : event) : bool :=
  match e with WsClose _ code => negb (code =? 1000) | _ => false end.

Definition no_open (es : list event) : bool :=
  forallb (fun e => negb (is_open e)) es.

Definition abnormal_closes (es : list event) : nat :=
  List.length (List.filter is_abnormal_close es).

(** The delay before reconnect number [k + 1], as the specification
    gives it: 1000 ms doubled [k] times, capped at 16000 ms. *)
Definition backoff (k : nat) : Z := Z.min (1000 * 2 ^ Z.of_nat k) 16000.

(** The retry counter and the connection status. *)
Definition connection (s : state) : N * string :=
  (reconnectCountRef (refs s), wsStatus (ui s)).

(** A handler that leaves the connection alone and schedules no reconnect. *)
Definition inert {A} (m : M state A) : Prop :=
  forall s, connection (final (m s)) = connection s
            /\ reconnect_delays (calls (m s)) = [].

(** A handler that returns: no exception leaves it. *)
Definition returns {S A} (m : M S A) : Prop :=
  forall s, exists a, out (m s) = Return a.

(** A recorder handler schedules no reconnect, speaks and sends nothing. *)
Definition silent {A} (m : M AudioRecorder.world A) : Prop :=
  forall w, reconnect_delays (calls (m w)) = []
            /\ spoken (calls (m w)) = [] /\ sent (calls (m w)) = [].

End Session.

(* ===================================================================== *)
(** * pages/VoiceSession.jsx *)
(* ===================================================================== *)

Module VoiceSession.
Import Session.

Definition THINKING_SLOW_THRESHOLD_MS : Z := 4000.

Definition startThinkingTimer : M state unit :=
  setIsThinking true ;;
  setIsThinkingSlow false ;;
  id <- setTimeout cb_thinkingSlow THINKING_SLOW_THRESHOLD_MS ;;
  modify (with_refs (set_thinkingTimerRef (Some id))).

Definition clearThinkingTimer : M state unit :=
  setIsThinking false ;;
  setIsThinkingSlow false ;;
  s <- read ;;
  match thinkingTimerRef (refs s) with
  | Some id =>
      clearTimeout id ;;
      modify (with_refs (set_thinkingTimerRef None))
  | None => ret tt
  end.

(** [sendTranscript] *)
Definition sendTranscript : M state unit :=
  s <- read ;;
  match wsRef (refs s) with
  | Some ws =>
      if socket_open s then
        let text := turn_text s in
        emit (ws_send ws (user_audio_transcript text)) ;;
        clearTranscript ;;
        startThinkingTimer
      else ret tt
  | None => ret tt
  end.

(** [handleHoldStart] up to [await startRecording()], and the start of
    [handlePushToggle] up to the same call. *)
Definition begin_turn : M state unit :=
  stopSpeech ;;
  clearThinkingTimer ;;
  voiceStore_setState "listening" ;;
  recorder AudioRecorder.startRecording_begin ;;
  modify (with_susp (fun u => set_awaitingStart (Datatypes.S (awaitingStart u)) u)).

Definition handleHoldStart : M state unit :=
  setIsHolding true ;;
  begin_turn.

(** What both run once [startRecording] has returned. *)
Definition after_startRecording : M state unit :=
  startListening ;;
  s <- read ;;
  match AudioRecorder.analyserRef (AudioRecorder.hook (media s)) with
  | Some _ =>
      if negb (analyserAttachedRef (refs s)) then
        modify (with_refs (set_analyserAttachedRef true)) ;;
        emit silence_attach
      else ret tt
  | None => ret tt
  end.

(** The end of a turn up to [await stopRecording()]: from [detachSilence()]
    on, the text of [handleHoldEnd] and of the stop branch of
    [handlePushToggle] is the same. *)
Definition end_turn : M state unit :=
  emit silence_detach ;;
  modify (with_refs (set_analyserAttachedRef false)) ;;
  voiceStore_setState "processing" ;;
  i <- recorder AudioRecorder.stopRecording ;;
  modify (with_susp (fun u => set_awaitingStop (awaitingStop u ++ [i]) u)).

Definition handleHoldEnd : M state unit :=
  s <- read ;;
  if negb (isHolding (ui s)) then ret tt
  else
    setIsHolding false ;;
    end_turn.

(** What both run once the promise of [stopRecording] has resolved. *)
Definition after_stopRecording : M state unit :=
  stopListening ;;
  sendTranscript.

(** [handleSilenceDetected], as rendered with a given [isHolding]. *)
Definition handleSilenceDetected (isHolding : bool) : M state unit :=
  if negb isHolding then ret tt
  else
    setIsHolding false ;;
    voiceStore_setState "processing" ;;
    setIsThinking true ;;
    i <- recorder AudioRecorder.stopRecording ;;
    modify (with_susp (fun u => set_awaitingStop (awaitingStop u ++ [i]) u)).

Definition handlePushToggle : M state unit :=
  s <- read ;;
  if negb (isRecording (ui s)) then
    setIsRecording true ;;
    begin_turn
  else
    setIsRecording false ;;
    end_turn.

(** The dependencies of the connect effect, [currentSession, connectWs,
    isHolding, isRecording, stopSpeech, clearThinkingTimer], as a render
    has them.  [currentSession], [stopSpeech] and [clearThinkingTimer]
    are the same objects throughout a mount.  [connectWs] is built anew
    by [useCallback] when one of its own dependencies is another object,
    and among these is [voiceStore], the value of [useVoiceStore()]: the
    state object of the voice store. *)
Definition rendered (s : state) : bool * bool * N :=
  (isHolding (ui s), isRecording (ui s), VoiceStore.writes (voice s)).

Definition deps_changed (d : bool * bool * N) (s : state) : bool :=
  negb (same_deps d (rendered s)).

(** The effect that connects: its body, in a render with dependencies
    [d].  On a page without a session it returns no cleanup. *)
Definition connect_effect (d : bool * bool * N) : M state unit :=
  s <- read ;;
  match currentSession s with
  | None => ret tt
  | Some _ =>
      connectWs ;;
      modify (with_connectDeps (fun _ => Some d))
  end.

(** The function the effect returns. *)
Definition connect_cleanup : M state unit :=
  s <- read ;;
  match reconnectTimerRef (refs s) with
  | Some id => clearTimeout id
  | None => ret tt
  end ;;
  match wsRef (refs s) with
  | Some ws => close ws (Some 1000)
  | None => ret tt
  end ;;
  modify (with_refs (set_welcomePlayedRef false)) ;;
  stopSpeech ;;
  clearThinkingTimer.

(** React takes the page down: the cleanup of the connect effect runs, if
    one is registered.  The cleanups of the hooks (of the recorder, the
    synthesizer and the recognizer) write no store and are not followed. *)
Definition unmount : M state unit :=
  s <- read ;;
  modify (with_life (fun _ => Unmounted)) ;;
  match connectDeps s with
  | Some _ =>
      modify (with_connectDeps (fun _ => None)) ;;
      _ <- guarded connect_cleanup ;;
      ret tt
  | None => ret tt
  end.

(** React mounts the page and runs the connect effect.  An exception
    that leaves an effect takes the page down. *)
Definition mount : M state unit :=
  s <- read ;;
  match life s with
  | NotMounted =>
      modify (with_life (fun _ => Mounted)) ;;
      thrown <- guarded (connect_effect (rendered s)) ;;
      if thrown then unmount else ret tt
  | Mounted | Unmounted => ret tt
  end.

(** A render of the page, and the renders that follow from it.  When
    the dependencies of the connect effect are not those it last ran
    with, React runs its cleanup and then the effect.  The cleanup
    writes the voice store ([stopSpeech]), so the render that follows has
    another [connectWs] and the effect is due again.  React ends this
    after [fuel] rounds with 'Maximum update depth exceeded', and at
    once when the cleanup or the effect throws; in both cases it takes
    the page down. *)
Fixpoint render (fuel : nat) : M state unit :=
  s <- read ;;
  match connectDeps s with
  | Some d =>
      if deps_changed d s then
        match fuel with
        | O => emit (console_error "Maximum update depth exceeded") ;; unmount
        | Datatypes.S fuel =>
            modify (with_connectDeps (fun _ => None)) ;;
            thrown <- guarded connect_cleanup ;;
            thrown' <- guarded (connect_effect (rendered s)) ;;
            if thrown || thrown' then unmount else render fuel
        end
      else ret tt
  | None => ret tt
  end.

Definition run_callback (cb : callback) : M state unit :=
  match cb with
  | cb_connectWs => connectWs
  | cb_thinkingSlow => setIsThinkingSlow true
  | cb_fillerFlashOff => setFillerFlash false
  end.

Definition run_timer (id : nat) : M state unit :=
  s <- read ;;
  match pending_timer id s with
  | Some cb =>
      modify (with_net (fun b =>
        set_timers (List.filter (fun t => negb (Nat.eqb (fst t) id)) (timers b)) b)) ;;
      run_callback cb
  | None => ret tt
  end.

(** Handlers suspended on a promise of [stopRecording] that has
    resolved run on. *)
Fixpoint resume (awaiting : list nat) : M state unit :=
  match awaiting with
  | [] => ret tt
  | i :: rest =>
      s <- read ;;
      match AudioRecorder.promise_of i (media s) with
      | AudioRecorder.Resolved _ =>
          modify (with_susp (fun u =>
            set_awaitingStop (List.filter (fun j => negb (Nat.eqb j i)) (awaitingStop u)) u)) ;;
          uncaught after_stopRecording
      | AudioRecorder.Pending => ret tt
      end ;;
      resume rest
  end.

Section Events.
Context {rt : Runtime}.

(** [ws.onmessage] *)
Definition onmessage : frame_data -> M state unit :=
  Session.onmessage clearThinkingTimer clearThinkingTimer.

(** What React does after a render: it runs the effect that copies the
    transcript and, when it is due, the connect effect.  A page that is
    not mounted is not rendered. *)
Definition commit : M state unit :=
  s <- read ;;
  if is_mounted s then
    sync_transcriptRef ;;
    render update_limit
  else ret tt.

(** The handlers of the sockets, of the timers and of the browser objects
    are closures that the browser keeps and calls whether or not the page
    is still mounted; the buttons are there only while it is. *)
Definition handle (e : event) : M state unit :=
  match e with
  | Mount => mount
  | Unmount =>
      s <- read ;;
      when (is_mounted s) unmount
  | WsOpen ws => set_readyState ws (fun _ => OPEN) ;; onopen
  | WsMessage ws data => onmessage data
  | WsError ws => onerror
  | WsClose ws code => set_readyState ws (fun _ => CLOSED) ;; onclose code
  | Timer id => run_timer id
  | SelectMode key =>
      s <- read ;;
      if negb (is_mounted s) || isRecording (ui s) || isHolding (ui s) then ret tt
      else setVoiceInputMode key
  | PointerDown =>
      (* the hold button is rendered while voiceInputMode === 'hold' *)
      s <- read ;;
      when (is_mounted s && String.eqb (voiceInputMode (ui s)) "hold") handleHoldStart
  | PointerUp =>
      s <- read ;;
      when (is_mounted s && String.eqb (voiceInputMode (ui s)) "hold") handleHoldEnd
  | ClickToggle =>
      (* and the record toggle otherwise *)
      s <- read ;;
      when (is_mounted s && negb (String.eqb (voiceInputMode (ui s)) "hold"))
        handlePushToggle
  | ClickRetry =>
      (* the button is rendered while wsStatus === 'failed' *)
      s <- read ;;
      when (is_mounted s && String.eqb (wsStatus (ui s)) "failed") connectWs
  | Silence =>
      (* [useSilenceDetection] keeps the callback of the first render in
         [useRef(onSilence)] and never replaces it: [isHolding] is false *)
      handleSilenceDetected false
  | UserMedia p =>
      s <- read ;;
      match awaitingStart (susp s) with
      | O => ret tt
      | Datatypes.S n =>
          modify (with_susp (set_awaitingStart n)) ;;
          _ <- recorder (AudioRecorder.startRecording_resume p) ;;
          after_startRecording
      end
  | Recorder e => recorder (AudioRecorder.step e)
  | SpeechStart => recognition_onstart
  | SpeechResult finalTranscript interim => recognition_onresult finalTranscript interim
  | SpeechEnd => recognition_onend
  | UtteranceStart => utterance_onstart
  | UtteranceEnd => utterance_onend
  end.

(** One turn of the event loop: the handler, the render it causes,
    then the continuations that became ready and their render. *)
Definition dispatch (e : event) : M state unit :=
  uncaught (handle e) ;;
  uncaught commit ;;
  s <- read ;;
  resume (awaitingStop (susp s)) ;;
  uncaught commit.

Definition run : list event -> M state unit := run_with dispatch.

End Events.

End VoiceSession.

(* ===================================================================== *)
(** * pages/CameraSession.jsx *)
(* ===================================================================== *)

Module CameraSession.
Import Session.

Definition handleHoldStart : M state unit :=
  setIsHolding true ;;
  stopSpeech ;;
  voiceStore_setState "listening" ;;
  recorder AudioRecorder.startRecording_begin ;;
  modify (with_susp (fun u => set_awaitingStart (Datatypes.S (awaitingStart u)) u)).

Definition after_startRecording : M state unit :=
  startListening.

(** [handleHoldEnd] up to [await stopRecording()] *)
Definition handleHoldEnd : M state unit :=
  s <- read ;;
  if negb (isHolding (ui s)) then ret tt
  else
    setIsHolding false ;;
    voiceStore_setState "processing" ;;
    setIsThinking true ;;
    i <- recorder AudioRecorder.stopRecording ;;
    modify (with_susp (fun u => set_awaitingStop (awaitingStop u ++ [i]) u)).

(** The rest of [handleHoldEnd]; [isDemo] is [!currentSession]. *)
Definition after_stopRecording : M state unit :=
  stopListening ;;
  s <- read ;;
  match currentSession s with
  | None => clearTranscript
  | Some _ =>
      match wsRef (refs s) with
      | Some ws =>
          if socket_open s then
            let text := turn_text s in
            emit (ws_send ws (user_audio_transcript text)) ;;
            clearTranscript
          else ret tt
      | None => ret tt
      end
  end.

(** The dependencies of the connect effect, [currentSession, connectWs,
    stopSpeech], as a render has them: no cell of the page is among them,
    and [connectWs] is built anew when [voiceStore], the state object of
    the voice store, is another object. *)
Definition rendered (s : state) : bool * bool * N :=
  (false, false, VoiceStore.writes (voice s)).

Definition deps_changed (d : bool * bool * N) (s : state) : bool :=
  negb (same_deps d (rendered s)).

(** The effect that connects: its body, in a render with dependencies
    [d].  On a page without a session it returns no cleanup. *)
Definition connect_effect (d : bool * bool * N) : M state unit :=
  s <- read ;;
  match currentSession s with
  | None => ret tt
  | Some _ =>
      connectWs ;;
      modify (with_connectDeps (fun _ => Some d))
  end.

Definition connect_cleanup : M state unit :=
  s <- read ;;
  match reconnectTimerRef (refs s) with
  | Some id => clearTimeout id
  | None => ret tt
  end ;;
  match wsRef (refs s) with
  | Some ws => close ws (Some 1000)
  | None => ret tt
  end ;;
  modify (with_refs (set_welcomePlayedRef false)) ;;
  stopSpeech.

(** One [set] of the camera store.  The page reads the store whole,
    [useCameraStore()], and of what is followed here only the effect
    below depends on it, by the identity of the state object. *)
Definition cameraStore_set : M state unit :=
  modify (with_cameraStore N.succ).

Definition WASM_CDN : string :=
  "https://cdn.jsdelivr.net/npm/@mediapipe/tasks-vision@latest/wasm".

(** [hooks/use-body-language.js]: [initialize()], up to its first
    [await]: [store.setLoading(true)], [store.setError(null)], and the
    call of [FilesetResolver.forVisionTasks(WASM_CDN)]. *)
Definition initialize_begin : M state unit :=
  cameraStore_set ;;
  cameraStore_set ;;
  emit (load_vision WASM_CDN).

(** [stop()] of the same hook, [stopCamera] to the page, while no model
    is loaded and no camera runs: the refs it clears are null, and it
    ends with [setActive(false)]. *)
Definition stopCamera : M state unit :=
  cameraStore_set.

(** The effect that sets the camera up, with dependencies [initialize,
    startCamera, stopCamera, cameraStore]; [d] is the state object of
    the camera store in the render that runs it.  [setup()] runs up to
    [await initialize()]; what it does once the models have loaded is
    not followed. *)
Definition setup_effect (d : N) : M state unit :=
  initialize_begin ;;
  modify (with_setupDeps (fun _ => Some d)).

(** The function that effect returns: [cancelled = true], [stopCamera()]
    and [cameraStore.reset()]. *)
Definition setup_cleanup : M state unit :=
  stopCamera ;;
  cameraStore_set.

Definition connect_due (s : state) : bool :=
  match connectDeps s with
  | Some d => deps_changed d s
  | None => false
  end.

Definition setup_due (s : state) : bool :=
  match setupDeps s with
  | Some d => negb (d =? cameraStore s)%N
  | None => false
  end.

(** React takes the page down: the cleanups that are registered run. *)
Definition unmount : M state unit :=
  s <- read ;;
  modify (with_life (fun _ => Unmounted)) ;;
  match connectDeps s with
  | Some _ =>
      modify (with_connectDeps (fun _ => None)) ;;
      _ <- guarded connect_cleanup ;;
      ret tt
  | None => ret tt
  end ;;
  match setupDeps s with
  | Some _ =>
      modify (with_setupDeps (fun _ => None)) ;;
      _ <- guarded setup_cleanup ;;
      ret tt
  | None => ret tt
  end.

(** React mounts the page and runs its effects in the order in which the
    page declares them.  An exception that leaves an effect takes the
    page down. *)
Definition mount : M state unit :=
  s <- read ;;
  match life s with
  | NotMounted =>
      modify (with_life (fun _ => Mounted)) ;;
      thrown <- guarded (connect_effect (rendered s)) ;;
      thrown' <- guarded (setup_effect (cameraStore s)) ;;
      if thrown || thrown' then unmount else ret tt
  | Mounted | Unmounted => ret tt
  end.

(** A render of the page, and the renders that follow from it: the
    cleanups of the effects that are due run, then these effects.  The
    setup effect writes the camera store on which it depends
    ([initialize]), and so does its cleanup; the cleanup of the connect
    effect writes the voice store ([stopSpeech]).  React ends this after
    [fuel] rounds with 'Maximum update depth exceeded', and at once
    when a cleanup or an effect throws; in both cases it takes the page
    down. *)
Fixpoint render (fuel : nat) : M state unit :=
  s <- read ;;
  if connect_due s || setup_due s then
    match fuel with
    | O => emit (console_error "Maximum update depth exceeded") ;; unmount
    | Datatypes.S fuel =>
        thrown1 <-
          (if connect_due s then
             modify (with_connectDeps (fun _ => None)) ;;
             guarded connect_cleanup
           else ret false) ;;
        thrown2 <-
          (if setup_due s then
             modify (with_setupDeps (fun _ => None)) ;;
             guarded setup_cleanup
           else ret false) ;;
        thrown3 <-
          (if connect_due s then guarded (connect_effect (rendered s))
           else ret false) ;;
        thrown4 <-
          (if setup_due s then guarded (setup_effect (cameraStore s))
           else ret false) ;;
        if thrown1 || thrown2 || thrown3 || thrown4 then unmount
        else render fuel
    end
  else ret tt.

Definition run_timer (id : nat) : M state unit :=
  s <- read ;;
  match pending_timer id s with
  | Some cb =>
      modify (with_net (fun b =>
        set_timers (List.filter (fun t => negb (Nat.eqb (fst t) id)) (timers b)) b)) ;;
      match cb with
      | cb_connectWs => connectWs
      | cb_thinkingSlow => ret tt
      | cb_fillerFlashOff => setFillerFlash false
      end
  | None => ret tt
  end.

Fixpoint resume (awaiting : list nat) : M state unit :=
  match awaiting with
  | [] => ret tt
  | i :: rest =>
      s <- read ;;
      match AudioRecorder.promise_of i (media s) with
      | AudioRecorder.Resolved _ =>
          modify (with_susp (fun u =>
            set_awaitingStop (List.filter (fun j => negb (Nat.eqb j i)) (awaitingStop u)) u)) ;;
          uncaught after_stopRecording
      | AudioRecorder.Pending => ret tt
      end ;;
      resume rest
  end.

Section Events.
Context {rt : Runtime}.

(** [ws.onmessage] *)
Definition onmessage : frame_data -> M state unit :=
  Session.onmessage (ret tt) (setIsThinking false).

(** What React does after a render.  A page that is not mounted is not
    rendered. *)
Definition commit : M state unit :=
  s <- read ;;
  if is_mounted s then
    sync_transcriptRef ;;
    render update_limit
  else ret tt.

(** The page has a hold button only: no mode buttons, no record toggle,
    no Retry button, no silence watchdog. *)
Definition handle (e : event) : M state unit :=
  match e with
  | Mount => mount
  | Unmount =>
      s <- read ;;
      when (is_mounted s) unmount
  | WsOpen ws => set_readyState ws (fun _ => OPEN) ;; onopen
  | WsMessage ws data => onmessage data
  | WsError ws => onerror
  | WsClose ws code => set_readyState ws (fun _ => CLOSED) ;; onclose code
  | Timer id => run_timer id
  | PointerDown =>
      s <- read ;;
      when (is_mounted s) handleHoldStart
  | PointerUp =>
      s <- read ;;
      when (is_mounted s) handleHoldEnd
  | SelectMode _ | ClickToggle | ClickRetry | Silence => ret tt
  | UserMedia p =>
      s <- read ;;
      match awaitingStart (susp s) with
      | O => ret tt
      | Datatypes.S n =>
          modify (with_susp (set_awaitingStart n)) ;;
          _ <- recorder (AudioRecorder.startRecording_resume p) ;;
          after_startRecording
      end
  | Recorder e => recorder (AudioRecorder.step e)
  | SpeechStart => recognition_onstart
  | SpeechResult finalTranscript interim => recognition_onresult finalTranscript interim
  | SpeechEnd => recognition_onend
  | UtteranceStart => utterance_onstart
  | UtteranceEnd => utterance_onend
  end.

Definition dispatch (e : event) : M state unit :=
  uncaught (handle e) ;;
  uncaught commit ;;
  s <- read ;;
  resume (awaitingStop (susp s)) ;;
  uncaught commit.

Definition run : list event -> M state unit := run_with dispatch.

End Events.

End CameraSession.

(* ===================================================================== *)
(** * A JSON reader, to run the handlers on concrete frames *)
(* ===================================================================== *)

(** The properties below are stated for every [Runtime].  To evaluate the
    handlers on concrete text frames, this module reads the
    JSON grammar of ECMA-404 the way [JSON.parse] does: a later duplicate
    key replaces an earlier one, and anything but white space after the
    value is an error. *)
Module Json.
Import Js.

Definition is_ws (c : N) : bool :=
  ((c =? 0x20) || (c =? 0x09) || (c =? 0x0A) || (c =? 0x0D))%N.

Fixpoint skip_ws (s : jsstring) : jsstring :=
  match s with
  | c :: r => if is_ws c then skip_ws r else s
  | [] => []
  end.

Definition digit (c : N) : option N :=
  if ((0x30 <=? c) && (c <=? 0x39))%N then Some (c - 0x30)%N else None.

Definition hex (c : N) : option N :=
  if ((0x30 <=? c) && (c <=? 0x39))%N then Some (c - 0x30)%N
  else if ((0x41 <=? c) && (c <=? 0x46))%N then Some (c - 0x41 + 10)%N
  else if ((0x61 <=? c) && (c <=? 0x66))%N then Some (c - 0x61 + 10)%N
  else None.

Definition escape (c : N) : option N :=
  if (c =? 0x22)%N then Some 0x22%N        (* quotation mark *)
  else if (c =? 0x5C)%N then Some 0x5C%N   (* reverse solidus *)
  else if (c =? 0x2F)%N then Some 0x2F%N   (* solidus *)
  else if (c =? 0x62)%N then Some 0x08%N   (* backspace *)
  else if (c =? 0x66)%N then Some 0x0C%N   (* form feed *)
  else if (c =? 0x6E)%N then Some 0x0A%N   (* line feed *)
  else if (c =? 0x72)%N then Some 0x0D%N   (* carriage return *)
  else if (c =? 0x74)%N then Some 0x09%N   (* tab *)
  else None.

(** The characters of a string, after its opening quote. *)
Fixpoint chars (s acc : jsstring) : option (jsstring * jsstring) :=
  match s with
  | [] => None
  | c :: r =>
      if (c =? 0x22)%N then Some (rev acc, r)
      else if (c =? 0x5C)%N then
        match r with
        | e :: r1 =>
            if (e =? 0x75)%N then
              match r1 with
              | a :: b :: c :: d :: r2 =>
                  match hex a, hex b, hex c, hex d with
                  | Some a, Some b, Some c, Some d =>
                      chars r2 ((((a * 16 + b) * 16 + c) * 16 + d)%N :: acc)
                  | _, _, _, _ => None
                  end
              | _ => None
              end
            else
              match escape e with
              | Some x => chars r1 (x :: acc)
              | None => None
              end
        | [] => None
        end
      else if (c <? 0x20)%N then None
      else chars r (c :: acc)
  end.

(** A run of digits: their value, how many there are, and the rest. *)
Fixpoint digits (s : jsstring) (acc : N) (n : nat) : N * nat * jsstring :=
  match s with
  | c :: r =>
      match digit c with
      | Some d => digits r (acc * 10 + d)%N (Datatypes.S n)
      | None => (acc, n, s)
      end
  | [] => (acc, n, s)
  end.

Definition scale (m : Z) (e : Z) : Q :=
  if (0 <=? e)%Z then inject_Z (m * 10 ^ e)
  else Qred (Qmake m (Z.to_pos (10 ^ (- e)))).

(** A number, after an optional minus sign. *)
Definition unsigned_number (s : jsstring) : option (Z * Z * jsstring) :=
  match s with
  | c :: r =>
      match digit c with
      | None => None
      | Some d =>
          let '(int, _, r1) :=
            if (d =? 0)%N then (0%N, 1%nat, r) else digits r d 1%nat in
          let frac :=
            match r1 with
            | dot :: r2 =>
                if (dot =? 0x2E)%N then
                  let '(f, n, r3) := digits r2 0%N 0%nat in
                  match n with
                  | O => None
                  | _ => Some (Some (f, n, r3))
                  end
                else Some None
            | [] => Some None
            end in
          match frac with
          | None => None
          | Some fr =>
              let '(m, k, r4) :=
                match fr with
                | Some (f, n, r3) =>
                    ((Z.of_N int * 10 ^ Z.of_nat n + Z.of_N f)%Z, Z.of_nat n, r3)
                | None => (Z.of_N int, 0%Z, r1)
                end in
              match r4 with
              | e :: r5 =>
                  if ((e =? 0x65) || (e =? 0x45))%N then
                    let '(neg, r6) :=
                      match r5 with
                      | sg :: r6 =>
                          if (sg =? 0x2D)%N then (true, r6)
                          else if (sg =? 0x2B)%N then (false, r6)
                          else (false, r5)
                      | [] => (false, r5)
                      end in
                    let '(x, n, r7) := digits r6 0%N 0%nat in
                    match n with
                    | O => None
                    | _ => Some (m, ((if neg then - Z.of_N x else Z.of_N x) - k)%Z, r7)
                    end
                  else Some (m, (- k)%Z, r4)
              | [] => Some (m, (- k)%Z, r4)
              end
          end
      end
  | [] => None
  end.

(** A JSON number: the double nearest to the number the text denotes,
    an infinity when that lies beyond the largest double. *)
Definition number_ (s : jsstring) : option (value * jsstring) :=
  match s with
  | c :: r =>
      if (c =? 0x2D)%N then
        match unsigned_number r with
        | Some (m, e, rest) =>
            Some (VNumber (of_double (Double.of_Q (scale (- m) e))), rest)
        | None => None
        end
      else
        match unsigned_number s with
        | Some (m, e, rest) =>
            Some (VNumber (of_double (Double.of_Q (scale m e))), rest)
        | None => None
        end
  | [] => None
  end.

Fixpoint strip (word s : jsstring) : option jsstring :=
  match word, s with
  | [], _ => Some s
  | w :: word', c :: r => if (w =? c)%N then strip word' r else None
  | _ :: _, [] => None
  end.

(** A later duplicate key replaces the earlier property. *)
Fixpoint put (k : jsstring) (v : value) (props : list (jsstring * value))
  : list (jsstring * value) :=
  match props with
  | [] => [(k, v)]
  | (k', v') :: r => if jsstring_eqb k k' then (k, v) :: r else (k', v') :: put k v r
  end.

Fixpoint value_ (fuel : nat) (s : jsstring) : option (value * jsstring) :=
  match fuel with
  | O => None
  | Datatypes.S fuel =>
      match skip_ws s with
      | [] => None
      | c :: r =>
          if (c =? 0x7B)%N then
            match skip_ws r with
            | c' :: r' => if (c' =? 0x7D)%N then Some (VObject [], r') else members_ fuel r []
            | [] => None
            end
          else if (c =? 0x5B)%N then
            match skip_ws r with
            | c' :: r' => if (c' =? 0x5D)%N then Some (VArray [], r') else elements_ fuel r []
            | [] => None
            end
          else if (c =? 0x22)%N then
            match chars r [] with
            | Some (str, rest) => Some (VString str, rest)
            | None => None
            end
          else
            match strip (lit "true") (c :: r), strip (lit "false") (c :: r),
                  strip (lit "null") (c :: r) with
            | Some rest, _, _ => Some (VBool true, rest)
            | _, Some rest, _ => Some (VBool false, rest)
            | _, _, Some rest => Some (VNull, rest)
            | None, None, None => number_ (c :: r)
            end
      end
  end
with elements_ (fuel : nat) (s : jsstring) (acc : list value) : option (value * jsstring) :=
  match fuel with
  | O => None
  | Datatypes.S fuel =>
      match value_ fuel s with
      | Some (v, rest) =>
          match skip_ws rest with
          | c :: r =>
              if (c =? 0x2C)%N then elements_ fuel r (v :: acc)
              else if (c =? 0x5D)%N then Some (VArray (rev (v :: acc)), r)
              else None
          | [] => None
          end
      | None => None
      end
  end
with members_ (fuel : nat) (s : jsstring) (acc : list (jsstring * value))
  : option (value * jsstring) :=
  match fuel with
  | O => None
  | Datatypes.S fuel =>
      match skip_ws s with
      | q :: r =>
          if (q =? 0x22)%N then
            match chars r [] with
            | Some (k, rest) =>
                match skip_ws rest with
                | colon :: r2 =>
                    if (colon =? 0x3A)%N then
                      match value_ fuel r2 with
                      | Some (v, rest2) =>
                          match skip_ws rest2 with
                          | c :: r3 =>
                              if (c =? 0x2C)%N then members_ fuel r3 (put k v acc)
                              else if (c =? 0x7D)%N then Some (VObject (put k v acc), r3)
                              else None
                          | [] => None
                          end
                      | None => None
                      end
                    else None
                | [] => None
                end
            | None => None
            end
          else None
      | [] => None
      end
  end.

(** [JSON.parse(s)]; [None] is a SyntaxError. *)
Definition parse (s : jsstring) : option value :=
  match value_ (Datatypes.S (List.length s)) s with
  | Some (v, rest) =>
      match skip_ws rest with
      | [] => Some v
      | _ => None
      end
  | None => None
  end.

(** [a + b] where both are numbers; the frames run below add nothing else. *)
Definition add (a b : value) : value :=
  match a, b with
  | VNumber (Finite x), VNumber (Finite y) => VNumber (Finite (Qred (x + y)))
  | VNumber (Infinity s), VNumber (Finite _)
  | VNumber (Finite _), VNumber (Infinity s) => VNumber (Infinity s)
  | VNumber (Infinity s), VNumber (Infinity s') =>
      VNumber (if Bool.eqb s s' then Infinity s else NaN)
  | _, _ => VNumber NaN
  end.

(** React 18 lets the effects of a page bring about 53 renders in a row:
    it counts the renders from the second on and stops when an update is
    scheduled with more than 50 counted. *)
Definition runtime : Runtime :=
  {| JSON_parse := parse; plus := add; update_limit := 53 |}.

End Json.

(* ===================================================================== *)
(** * Concrete sessions *)
(* ===================================================================== *)

Module Scenario.
Import Session.

(** A page for session [abc123], before it mounts. *)
Definition fresh : state := initial (Some (Js.lit "abc123")).

(** JSON text, written with the quotation mark as code unit 34. *)
Definition quoted (s : string) : Js.jsstring := [34%N] ++ Js.lit s ++ [34%N].

Definition property (key : string) (json : Js.jsstring) : Js.jsstring :=
  quoted key ++ Js.lit ":" ++ json.

Fixpoint commas (items : list Js.jsstring) : Js.jsstring :=
  match items with
  | [] => []
  | [x] => x
  | x :: rest => x ++ Js.lit "," ++ commas rest
  end.

Definition object (properties : list Js.jsstring) : Js.jsstring :=
  Js.lit "{" ++ commas properties ++ Js.lit "}".


(** The frame [{type: 'welcome', scenario: {title: 'Interview'}}] *)
Definition bare_welcome_frame : frame_data :=
  text (object [property "type" (quoted "welcome");
                property "scenario" (object [property "title" (quoted "Interview")])]).

(** A frame cut off before its closing brace. *)
Definition broken_frame : frame_data :=
  text (Js.lit "{" ++ property "type" (quoted "welcome")).

(** A browser that grants the microphone and records. *)
Definition granted : AudioRecorder.platform :=
  {| AudioRecorder.getUserMedia := Some {| AudioRecorder.tracks_live := true |};
     AudioRecorder.newAudioContext := true;
     AudioRecorder.createMediaStreamSource := true;
     AudioRecorder.createAnalyser := true;
     AudioRecorder.connectSource := true;
     AudioRecorder.byteFrequencyData := repeat 0%N 128;
     AudioRecorder.opusSupported := true;
     AudioRecorder.newMediaRecorder := true;
     AudioRecorder.startMediaRecorder := true |}.

(** A browser in which the user refuses the microphone. *)
Definition refused : AudioRecorder.platform :=
  {| AudioRecorder.getUserMedia := None;
     AudioRecorder.newAudioContext := true;
     AudioRecorder.createMediaStreamSource := true;
     AudioRecorder.createAnalyser := true;
     AudioRecorder.connectSource := true;
     AudioRecorder.byteFrequencyData := [];
     AudioRecorder.opusSupported := true;
     AudioRecorder.newMediaRecorder := true;
     AudioRecorder.startMediaRecorder := true |}.

(** The recorder hook while it records: a granted start on a fresh hook. *)
Definition recording : AudioRecorder.world :=
  final (AudioRecorder.startRecording granted AudioRecorder.initial).

(** The socket closes abnormally six times, with no open in between. *)
Definition six_closes : list event :=
  [Mount; WsClose 0 1006; Timer 1; WsClose 1 1006; Timer 2; WsClose 2 1006;
   Timer 3; WsClose 3 1006; Timer 4; WsClose 4 1006; Timer 5; WsClose 5 1006].


(** The voice page after [six_closes]. *)
Definition failed_voice : state :=
  final (VoiceSession.run (rt := Json.runtime) six_closes fresh).



(** The voice page at the moment its first socket has opened, the
    recognizer having heard white space only: the handlers of these
    events one after the other, and the effect that copies the
    transcript. *)
Definition connected_voice : state :=
  final ((VoiceSession.mount ;;
          set_readyState 0 (fun _ => OPEN) ;;
          onopen ;;
          recognition_onresult (Js.lit "  ") [] ;;
          sync_transcriptRef) fresh).

(** A page of the demo, which has no session, before it mounts. *)
Definition demo : state := initial None.

(** A held turn: the hold mode is chosen, the button is pressed, the
    microphone is granted, the speech [hello] is recognized, the button
    is released, the recorder delivers its data and stops. *)
Definition held_turn : list event :=
  [Mount; SelectMode "hold"; PointerDown; UserMedia granted; SpeechStart;
   SpeechResult (Js.lit "hello") []; PointerUp;
   Recorder (AudioRecorder.DataAvailable [1; 2; 3]%N);
   Recorder AudioRecorder.StopEvent].

(** The voice page of the demo during [held_turn]: once the button is
    released and the handler waits for the recorder. *)
Definition released_demo : state :=
  final (VoiceSession.run (rt := Json.runtime) (firstn 8 held_turn) demo).

(** The voice page once it has mounted: its first socket is connecting. *)
Definition mounted_voice : state :=
  final (VoiceSession.run (rt := Json.runtime) [Mount] fresh).




End Scenario.

(* ===================================================================== *)
(** * Invariants of a mounted page *)
(* ===================================================================== *)

Module Invariants.
Import Session.

(** The statuses the pages set: the initial ['idle'], and ['connected'],
    ['reconnecting'], ['failed']. *)
Definition known_status (status : string) : bool :=
  String.eqb status "idle" || String.eqb status "connected"
  || String.eqb status "reconnecting" || String.eqb status "failed".

(** The retry counter is within its maximum and the status is a known one. *)
Definition connection_ok (s : state) : bool :=
  (reconnectCountRef (refs s) <=? WS_MAX_RETRIES)%N && known_status (wsStatus (ui s)).

(** A socket that is connecting or open. *)
Definition is_live (st : readyState) : bool :=
  match st with
  | CONNECTING | OPEN => true
  | CLOSING | CLOSED => false
  end.

(** Socket [ws] is the one [wsRef] holds. *)
Definition is_current (cur : option nat) (ws : nat) : bool :=
  match cur with
  | Some c => Nat.eqb c ws
  | None => false
  end.

(** The sockets numbered from [ws] on, other than the current one, are
    closing or closed. *)
Fixpoint others_closed_from (cur : option nat) (ws : nat) (socks : list readyState)
  : bool :=
  match socks with
  | [] => true
  | st :: rest =>
      (negb (is_live st) || is_current cur ws)
      && others_closed_from cur (Datatypes.S ws) rest
  end.

(** At most one socket is live, the current one: every other socket is
    closing or closed. *)
Definition one_live_socket (s : state) : bool :=
  others_closed_from (wsRef (refs s)) 0 (sockets (net s)).

(** What the browser can deliver: an [open] event only for a socket that
    is connecting. *)
Definition deliverable (s : state) (e : event) : bool :=
  match e with
  | WsOpen ws =>
      match sockets (net s) !! ws with
      | Some CONNECTING => true
      | _ => false
      end
  | _ => true
  end.

(** Every event of the run is deliverable in the state it reaches. *)
Fixpoint deliverable_run (dispatch : event -> M state unit) (es : list event) (s : state)
  : bool :=
  match es with
  | [] => true
  | e :: rest =>
      deliverable s e && deliverable_run dispatch rest (final (dispatch e s))
  end.

(** A handler under which a property of the state, once true, stays true. *)
Definition preserves {A} (I : state -> Prop) (m : M state A) : Prop :=
  forall s, I s -> I (final (m s)).


(** No socket is open. *)
Definition no_socket_open (s : state) : bool :=
  forallb (fun st => match st with OPEN => false | _ => true end) (sockets (net s)).

(** Run from [s] with no socket open, the handler opens none and sends
    nothing. *)
Definition unsent_from {A} (s : state) (m : M state A) : Prop :=
  no_socket_open s = true ->
  no_socket_open (final (m s)) = true /\ sent (calls (m s)) = [].

Definition unsent {A} (m : M state A) : Prop := forall s, unsent_from s m.

(** The browser has no speech synthesis, no [startRecording] is waiting
    for the microphone, and the recorder is not recording. *)
Definition cannot_record (s : state) : bool :=
  negb (speechSynthesis (synth s))
  && Nat.eqb (awaitingStart (susp s)) 0
  && negb (AudioRecorder.recorder_active (media s)).

(** The demo: the page has no session, and no socket was made. *)
Definition offline_demo (s : state) : bool :=
  match currentSession s, sockets (net s) with
  | None, [] => true
  | _, _ => false
  end.

(** The user starts a turn: presses the hold button in hold mode, or
    clicks the record toggle in the other mode while not recording. *)
Definition starts_turn (e : event) (s : state) : bool :=
  match e with
  | PointerDown =>
      String.eqb (voiceInputMode (ui s)) "hold" && negb (isHolding (ui s))
  | ClickToggle =>
      negb (String.eqb (voiceInputMode (ui s)) "hold") && negb (isRecording (ui s))
  | _ => false
  end.

(** No socket is connecting or open. *)
Definition no_live_socket (s : state) : bool :=
  forallb (fun st => negb (is_live st)) (sockets (net s)).

(** The socket that [wsRef] holds, if there is one, is closing or closed. *)
Definition current_closed (s : state) : bool :=
  match wsRef (refs s) with
  | Some ws =>
      match sockets (net s) !! ws with
      | Some st => negb (is_live st)
      | None => true
      end
  | None => true
  end.

(** The page is unmounted, its played-flag is reset and the socket of
    [wsRef] is closing or closed. *)
Definition taken_down (s : state) : Prop :=
  life s = Unmounted /\ welcomePlayedRef (refs s) = false /\ current_closed s = true.





End Invariants.

(** * The recorder hook in use *)

Module RecorderUse.
Import AudioRecorder.

(** [hooks/use-audio-recorder.js]: the cleanup of the hook's effect, run
    when the component unmounts. *)
Definition unmount_cleanup : M world unit :=
  w <- read ;;
  match animationFrameRef (hook w) with
  | Some id => emit (cancel_animation_frame id)
  | None => ret tt
  end ;;
  match streamRef (hook w) with
  | Some _ => modify (with_hook (set_streamRef (Some {| tracks_live := false |})))
  | None => ret tt
  end ;;
  match audioContextRef (hook w) with
  | Some _ => modify (with_hook (set_audioContextRef (Some {| closed := true |})))
  | None => ret tt
  end.

(** What can happen to the hook: the component calls [startRecording] or
    [stopRecording], the browser delivers an event of the recorder or of
    the clock, an animation frame runs [analyzeLoop], the component
    unmounts.  A frame is allowed whether or not the request was
    cancelled. *)
Inductive action :=
| Start (p : platform)
| Stop
| Happen (e : event)
| Frame (p : platform)
| Unmount.

Definition perform (a : action) : M world unit :=
  match a with
  | Start p => _ <- startRecording p ;; ret tt
  | Stop => _ <- stopRecording ;; ret tt
  | Happen e => step e
  | Frame p => analyzeLoop p
  | Unmount => unmount_cleanup
  end.

(** The hook after a series of actions. *)
Definition after (acts : list action) (w : world) : world :=
  fold_left (fun w a => final (perform a w)) acts w.

(** The analyser hands [analyzeLoop] at least one frequency bin. *)
Definition has_bins (p : platform) : bool :=
  match byteFrequencyData p with [] => false | _ => true end.

Definition well_fed (a : action) : bool :=
  match a with
  | Start p | Frame p => has_bins p
  | _ => true
  end.

(** A level between 0 and 1. *)
Definition level_in_range (x : Js.number) : bool :=
  match x with
  | Js.Finite q => Qle_bool 0 q && Qle_bool q 1
  | Js.NaN | Js.Infinity _ => false
  end.

(** Neither a start nor the unmount. *)
Definition keeps_stream (a : action) : bool :=
  match a with
  | Start _ | Unmount => false
  | _ => true
  end.

(** No buffered chunk is empty, and no promise was resolved with an empty
    clip. *)
Definition no_empty_clip (w : world) : Prop :=
  Forall (fun chunk : blob => chunk <> []) (audioChunksRef (hook w))
  /\ Forall (fun c => forall b, settled c = Resolved (Some b) -> b <> []) (stops w).

(** Neither a start, a stop nor the unmount: what happens while a turn
    is being recorded. *)
Definition while_recording (a : action) : bool :=
  match a with
  | Happen _ | Frame _ => true
  | _ => false
  end.

Definition is_start (a : action) : bool :=
  match a with Start _ => true | _ => false end.

(** The chunks the recorder delivered that are not empty, in order. *)
Definition delivered (acts : list action) : list blob :=
  flat_map (fun a => match a with
                     | Happen (DataAvailable (c :: data)) => [c :: data]
                     | _ => []
                     end) acts.

End RecorderUse.

(** * Ending a session *)

Module Leaving.
Import Session.

(** [lib/api.js]: [endSession(sessionId)]; [failure] is what the request
    throws, a timeout, a network error or a response that is not ok, and
    [None] when the response is ok. *)
Definition endSession (failure : option string) (sessionId : Js.jsstring) : M state unit :=
  validateString_required sessionId "session_id" ;;
  match failure with
  | None => ret tt
  | Some e => throw e
  end.

(** [handleEnd] from [if (isDemo)] on, the same text in both pages;
    [isDemo] is [!currentSession]. *)
Definition leave (failure : option string) : M state unit :=
  s <- read ;;
  match currentSession s with
  | None => emit (navigate (Js.lit "/"))
  | Some session_id =>
      try_catch
        (match wsRef (refs s) with
         | Some ws =>
             if socket_open s then emit (ws_send ws end_session) else ret tt
         | None => ret tt
         end ;;
         endSession failure session_id ;;
         emit (navigate (Js.lit "/feedback/" ++ session_id)))
        (fun _ => emit (navigate (Js.lit "/feedback/" ++ session_id)))
  end.

(** [pages/CameraSession.jsx]: [handleEnd] *)
Definition camera_handleEnd (failure : option string) : M state unit :=
  leave failure.

(** [pages/VoiceSession.jsx]: [handleEnd]; [confirmed] is the answer to
    [window.confirm], asked while a turn is being recorded. *)
Definition voice_handleEnd (confirmed : bool) (failure : option string) : M state unit :=
  s <- read ;;
  if isHolding (ui s) || isRecording (ui s) then
    if negb confirmed then ret tt else leave failure
  else leave failure.

(** The paths navigated to, in order. *)
Definition navigations (log : list effect) : list Js.jsstring :=
  flat_map (fun e => match e with navigate path => [path] | _ => [] end) log.

(** Where the page goes when the session is ended. *)
Definition destination (s : state) : Js.jsstring :=
  match currentSession s with
  | None => Js.lit "/"
  | Some session_id => Js.lit "/feedback/" ++ session_id
  end.

(** The user is asked and answers no. *)
Definition declined (confirmed : bool) (s : state) : bool :=
  (isHolding (ui s) || isRecording (ui s)) && negb confirmed.

End Leaving.

(* ===================================================================== *)
(** * lib/api.js: validation *)
(* ===================================================================== *)

From Stdlib Require DecimalString DecimalN.

Module Api.

(** [String(n)] for a natural number: its decimal digits. *)
Definition decimal (n : N) : string :=
  DecimalString.NilEmpty.string_of_uint (N.to_uint n).

(** [typeof value === 'string'] *)
Definition is_String (value : Js.value) : bool :=
  match value with Js.VString _ => true | _ => false end.

(** [value === undefined || value === null || value === ''] *)
Definition is_missing (value : Js.value) : bool :=
  match value with
  | Js.VUndefined | Js.VNull | Js.VString [] => true
  | _ => false
  end.

(** [validateString(value, fieldName, required, maxLength)]; [maxLength]
    is [null] or a natural number.  A value that reaches the third test
    is [undefined], [null] or a string. *)
Definition validateString {S} (value : Js.value) (fieldName : string) (required : bool)
    (maxLength : option N) : M S unit :=
  (if required && is_missing value
   then throw (String.append fieldName " is required") else ret tt) ;;
  (if negb (Js.nullish value) && negb (is_String value)
   then throw (String.append fieldName " must be a string") else ret tt) ;;
  match maxLength, value with
  | Some max, Js.VString s =>
      if negb (max =? 0)%N && Js.truthy value && (max <? N.of_nat (List.length s))%N
      then throw (String.append fieldName
                    (String.append " must be at most "
                       (String.append (decimal max) " characters")))
      else ret tt
  | _, _ => ret tt
  end.

(** What [validateString] lets through. *)
Definition acceptable (value : Js.value) (required : bool) (maxLength : option N) : bool :=
  match value with
  | Js.VUndefined | Js.VNull => negb required
  | Js.VString s =>
      negb (required && match s with [] => true | _ => false end)
      && match maxLength with
         | Some max => (max =? 0)%N || (N.of_nat (List.length s) <=? max)%N
         | None => true
         end
  | _ => false
  end.

End Api.

(* ===================================================================== *)
(** * The session clock of both pages *)
(* ===================================================================== *)

Module Display.

(** [s.padStart(targetLength, pad)] for a pad of one character. *)
Definition padStart (targetLength : nat) (pad : ascii) (s : string) : string :=
  String.append
    (string_of_list_ascii (repeat pad (targetLength - String.length s)))
    s.

(** [Number.MAX_SAFE_INTEGER] *)
Definition MAX_SAFE_INTEGER : N := 2 ^ 53 - 1.

(** [formatTime(s)] for [s] a whole number of seconds up to
    [MAX_SAFE_INTEGER], as the clock of a page counts them:
    [Math.floor(s / 60)], a colon, and [s % 60] padded to two digits.
    In this range the numbers of the code are these whole numbers: [s] is
    a double; the double quotient [s / 60] is below 2^48 and so within
    2^-6 of the exact one, which lies at least 1/60 below the next whole
    number, so that [Math.floor] gives the whole quotient; [s % 60] is
    exact; and both are printed with all their digits.  Beyond this range
    the code differs (from 1e21 minutes on it prints an exponent), and
    this definition does not follow it. *)
Definition formatTime (s : N) : string :=
  let m := (s / 60)%N in
  let sec := (s mod 60)%N in
  String.append (Api.decimal m) (String.append ":" (padStart 2 "0" (Api.decimal sec))).

(** The number a string of decimal digits denotes; [None] for a string
    with any other character. *)
Definition read_decimal (t : string) : option N :=
  option_map N.of_uint (DecimalString.NilEmpty.uint_of_string t).

(** The text before the first colon, and the text after it. *)
Fixpoint split_at_colon (t : string) : option (string * string) :=
  match t with
  | EmptyString => None
  | String c rest =>
      if Ascii.eqb c ":" then Some (EmptyString, rest)
      else match split_at_colon rest with
           | Some (before, behind) => Some (String c before, behind)
           | None => None
           end
  end.

(** Reading a displayed time back into seconds. *)
Definition parseTime (t : string) : option N :=
  match split_at_colon t with
  | Some (minutes, seconds) =>
      match read_decimal minutes, read_decimal seconds with
      | Some m, Some sec => Some (60 * m + sec)%N
      | _, _ => None
      end
  | None => None
  end.

End Display.

(* ===================================================================== *)
(** * hooks/use-silence-detection.js *)
(* ===================================================================== *)

Module SilenceDetection.

(** What one run of [loop] sees: the frequency bins the analyser gives,
    and the time in milliseconds at which [performance.now()] is read,
    which each path does at most once. *)
Record frame := {
  bins : list N;
  at_ms : Q;
}.

(** [performance.now()]: the time as a double. *)
Definition now (f : frame) : Double.t := Double.of_Q (at_ms f).

(** The refs of the hook: whether an analyser is attached stands for
    [analyserRef], and [requests] counts the animation-frame requests
    handed out. *)
Record t := {
  rafRef : option nat;
  silenceStartRef : option Double.t;
  firedRef : bool;
  analyserRef : bool;
  requests : nat;
}.

Definition initial : t :=
  {| rafRef := None; silenceStartRef := None; firedRef := false;
     analyserRef := false; requests := 0%nat |}.

Definition set_rafRef (v : option nat) (d : t) : t :=
  {| rafRef := v; silenceStartRef := silenceStartRef d; firedRef := firedRef d;
     analyserRef := analyserRef d; requests := requests d |}.
Definition set_silenceStartRef (v : option Double.t) (d : t) : t :=
  {| rafRef := rafRef d; silenceStartRef := v; firedRef := firedRef d;
     analyserRef := analyserRef d; requests := requests d |}.
Definition set_firedRef (v : bool) (d : t) : t :=
  {| rafRef := rafRef d; silenceStartRef := silenceStartRef d; firedRef := v;
     analyserRef := analyserRef d; requests := requests d |}.
Definition set_analyserRef (v : bool) (d : t) : t :=
  {| rafRef := rafRef d; silenceStartRef := silenceStartRef d; firedRef := firedRef d;
     analyserRef := v; requests := requests d |}.
Definition set_requests (v : nat) (d : t) : t :=
  {| rafRef := rafRef d; silenceStartRef := silenceStartRef d; firedRef := firedRef d;
     analyserRef := analyserRef d; requests := v |}.

(** [dataArray.reduce((a, b) => a + b, 0)] *)
Definition sum (data : list N) : Double.t :=
  fold_left (fun a b => Double.add a (Double.of_N b)) data (Double.Finite 0).

(** [avg / 128] of the bins, with [avg] their sum over their number. *)
Definition level (data : list N) : Double.t :=
  let avg := Double.div (sum data) (Double.of_nat (List.length data)) in
  Double.div avg (Double.of_N 128).

(** [level < threshold] *)
Definition quiet (threshold : Q) (f : frame) : bool :=
  Double.lt (level (bins f)) (Double.of_Q threshold).

(** [performance.now() - silenceStartRef.current >= durationMs] *)
Definition due (durationMs : Q) (start : Double.t) (f : frame) : bool :=
  Double.ge (Double.sub (now f) start) (Double.of_Q durationMs).

Definition requestAnimationFrame : M t nat :=
  d <- read ;;
  let id := Datatypes.S (requests d) in
  modify (set_requests id) ;;
  emit (request_animation_frame id) ;;
  ret id.

(** [stop], which the hook returns as [detach] *)
Definition stop : M t unit :=
  d <- read ;;
  match rafRef d with
  | Some id => emit (cancel_animation_frame id) ;; modify (set_rafRef None)
  | None => ret tt
  end ;;
  modify (set_silenceStartRef None) ;;
  modify (set_firedRef false) ;;
  modify (set_analyserRef false).

(** One run of [loop]; the value tells whether [onSilenceRef.current] was
    called.  [threshold] and [durationMs] are the options of the hook, as
    the doubles their values are. *)
Definition loop (threshold durationMs : Q) (f : frame) : M t bool :=
  id <- requestAnimationFrame ;;
  modify (set_rafRef (Some id)) ;;
  d <- read ;;
  if negb (analyserRef d) then ret false
  else if quiet threshold f then
    match silenceStartRef d with
    | None => modify (set_silenceStartRef (Some (now f))) ;; ret false
    | Some start =>
        if negb (firedRef d) && due durationMs start f then
          modify (set_firedRef true) ;;
          ret true
        else ret false
    end
  else
    modify (set_silenceStartRef None) ;;
    modify (set_firedRef false) ;;
    ret false.

(** [attachAnalyser(analyser)] *)
Definition attachAnalyser : M t unit :=
  stop ;;
  modify (set_analyserRef true) ;;
  modify (set_firedRef false) ;;
  modify (set_silenceStartRef None) ;;
  id <- requestAnimationFrame ;;
  modify (set_rafRef (Some id)).

(** Whether a run of [loop] called the callback. *)
Definition called (r : ran t bool) : bool :=
  match out r with
  | Return b => b
  | Throw _ => false
  end.

(** The frames of a series in turn: for each, whether the callback was
    called. *)
Fixpoint watch (threshold durationMs : Q) (fs : list frame) (d : t) : list bool :=
  match fs with
  | [] => []
  | f :: rest =>
      let r := loop threshold durationMs f d in
      called r :: watch threshold durationMs rest (final r)
  end.

(** The hook after a series of frames. *)
Definition after (threshold durationMs : Q) (fs : list frame) (d : t) : t :=
  fold_left (fun d f => final (loop threshold durationMs f d)) fs d.

(** How often the callback was called. *)
Definition calls_of (rings : list bool) : nat :=
  List.length (List.filter (fun b => b) rings).

(** The hook is watching, and is not in a silent stretch. *)
Definition armed (d : t) : bool :=
  analyserRef d && negb (firedRef d)
  && match silenceStartRef d with None => true | Some _ => false end.

End SilenceDetection.

(* ===================================================================== *)
(** * store/camera-store.js *)
(* ===================================================================== *)

Module CameraStore.

(** The store: the live metrics, the status, and the windows of samples.
    A log entry is [{ label, timestamp }]. *)
Record t := {
  eyeContact : Js.value;
  posture : Js.value;
  gestureCount : Js.value;
  expression : Js.value;
  nervousHabits : N;
  isActive : bool;
  isLoading : bool;
  error : option string;
  eyeContactSamples : list Js.value;
  postureSamples : list Js.value;
  expressionLog : list (Js.value * N);
}.

(** The state the store is created with, and the one [reset] sets. *)
Definition initial : t :=
  {| eyeContact := Js.VNumber (Js.of_Z 0);
     posture := Js.VNumber (Js.of_Z 0);
     gestureCount := Js.VNumber (Js.of_Z 0);
     expression := Js.str "neutral";
     nervousHabits := 0%N;
     isActive := false;
     isLoading := false;
     error := None;
     eyeContactSamples := [];
     postureSamples := [];
     expressionLog := [] |}.

Definition reset (s : t) : t := initial.

(** [arr.slice(-n)] for a positive [n]: the last [n] elements, or all of
    them when there are fewer. *)
Definition slice_end {A} (n : nat) (arr : list A) : list A :=
  skipn (List.length arr - n) arr.

(** [v !== undefined] *)
Definition defined (v : Js.value) : bool :=
  match v with Js.VUndefined => false | _ => true end.

(** [updateMetrics(metrics)]: the argument is destructured, so a metric
    the object does not have is [undefined]; [now] is [Date.now()]. *)
Definition updateMetrics (metrics : Js.value) (now : N) (s : t) : t :=
  let eyeContact' := Js.member metrics "eyeContact" in
  let posture' := Js.member metrics "posture" in
  let gestureCount' := Js.member metrics "gestureCount" in
  let expression' := Js.member metrics "expression" in
  let nervousHabits' := Js.member metrics "nervousHabits" in
  {| eyeContact := if defined eyeContact' then eyeContact' else eyeContact s;
     posture := if defined posture' then posture' else posture s;
     gestureCount := if defined gestureCount' then gestureCount' else gestureCount s;
     expression := if defined expression' then expression' else expression s;
     nervousHabits :=
       if Js.truthy nervousHabits' then (nervousHabits s + 1)%N else nervousHabits s;
     isActive := isActive s;
     isLoading := isLoading s;
     error := error s;
     eyeContactSamples :=
       if defined eyeContact'
       then slice_end 299 (eyeContactSamples s) ++ [eyeContact']
       else eyeContactSamples s;
     postureSamples :=
       if defined posture'
       then slice_end 299 (postureSamples s) ++ [posture']
       else postureSamples s;
     expressionLog :=
       if defined expression'
       then slice_end 99 (expressionLog s) ++ [(expression', now)]
       else expressionLog s |}.

(** The store after a series of updates, each at its time. *)
Definition feed (updates : list (Js.value * N)) (s : t) : t :=
  fold_left (fun s u => updateMetrics (fst u) (snd u) s) updates s.

(** The values a series of updates gave for one metric, in order. *)
Definition given (key : string) (updates : list (Js.value * N)) : list Js.value :=
  List.filter defined (List.map (fun u => Js.member (fst u) key) updates).

(** The labels [detectExpression] of [use-body-language.js] returns, the
    only ones the analysis loop hands to [updateMetrics]. *)
Definition EXPRESSIONS : list Js.jsstring :=
  [Js.lit "smiling"; Js.lit "tense"; Js.lit "confident"; Js.lit "neutral"].

Definition is_expression (label : Js.jsstring) : bool :=
  existsb (Js.jsstring_eqb label) EXPRESSIONS.

(** [counts[label] = (counts[label] || 0) + 1] on the object [counts],
    for labels among [EXPRESSIONS].  None of these is an array index or a
    name that [Object.prototype] has, so the object holds each as a
    property of its own, and [Object.entries] gives them in the order in
    which they were added: the object is kept as these entries, in that
    order.  For other keys a plain object differs ([__proto__] is not
    stored, index-like keys come first), and this definition does not
    follow it. *)
Fixpoint bump (label : Js.jsstring) (counts : list (Js.jsstring * nat))
  : list (Js.jsstring * nat) :=
  match counts with
  | [] => [(label, 1%nat)]
  | (key, n) :: rest =>
      if Js.jsstring_eqb key label then (key, Datatypes.S n) :: rest
      else (key, n) :: bump label rest
  end.

(** [counts[label] || 0] *)
Definition count_of (label : Js.jsstring) (counts : list (Js.jsstring * nat)) : nat :=
  match List.find (fun e => Js.jsstring_eqb (fst e) label) counts with
  | Some e => snd e
  | None => 0%nat
  end.

(** [Array.prototype.sort((a, b) => b[1] - a[1])]: by count, largest
    first, entries with the same count in the order they had. *)
Fixpoint insert_entry (e : Js.jsstring * nat) (sorted : list (Js.jsstring * nat))
  : list (Js.jsstring * nat) :=
  match sorted with
  | [] => [e]
  | e' :: rest =>
      if (snd e' <=? snd e)%nat then e :: sorted else e' :: insert_entry e rest
  end.

Definition sort_entries (entries : list (Js.jsstring * nat)) : list (Js.jsstring * nat) :=
  fold_right insert_entry [] entries.

(** [getDominantExpression(log)], given the labels of the log. *)
Definition getDominantExpression (log : list Js.jsstring) : Js.jsstring :=
  match log with
  | [] => Js.lit "neutral"
  | _ =>
      let counts := fold_left (fun counts label => bump label counts) log [] in
      match sort_entries counts with
      | (label, _) :: _ =>
          match label with
          | [] => Js.lit "neutral"
          | _ => label
          end
      | [] => Js.lit "neutral"
      end
  end.

(** How often a label is in a log. *)
Definition occurrences (label : Js.jsstring) (log : list Js.jsstring) : nat :=
  List.length (List.filter (Js.jsstring_eqb label) log).

End CameraStore.

(* ===================================================================== *)
(** * hooks/use-body-language.js: the metrics of one analysed frame *)
(* ===================================================================== *)

Module BodyLanguage.

(** What the landmarkers found in a frame, with what the hook computes
    from it: [calculateEyeContact] when there are face landmarks,
    [detectExpression] when there are blendshapes, [calculatePosture] when
    there are pose landmarks, and the [emphatic] and [touchingFace] of
    [analyzeHands] when there are hand landmarks. *)
Record detection := {
  face : option Js.value;
  blendshapes : option Js.value;
  pose : option Js.value;
  hands : option (bool * bool);
}.

Record counters := {
  prevHandPosRef : bool;    (* whether a previous hand position is kept *)
  gestureCountRef : N;
  nervousCountRef : N;
}.

Definition no_counts : counters :=
  {| prevHandPosRef := false; gestureCountRef := 0%N; nervousCountRef := 0%N |}.

Definition number (n : N) : Js.value := Js.VNumber (Js.of_Z (Z.of_N n)).

(** [metrics.key = v] on an object that does not have the key yet. *)
Definition set_property (key : string) (v : Js.value) (props : list (Js.jsstring * Js.value))
  : list (Js.jsstring * Js.value) :=
  props ++ [(Js.lit key, v)].

(** The part of [loop] that builds [metrics]: the counters after it, and
    the object handed to [updateMetrics]. *)
Definition collect (found : detection) (c : counters) : counters * Js.value :=
  let m0 := [] in
  let m1 := match face found with
            | Some v => set_property "eyeContact" v m0
            | None => m0
            end in
  let m2 := match blendshapes found with
            | Some v => set_property "expression" v m1
            | None => m1
            end in
  let m3 := match pose found with
            | Some v => set_property "posture" v m2
            | None => m2
            end in
  match hands found with
  | Some (emphatic, touchingFace) =>
      let gestures := if emphatic then (gestureCountRef c + 1)%N else gestureCountRef c in
      let m4 := set_property "gestureCount" (number gestures) m3 in
      let nervous :=
        if touchingFace then (nervousCountRef c + 1)%N else nervousCountRef c in
      let m5 := if touchingFace then set_property "nervousHabit" (Js.VBool true) m4
                else m4 in
      ({| prevHandPosRef := true; gestureCountRef := gestures;
          nervousCountRef := nervous |},
       Js.VObject m5)
  | None =>
      ({| prevHandPosRef := false; gestureCountRef := gestureCountRef c;
          nervousCountRef := nervousCountRef c |},
       Js.VObject m3)
  end.

(** The frames of a series, each analysed at its time: the counters of
    the hook and the store after them. *)
Fixpoint analyse (frames : list (detection * N)) (c : counters) (s : CameraStore.t)
  : counters * CameraStore.t :=
  match frames with
  | [] => (c, s)
  | (found, now) :: rest =>
      let (c', metrics) := collect found c in
      analyse rest c' (CameraStore.updateMetrics metrics now s)
  end.

(** How many frames of a series saw a hand touch the face. *)
Definition touches (frames : list (detection * N)) : N :=
  N.of_nat (List.length (List.filter
    (fun f => match hands (fst f) with Some (_, true) => true | _ => false end) frames)).

End BodyLanguage.

(** * Further concrete inputs *)

Module Examples.
Import AudioRecorder.

(** A browser that grants the microphone but cannot make an audio context. *)
Definition no_audio_context : platform :=
  {| getUserMedia := Some {| tracks_live := true |};
     newAudioContext := false;
     createMediaStreamSource := true;
     createAnalyser := true;
     connectSource := true;
     byteFrequencyData := repeat 0%N 128;
     opusSupported := true;
     newMediaRecorder := true;
     startMediaRecorder := true |}.

(** A loud frame: every bin at its maximum. *)
Definition loud : platform :=
  {| getUserMedia := Some {| tracks_live := true |};
     newAudioContext := true;
     createMediaStreamSource := true;
     createAnalyser := true;
     connectSource := true;
     byteFrequencyData := repeat 255%N 128;
     opusSupported := true;
     newMediaRecorder := true;
     startMediaRecorder := true |}.

(** A held turn on a page whose socket never opens. *)
Definition unopened_turn : list Session.event :=
  [Session.Mount; Session.SelectMode "hold"; Session.PointerDown;
   Session.UserMedia Scenario.granted; Session.SpeechStart;
   Session.SpeechResult (Js.lit "hello") []; Session.PointerUp;
   Session.Recorder (DataAvailable [1; 2; 3]%N);
   Session.Recorder StopEvent].

(** The options the voice page passes to [useSilenceDetection]:
    [{ threshold: 0.04, durationMs: 2000 }]. *)
Definition page_threshold : Q := 4 # 100.
Definition page_durationMs : Q := 2000 # 1.

(** A frame with every bin at 0, and one with every bin at 255, at a time
    in milliseconds. *)
Definition hush (ms : Z) : SilenceDetection.frame :=
  {| SilenceDetection.bins := repeat 0%N 128; SilenceDetection.at_ms := inject_Z ms |}.
Definition noise (ms : Z) : SilenceDetection.frame :=
  {| SilenceDetection.bins := repeat 255%N 128; SilenceDetection.at_ms := inject_Z ms |}.

(** A frame with every bin at 0 at a time that is no whole number of
    milliseconds. *)
Definition hush_at (ms : Q) : SilenceDetection.frame :=
  {| SilenceDetection.bins := repeat 0%N 128; SilenceDetection.at_ms := ms |}.

(** The silence hook right after [attachAnalyser]. *)
Definition listening : SilenceDetection.t :=
  final (SilenceDetection.attachAnalyser SilenceDetection.initial).

(** A page in a browser that has no speech synthesis. *)
Definition without_synthesis : Session.state :=
  Session.with_synth
    (fun _ => {| Session.speechSynthesis := false; Session.intervalRef := false |})
    Scenario.fresh.

End Examples.

(* ===================================================================== *)
(** * Properties *)
(* ===================================================================== *)

(** ** The handler monad *)

Section MonadFacts.
Context {S : Type}.

Lemma final_bind {A B} (m : M S A) (k : A -> M S B) s a :
  out (m s) = Return a ->
  final (bind m k s) = final (k a (final (m s))).
Proof. unfold bind. intros ->. reflexivity. Qed.

Lemma out_bind {A B} (m : M S A) (k : A -> M S B) s a :
  out (m s) = Return a ->
  out (bind m k s) = out (k a (final (m s))).
Proof. unfold bind. intros ->. reflexivity. Qed.

Lemma calls_bind {A B} (m : M S A) (k : A -> M S B) s a :
  out (m s) = Return a ->
  calls (bind m k s) = calls (m s) ++ calls (k a (final (m s))).
Proof. unfold bind. intros ->. reflexivity. Qed.

End MonadFacts.

(** ** Audio capture: start *)

Import AudioRecorder.

(** C9. A start that fails at any browser call (microphone refused, device
    error, AudioContext or MediaRecorder construction) returns [false]
    without throwing, with the voice state back to ['idle'] and the audio
    level at 0; a start whose calls all succeed returns [true].  This holds
    from any state in which [getUserMedia] settles. *)
Theorem startRecording_never_throws (p : platform) (w : world) :
  let r := startRecording_resume p w in
  let r' := startRecording p w in
  if start_succeeds p then
    out r = Return true /\ out r' = Return true
  else
    (out r = Return false
     /\ VoiceStore.state (voice (final r)) = "idle"
     /\ VoiceStore.audioLevel (voice (final r)) = Js.of_Z 0)
    /\ (out r' = Return false
        /\ VoiceStore.state (voice (final r')) = "idle"
        /\ VoiceStore.audioLevel (voice (final r')) = Js.of_Z 0).
Proof.
  destruct p as [gum ac cs ca con data opus mr st].
  destruct w as [[mr0 chunks an af strm ctx] v t calls fr].
  destruct ctx, gum as [stream|], ac, cs, ca, con, mr, st;
    cbv -[Js.div Js.Math_min Js.of_Z Js.of_nat sum_bytes];
    repeat split; reflexivity.
Qed.

(** ** Audio capture: stop *)

Lemma step_returns e w : out (step e w) = Return tt.
Proof.
  destruct e; cbn; try reflexivity.
  - unfold ondataavailable. destruct (mediaRecorderRef (hook w)); [|reflexivity].
    cbn. destruct (0 <? N.of_nat (length data))%N; reflexivity.
  - destruct (mediaRecorderRef (hook w)) as [mr|]; [|reflexivity].
    destruct (mr_onstop mr); reflexivity.
Qed.

Lemma exec_nil w : exec [] w = w.
Proof. reflexivity. Qed.

Lemma exec_cons e es w : exec (e :: es) w = exec es (final (step e w)).
Proof.
  unfold exec. cbn [steps]. rewrite (final_bind _ _ _ tt) by apply step_returns.
  reflexivity.
Qed.

Lemma exec_app es1 es2 w : exec (es1 ++ es2) w = exec es2 (exec es1 w).
Proof.
  revert w. induction es1 as [|e es1 IH]; intros w; [reflexivity|].
  rewrite <- app_comm_cons, !exec_cons. apply IH.
Qed.

Ltac open_world w :=
  destruct w as [[[[? ? [?|]]|] ? ? ? ? ?] ? ? ? ?].

Lemma step_recorder e w :
  mediaRecorderRef (hook (final (step e w))) = mediaRecorderRef (hook w).
Proof.
  open_world w; destruct e as [ms|data|]; try reflexivity;
    cbn; unfold ondataavailable; cbn;
    destruct (0 <? N.of_nat (length data))%N; reflexivity.
Qed.

Lemma step_now e w :
  now (final (step e w)) = (now w + match e with Elapse ms => ms | _ => 0 end)%N.
Proof.
  open_world w; destruct e as [ms|data|]; cbn; try lia;
    unfold ondataavailable; cbn;
    destruct (0 <? N.of_nat (length data))%N; cbn; lia.
Qed.

Lemma step_call e w i c mr :
  stops w !! i = Some c ->
  mediaRecorderRef (hook w) = Some mr ->
  mr_onstop mr = Some i ->
  stops (final (step e w)) !! i = Some (call_after e w c).
Proof.
  intros Hc Hmr Hon. destruct e; cbn.
  - rewrite list_lookup_fmap, Hc. reflexivity.
  - rewrite Hmr. unfold ondataavailable. cbn.
    destruct (0 <? N.of_nat (length data))%N; cbn; exact Hc.
  - rewrite Hmr, Hon. cbn.
    rewrite !list_lookup_alter_eq, Hc. cbn. f_equal. f_equal.
    destruct (audioChunksRef (hook w)); reflexivity.
Qed.

Lemma resolve_call_resolved v c u :
  settled c = Resolved u -> resolve_call v c = c.
Proof. unfold resolve_call. intros ->. reflexivity. Qed.

Lemma run_timeout_resolved t c u :
  settled c = Resolved u -> settled (run_timeout t c) = Resolved u.
Proof.
  intros H. unfold run_timeout. destruct (timeoutId c) as [due|]; [|exact H].
  destruct (due <=? t)%N; [|exact H].
  rewrite (resolve_call_resolved _ _ u H). exact H.
Qed.

(** A settled promise keeps its value, whatever happens next. *)
Lemma step_resolved_stays e w i c u :
  stops w !! i = Some c -> settled c = Resolved u ->
  exists c', stops (final (step e w)) !! i = Some c' /\ settled c' = Resolved u.
Proof.
  intros Hc Hu. destruct e as [ms|data|]; cbn.
  - rewrite list_lookup_fmap, Hc. cbn. eexists; split; [reflexivity|].
    now apply run_timeout_resolved.
  - exists c. split; [|exact Hu].
    destruct (mediaRecorderRef (hook w)); [|exact Hc].
    unfold ondataavailable. cbn.
    destruct (0 <? N.of_nat (length data))%N; exact Hc.
  - destruct (mediaRecorderRef (hook w)) as [mr|]; [|eauto].
    destruct (mr_onstop mr) as [j|]; [|eauto]. cbn.
    destruct (decide (j = i)) as [->|Hne].
    + rewrite !list_lookup_alter_eq, Hc. cbn. eexists; split; [reflexivity|].
      rewrite (resolve_call_resolved _ _ u); [exact Hu | exact Hu].
    + rewrite !list_lookup_alter_ne by exact Hne. eauto.
Qed.

Lemma exec_resolved_stays es w i c u :
  stops w !! i = Some c -> settled c = Resolved u ->
  exists c', stops (exec es w) !! i = Some c' /\ settled c' = Resolved u.
Proof.
  revert w c. induction es as [|e es IH]; intros w c Hc Hu; [eauto|].
  rewrite exec_cons.
  destruct (step_resolved_stays e w i c u Hc Hu) as (c1 & Hc1 & Hu1).
  eapply IH; eauto.
Qed.

Lemma promise_resolved_stays es w i u :
  promise_of i w = Resolved u -> promise_of i (exec es w) = Resolved u.
Proof.
  unfold promise_of. destruct (stops w !! i) as [c|] eqn:Hc; [|discriminate].
  intros Hu. destruct (exec_resolved_stays es w i c u Hc Hu) as (c' & -> & Hu').
  exact Hu'.
Qed.

Lemma exec_recorder es w :
  mediaRecorderRef (hook (exec es w)) = mediaRecorderRef (hook w).
Proof.
  revert w. induction es as [|e es IH]; intros w; [reflexivity|].
  rewrite exec_cons, IH. apply step_recorder.
Qed.

Lemma exec_now es w : now (exec es w) = (now w + elapsed es)%N.
Proof.
  revert w. induction es as [|e es IH]; intros w; cbn [elapsed fold_right].
  - rewrite exec_nil. lia.
  - rewrite exec_cons, IH, step_now. fold (elapsed es). destruct e; lia.
Qed.

(** Without a stop event, the promise is pending exactly until the timer
    is due, and then resolved with null. *)
Lemma exec_no_stop es : forall w i c mr due,
  stops w !! i = Some c ->
  mediaRecorderRef (hook w) = Some mr -> mr_onstop mr = Some i ->
  settled c = Pending -> timeoutId c = Some due -> (now w < due)%N ->
  no_stop es = true ->
  exists c', stops (exec es w) !! i = Some c' /\
    if (due <=? now w + elapsed es)%N
    then settled c' = Resolved None
    else settled c' = Pending /\ timeoutId c' = Some due.
Proof.
  induction es as [|e es IH]; intros w i c mr due Hc Hmr Hon Hp Ht Hnow Hns.
  - rewrite exec_nil. cbn. exists c. split; [exact Hc|].
    replace (now w + 0)%N with (now w) by lia.
    destruct (N.leb_spec due (now w)); [lia|]. auto.
  - cbn in Hns. apply andb_true_iff in Hns as [He Hns].
    rewrite exec_cons.
    pose proof (step_call e w i c mr Hc Hmr Hon) as Hc1.
    pose proof (step_recorder e w) as Hmr1. rewrite Hmr in Hmr1.
    pose proof (step_now e w) as Hn1.
    destruct e as [ms|data|]; [| |discriminate]; cbn [call_after] in Hc1.
    + cbn [elapsed fold_right]. fold (elapsed es).
      unfold run_timeout in Hc1. rewrite Ht in Hc1.
      destruct (N.leb_spec due (now w + ms)) as [Hdue|Hdue].
      * destruct (exec_resolved_stays es _ i _ None Hc1) as (c' & Hc' & Hu').
        { cbn. unfold resolve_call. rewrite Hp. reflexivity. }
        exists c'. split; [exact Hc'|].
        destruct (N.leb_spec due (now w + (ms + elapsed es))); [exact Hu'|lia].
      * destruct (IH _ i c mr due Hc1 Hmr1 Hon Hp Ht) as (c' & Hc' & Hres);
          [lia | exact Hns |].
        exists c'. split; [exact Hc'|].
        rewrite Hn1 in Hres.
        replace (now w + (ms + elapsed es))%N with (now w + ms + elapsed es)%N by lia.
        exact Hres.
    + cbn [elapsed fold_right]. fold (elapsed es).
      destruct (IH _ i c mr due Hc1 Hmr1 Hon Hp Ht) as (c' & Hc' & Hres);
        [lia | exact Hns |].
      exists c'. split; [exact Hc'|].
      rewrite Hn1 in Hres.
      replace (now w + 0 + elapsed es)%N with (now w + elapsed es)%N in Hres by lia.
      exact Hres.
Qed.

(** The state in which an invocation on an active recorder leaves the hook. *)
Lemma stopRecording_active w mr :
  mediaRecorderRef (hook w) = Some mr -> is_inactive (mr_state mr) = false ->
  let r := stopRecording w in
  let i := length (stops w) in
  out r = Return i
  /\ stops (final r) = stops w ++ [{| settled := Pending;
                                      timeoutId := Some (now w + STOP_TIMEOUT_MS)%N |}]
  /\ mediaRecorderRef (hook (final r))
     = Some {| mr_state := inactive; mr_mimeType := mr_mimeType mr; mr_onstop := Some i |}
  /\ now (final r) = now w
  /\ audioChunksRef (hook (final r)) = audioChunksRef (hook w).
Proof.
  intros Hmr Hact.
  destruct w as [[mr0 chunks an af strm ctx] v t cs fr]. cbn in Hmr. subst mr0.
  unfold stopRecording. cbn. rewrite Hact.
  destruct strm, af; cbn;
    (replace (length cs) with (length cs + 0)%nat by lia);
    rewrite !alter_app_r; cbn;
    (replace (length cs + 0)%nat with (length cs) by lia);
    repeat split; reflexivity.
Qed.

Lemma stopRecording_idle w :
  recorder_active w = false ->
  let r := stopRecording w in
  let i := length (stops w) in
  out r = Return i /\ promise_of i (final r) = Resolved None.
Proof.
  intros Hidle.
  destruct w as [[mr0 chunks an af strm ctx] v t cs fr].
  unfold recorder_active in Hidle. cbn in Hidle.
  unfold stopRecording, promise_of. cbn.
  destruct mr0 as [mr|]; [apply negb_false_iff in Hidle; rewrite Hidle|];
    cbn; (split; [reflexivity|]);
    (replace (length cs) with (length cs + 0)%nat by lia);
    rewrite alter_app_r, lookup_app_r by lia;
    (replace (length cs + 0 - length cs)%nat with 0%nat by lia); reflexivity.
Qed.

(** C8. Every invocation of [stopRecording] returns a promise that
    resolves.  With no recorder, or an inactive one, it is resolved with
    null at once.  Otherwise it is pending at first, and after any run of
    events: once 5000 ms have elapsed it is no longer pending; if no stop
    event has fired by then it is resolved with null; and if the stop
    event fires before the 5000 ms are over it is resolved with the clip
    made of the chunks buffered at that moment, or null when there are
    none.  A resolved promise keeps its value. *)
Theorem stopRecording_always_resolves (w : world) :
  let r := stopRecording w in
  let i := length (stops w) in
  out r = Return i /\
  (recorder_active w = false ->
     forall es, promise_of i (exec es (final r)) = Resolved None) /\
  (recorder_active w = true ->
     promise_of i (final r) = Pending /\
     forall es,
       ((STOP_TIMEOUT_MS <= elapsed es)%N ->
          promise_of i (exec es (final r)) <> Pending) /\
       (no_stop es = true -> (STOP_TIMEOUT_MS <= elapsed es)%N ->
          promise_of i (exec es (final r)) = Resolved None) /\
       (forall pre post,
          es = pre ++ StopEvent :: post ->
          no_stop pre = true -> (elapsed pre < STOP_TIMEOUT_MS)%N ->
          promise_of i (exec es (final r))
          = Resolved (clip_or_null (audioChunksRef (hook (exec pre (final r))))))).
Proof.
  intros r i. split; [|split].
  - destruct (recorder_active w) eqn:Hact.
    + unfold recorder_active in Hact.
      destruct (mediaRecorderRef (hook w)) as [mr|] eqn:Hmr; [|discriminate].
      apply negb_true_iff in Hact.
      apply (stopRecording_active w mr Hmr Hact).
    + apply (stopRecording_idle w Hact).
  - intros Hidle es. apply promise_resolved_stays.
    apply (stopRecording_idle w Hidle).
  - intros Hact. unfold recorder_active in Hact.
    destruct (mediaRecorderRef (hook w)) as [mr|] eqn:Hmr; [|discriminate].
    apply negb_true_iff in Hact.
    destruct (stopRecording_active w mr Hmr Hact) as (_ & Hstops & Hrec & Hnow & Hchunks).
    fold r in Hstops, Hrec, Hnow, Hchunks. fold i in Hrec.
    set (c0 := {| settled := Pending; timeoutId := Some (now w + STOP_TIMEOUT_MS)%N |}) in *.
    assert (Hc0 : stops (final r) !! i = Some c0).
    { rewrite Hstops. apply list_lookup_middle. reflexivity. }
    assert (Hnostop : forall es, no_stop es = true ->
      exists c', stops (exec es (final r)) !! i = Some c' /\
        if (now w + STOP_TIMEOUT_MS <=? now w + elapsed es)%N
        then settled c' = Resolved None
        else settled c' = Pending /\ timeoutId c' = Some (now w + STOP_TIMEOUT_MS)%N).
    { intros es Hns.
      destruct (exec_no_stop es (final r) i c0 _ _ Hc0 Hrec eq_refl eq_refl eq_refl)
        as (c' & Hc' & Hres); [unfold STOP_TIMEOUT_MS; lia | exact Hns |].
      rewrite Hnow in Hres. eauto. }
    assert (Hstop : forall pre post, no_stop pre = true ->
      exists u, promise_of i (exec (pre ++ StopEvent :: post) (final r)) = Resolved u
        /\ ((elapsed pre < STOP_TIMEOUT_MS)%N ->
            u = clip_or_null (audioChunksRef (hook (exec pre (final r)))))).
    { intros pre post Hns.
      destruct (Hnostop pre Hns) as (c' & Hc' & Hres).
      rewrite exec_app, exec_cons.
      pose proof (exec_recorder pre (final r)) as Hrec'. rewrite Hrec in Hrec'.
      pose proof (step_call StopEvent _ i c' _ Hc' Hrec' eq_refl) as Hc1.
      cbn [call_after] in Hc1.
      destruct (N.leb_spec (now w + STOP_TIMEOUT_MS) (now w + elapsed pre)) as [Hdue|Hdue].
      - exists None. split; [|lia].
        apply promise_resolved_stays. unfold promise_of. rewrite Hc1.
        rewrite (resolve_call_resolved _ _ None); exact Hres.
      - destruct Hres as [Hp _]. eexists. split; [|reflexivity].
        apply promise_resolved_stays. unfold promise_of. rewrite Hc1.
        unfold resolve_call. cbn. rewrite Hp. reflexivity. }
    assert (Hsplit : forall es, no_stop es = true \/
      exists pre post, es = pre ++ StopEvent :: post /\ no_stop pre = true).
    { induction es as [|e es IH]; [left; reflexivity|].
      destruct e as [ms|data|].
      - destruct IH as [IH|(pre & post & -> & Hpre)]; [left; exact IH|].
        right. exists (Elapse ms :: pre), post. split; [reflexivity|exact Hpre].
      - destruct IH as [IH|(pre & post & -> & Hpre)]; [left; exact IH|].
        right. exists (DataAvailable data :: pre), post. split; [reflexivity|exact Hpre].
      - right. exists [], es. split; reflexivity. }
    split.
    { unfold promise_of. rewrite Hc0. reflexivity. }
    intros es. split; [|split].
    + intros Hel. destruct (Hsplit es) as [Hns|(pre & post & -> & Hpre)].
      * destruct (Hnostop es Hns) as (c' & Hc' & Hres).
        unfold promise_of. rewrite Hc'.
        destruct (N.leb_spec (now w + STOP_TIMEOUT_MS) (now w + elapsed es)); [|lia].
        rewrite Hres. discriminate.
      * destruct (Hstop pre post Hpre) as (u & -> & _). discriminate.
    + intros Hns Hel. destruct (Hnostop es Hns) as (c' & Hc' & Hres).
      unfold promise_of. rewrite Hc'.
      destruct (N.leb_spec (now w + STOP_TIMEOUT_MS) (now w + elapsed es)); [|lia].
      exact Hres.
    + intros pre post -> Hpre Hel.
      destruct (Hstop pre post Hpre) as (u & -> & Hu). rewrite (Hu Hel). reflexivity.
Qed.

(** ** Handlers that leave the connection alone *)

Import Session.
Import Invariants.

Lemma reconnect_delays_app l1 l2 :
  reconnect_delays (l1 ++ l2) = reconnect_delays l1 ++ reconnect_delays l2.
Proof. apply flat_map_app. Qed.


Lemma sent_app l1 l2 : sent (l1 ++ l2) = sent l1 ++ sent l2.
Proof. apply flat_map_app. Qed.

Lemma inert_ret {A} (a : A) : inert (ret a).
Proof. intros s. split; reflexivity. Qed.

Lemma inert_throw {A} e : inert (@throw state A e).
Proof. intros s. split; reflexivity. Qed.

Lemma inert_read : inert (@read state).
Proof. intros s. split; reflexivity. Qed.

Lemma inert_emit e : reconnect_delays [e] = [] -> inert (emit e).
Proof. intros H s. split; [reflexivity|exact H]. Qed.

Lemma inert_modify f : (forall s, connection (f s) = connection s) -> inert (modify f).
Proof. intros H s. split; [apply H|reflexivity]. Qed.

Lemma inert_bind {A B} (m : M state A) (k : A -> M state B) :
  inert m -> (forall a, inert (k a)) -> inert (bind m k).
Proof.
  intros Hm Hk s. unfold bind. destruct (Hm s) as [Hc Hd].
  destruct (out (m s)) as [a|e]; cbn.
  - destruct (Hk a (final (m s))) as [Hc' Hd'].
    rewrite reconnect_delays_app, Hd, Hd', Hc', Hc. split; reflexivity.
  - split; assumption.
Qed.

Lemma inert_try_catch {A} (m : M state A) h :
  inert m -> (forall e, inert (h e)) -> inert (try_catch m h).
Proof.
  intros Hm Hh s. unfold try_catch. destruct (Hm s) as [Hc Hd].
  destruct (out (m s)) as [a|e]; cbn.
  - split; assumption.
  - destruct (Hh e (final (m s))) as [Hc' Hd'].
    rewrite reconnect_delays_app, Hd, Hd', Hc', Hc. split; reflexivity.
Qed.

Lemma inert_when b m : inert m -> inert (when b m).
Proof. intros H. destruct b; [exact H|apply inert_ret]. Qed.

Lemma inert_uncaught m : inert m -> inert (uncaught m).
Proof.
  intros H. apply inert_try_catch; [exact H|].
  intros e. apply inert_emit. reflexivity.
Qed.

Lemma inert_recorder {A} (m : M AudioRecorder.world A) : silent m -> inert (recorder m).
Proof. intros H s. split; [reflexivity|apply (H (media s))]. Qed.

Lemma silent_startRecording_begin : silent startRecording_begin.
Proof.
  intros w. destruct w as [[mr0 chunks an af strm [ctx|]] v t cs fr];
    repeat split; reflexivity.
Qed.

Lemma silent_startRecording_resume p : silent (startRecording_resume p).
Proof.
  intros w. destruct p as [gum ac cs ca con data opus mr st].
  destruct w as [[mr0 chunks an af strm ctx] v t calls fr].
  destruct gum as [stream|], ac, cs, ca, con, mr, st;
    cbv -[Js.div Js.Math_min Js.of_Z Js.of_nat sum_bytes];
    repeat split; reflexivity.
Qed.

Lemma silent_stopRecording : silent stopRecording.
Proof.
  intros w. destruct w as [[[[[| |] ? ?]|] chunks an [af|] [strm|] ctx] v t cs fr];
    repeat split; reflexivity.
Qed.

Lemma silent_step e : silent (AudioRecorder.step e).
Proof.
  intros w. open_world w; destruct e as [ms|data|]; try (repeat split; reflexivity);
    cbn; unfold ondataavailable; cbn;
    destruct (0 <? N.of_nat (length data))%N; repeat split; reflexivity.
Qed.

(** Unfold the handler at the head and split it along its text. *)
Ltac head_of t :=
  lazymatch t with
  | ?f _ => head_of f
  | _ => t
  end.

Create HintDb inert discriminated.

Ltac inert_step :=
  cbv beta zeta;
  first
  [ assumption
  | solve [auto 1 with inert nocore]
  | lazymatch goal with
    | |- inert (bind _ _) => apply inert_bind; [|intros ?]
    | |- inert (ret _) => apply inert_ret
    | |- inert (throw _) => apply inert_throw
    | |- inert read => apply inert_read
    | |- inert (emit _) => apply inert_emit; reflexivity
    | |- inert (modify _) => apply inert_modify; intros ?; reflexivity
    | |- inert (when _ _) => apply inert_when
    | |- inert (uncaught _) => apply inert_uncaught
    | |- inert (try_catch _ _) => apply inert_try_catch; [|intros ?]
    | |- inert (recorder startRecording_begin) =>
        apply inert_recorder, silent_startRecording_begin
    | |- inert (recorder (startRecording_resume _)) =>
        apply inert_recorder, silent_startRecording_resume
    | |- inert (recorder stopRecording) => apply inert_recorder, silent_stopRecording
    | |- inert (recorder (AudioRecorder.step _)) => apply inert_recorder, silent_step
    | |- inert (if ?b then _ else _) => destruct b
    | |- inert (match ?x with _ => _ end) => destruct x
    | |- inert ?m => let h := head_of m in unfold h
    end ].

Ltac inert_auto := repeat inert_step.


Lemma inert_onerror : inert onerror.
Proof. inert_auto. Qed.

Lemma inert_stopSpeech : inert stopSpeech.
Proof. inert_auto. Qed.

Lemma inert_speak t : inert (speak t).
Proof. inert_auto. Qed.

Lemma inert_onmessage `{Runtime} before_speak on_arrival data :
  inert before_speak -> inert on_arrival ->
  inert (Session.onmessage before_speak on_arrival data).
Proof. intros Hb Ha. inert_auto. Qed.

(** ** The socket handlers *)

Lemma onclose_abnormal ws code s :
  code <> 1000 ->
  let count := reconnectCountRef (refs s) in
  let r := (set_readyState ws (fun _ => CLOSED) ;; onclose code)%handler s in
  out r = Return tt /\
  if (count <? WS_MAX_RETRIES)%N then
    connection (final r) = ((count + 1)%N, "reconnecting")
    /\ reconnect_delays (calls r)
       = [Z.min (WS_RECONNECT_BASE_MS * 2 ^ Z.of_N count) WS_RECONNECT_MAX_MS]
  else
    connection (final r) = (count, "failed") /\ reconnect_delays (calls r) = [].
Proof.
  intros Hcode. apply Z.eqb_neq in Hcode.
  unfold onclose. rewrite Hcode.
  cbn -[Z.pow Z.min Z.mul N.ltb N.add Z.of_N WS_MAX_RETRIES WS_RECONNECT_BASE_MS WS_RECONNECT_MAX_MS].
  destruct (reconnectCountRef (refs s) <? WS_MAX_RETRIES)%N; repeat split; reflexivity.
Qed.

Lemma uncaught_returns m s : out (uncaught m s) = Return tt.
Proof.
  unfold uncaught, try_catch. destruct (out (m s)) as [[]|e] eqn:E; [exact E|reflexivity].
Qed.

Lemma uncaught_same m s :
  out (m s) = Return tt -> uncaught m s = m s.
Proof.
  unfold uncaught, try_catch. intros ->. reflexivity.
Qed.

(** ** Runs of a page *)

Section Runs.
Variable dispatch : event -> M state unit.

Hypothesis dispatch_returns : forall e s, out (dispatch e s) = Return tt.

Hypothesis dispatch_inert : forall e,
  is_open e = false -> is_abnormal_close e = false -> inert (dispatch e).

Hypothesis dispatch_abnormal : forall ws code s,
  code <> 1000 ->
  let count := reconnectCountRef (refs s) in
  let r := dispatch (WsClose ws code) s in
  if (count <? WS_MAX_RETRIES)%N then
    connection (final r) = ((count + 1)%N, "reconnecting")
    /\ reconnect_delays (calls r)
       = [Z.min (WS_RECONNECT_BASE_MS * 2 ^ Z.of_N count) WS_RECONNECT_MAX_MS]
  else
    connection (final r) = (count, "failed") /\ reconnect_delays (calls r) = [].

Lemma run_with_returns es s : out (run_with dispatch es s) = Return tt.
Proof.
  revert s. induction es as [|e es IH]; intros s; [reflexivity|].
  cbn [run_with]. rewrite (out_bind _ _ _ tt) by apply dispatch_returns. apply IH.
Qed.

(** From a retry counter [c <= 5], a run without an open schedules the
    delays [backoff c, backoff (c + 1), ...] up to [backoff 4], one for
    each abnormal close, and ends ['failed'] once there are more
    abnormal closes than that. *)
Lemma run_with_backoff es : forall s (c : nat),
  reconnectCountRef (refs s) = N.of_nat c -> (c <= 5)%nat ->
  no_open es = true ->
  let n := abnormal_closes es in
  let r := run_with dispatch es s in
  reconnect_delays (calls r) = List.map backoff (seq c (Nat.min n (5 - c)))
  /\ reconnectCountRef (refs (final r)) = N.of_nat (Nat.min (c + n) 5)
  /\ wsStatus (ui (final r))
     = match n with
       | O => wsStatus (ui s)
       | _ => if (c + n <=? 5)%nat then "reconnecting" else "failed"
       end.
Proof.
  induction es as [|e es IH]; intros s c Hc Hle Hno.
  - cbn. rewrite Nat.add_0_r, Nat.min_l by exact Hle. auto.
  - cbn in Hno. apply andb_true_iff in Hno as [He Hno].
    apply negb_true_iff in He.
    intros n r. subst r. cbn [run_with].
    rewrite (calls_bind _ _ _ tt), (final_bind _ _ _ tt) by apply dispatch_returns.
    rewrite reconnect_delays_app.
    destruct (is_abnormal_close e) eqn:Hab.
    + destruct e as [| | | | |ws code| | | | | | | | | | | | | |]; try discriminate.
      cbn in Hab. apply negb_true_iff, Z.eqb_neq in Hab.
      pose proof (dispatch_abnormal ws code s Hab) as Hd. cbn zeta in Hd.
      assert (Hn : n = Datatypes.S (abnormal_closes es)).
      { subst n. unfold abnormal_closes. cbn.
        destruct (code =? 1000) eqn:E; [apply Z.eqb_eq in E; contradiction|reflexivity]. }
      rewrite Hc in Hd. unfold WS_MAX_RETRIES in Hd.
      destruct (N.ltb_spec (N.of_nat c) 5) as [Hlt|Hge].
      * destruct Hd as [Hconn Hdel]. injection Hconn as Hcount Hstatus.
        rewrite nat_N_Z in Hdel.
        destruct (IH (final (dispatch (WsClose ws code) s)) (Datatypes.S c))
          as (IH1 & IH2 & IH3); [rewrite Hcount; lia | lia | exact Hno |].
        cbn zeta in IH1, IH2, IH3. rewrite Hdel, IH1, IH2, IH3, Hn, Hstatus.
        replace (Nat.min (Datatypes.S (abnormal_closes es)) (5 - c))
          with (Datatypes.S (Nat.min (abnormal_closes es) (5 - Datatypes.S c))) by lia.
        cbn [seq List.map app]. unfold backoff at 2.
        unfold WS_RECONNECT_BASE_MS, WS_RECONNECT_MAX_MS.
        split; [reflexivity|]. split; [f_equal; lia|].
        destruct (abnormal_closes es) as [|m] eqn:Hm.
        -- destruct (Nat.leb_spec (c + 1) 5); [reflexivity|lia].
        -- destruct (Nat.leb_spec (Datatypes.S c + Datatypes.S m) 5),
                    (Nat.leb_spec (c + Datatypes.S (Datatypes.S m)) 5);
             try reflexivity; lia.
      * assert (c = 5)%nat by lia. subst c.
        destruct Hd as [Hconn Hdel]. injection Hconn as Hcount Hstatus.
        destruct (IH (final (dispatch (WsClose ws code) s)) 5%nat)
          as (IH1 & IH2 & IH3); [exact Hcount | lia | exact Hno |].
        cbn zeta in IH1, IH2, IH3. rewrite Hdel, IH1, IH2, IH3, Hn, Hstatus.
        rewrite !Nat.sub_diag, !Nat.min_0_r. cbn [seq List.map app].
        split; [reflexivity|]. split; [f_equal; lia|].
        destruct (abnormal_closes es) as [|m]; [reflexivity|].
        destruct (Nat.leb_spec (5 + Datatypes.S m) 5); [lia|reflexivity].
    + destruct (dispatch_inert e He Hab s) as [Hconn Hdel].
      unfold connection in Hconn. injection Hconn as Hcount Hstatus.
      destruct (IH (final (dispatch e s)) c) as (IH1 & IH2 & IH3);
        [rewrite Hcount; exact Hc | exact Hle | exact Hno |].
      cbn zeta in IH1, IH2, IH3.
      assert (Hn : n = abnormal_closes es).
      { subst n. unfold abnormal_closes. cbn. rewrite Hab. reflexivity. }
      rewrite Hdel, IH1, IH2, IH3, Hn, Hstatus. auto.
Qed.

End Runs.

Lemma returns_bind {S A B} (m : M S A) (k : A -> M S B) :
  returns m -> (forall a, returns (k a)) -> returns (bind m k).
Proof.
  intros Hm Hk s. destruct (Hm s) as [a Ha].
  rewrite (out_bind _ _ _ a Ha). apply Hk.
Qed.

Lemma returns_uncaught m : returns (uncaught m).
Proof. intros s. exists tt. apply uncaught_returns. Qed.

Lemma returns_unit {S} (m : M S unit) s : returns m -> out (m s) = Return tt.
Proof. intros H. destruct (H s) as [[] Ha]. exact Ha. Qed.

(** The rest of a turn of the event loop, after the handler. *)
Ltac resume_returns_script :=
  let i := fresh "i" in let rest := fresh "rest" in let IH := fresh "IH" in
  intros awaiting; induction awaiting as [|i rest IH]; cbn;
  [ intros s; eexists; reflexivity
  | apply returns_bind; [intros s; eexists; reflexivity|]; intros s0;
    apply returns_bind; [|intros _; exact IH];
    destruct (promise_of i (media s0));
    [ intros s; eexists; reflexivity
    | apply returns_bind; [intros s; eexists; reflexivity|];
      intros _; apply returns_uncaught ] ].

Ltac resume_inert_script :=
  let i := fresh "i" in let rest := fresh "rest" in let IH := fresh "IH" in
  intros awaiting; induction awaiting as [|i rest IH]; cbn; [apply inert_ret|];
  inert_auto.

Ltac dispatch_returns_script resume_returns :=
  intros e s; apply returns_unit;
  apply returns_bind; [apply returns_uncaught|]; intros _;
  apply returns_bind; [apply returns_uncaught|]; intros _;
  apply returns_bind; [intros s'; eexists; reflexivity|]; intros s';
  apply returns_bind; [apply resume_returns|]; intros _;
  apply returns_uncaught.

(** *** The voice page *)

Lemma voice_resume_returns awaiting : returns (VoiceSession.resume awaiting).
Proof. revert awaiting. resume_returns_script. Qed.

Lemma voice_resume_inert awaiting : inert (VoiceSession.resume awaiting).
Proof. revert awaiting. resume_inert_script. Qed.

#[local] Hint Resolve voice_resume_inert : inert.

Lemma voice_unmount_inert : inert VoiceSession.unmount.
Proof. inert_auto. Qed.

#[local] Hint Resolve voice_unmount_inert : inert.

Lemma voice_render_inert fuel : inert (VoiceSession.render fuel).
Proof. induction fuel as [|fuel IH]; cbn [VoiceSession.render]; inert_auto. Qed.

#[local] Hint Resolve voice_render_inert : inert.

Lemma voice_commit_inert `{Runtime} : inert VoiceSession.commit.
Proof. inert_auto. Qed.

#[local] Hint Resolve voice_commit_inert : inert.

Lemma voice_dispatch_returns `{Runtime} e s : out (VoiceSession.dispatch e s) = Return tt.
Proof. revert e s. dispatch_returns_script voice_resume_returns. Qed.

Lemma voice_handle_inert `{Runtime} e :
  is_open e = false -> is_abnormal_close e = false -> inert (VoiceSession.handle e).
Proof.
  intros Ho Ha. destruct e; try discriminate; try solve [inert_auto].
  cbn in Ha. apply negb_false_iff in Ha.
  unfold VoiceSession.handle, onclose. rewrite Ha. inert_auto.
Qed.

Lemma voice_dispatch_inert `{Runtime} e :
  is_open e = false -> is_abnormal_close e = false -> inert (VoiceSession.dispatch e).
Proof.
  intros Ho Ha. pose proof (voice_handle_inert e Ho Ha).
  unfold VoiceSession.dispatch. inert_auto.
Qed.

Lemma voice_dispatch_abnormal `{Runtime} ws code s :
  code <> 1000 ->
  let count := reconnectCountRef (refs s) in
  let r := VoiceSession.dispatch (WsClose ws code) s in
  if (count <? WS_MAX_RETRIES)%N then
    connection (final r) = ((count + 1)%N, "reconnecting")
    /\ reconnect_delays (calls r)
       = [Z.min (WS_RECONNECT_BASE_MS * 2 ^ Z.of_N count) WS_RECONNECT_MAX_MS]
  else
    connection (final r) = (count, "failed") /\ reconnect_delays (calls r) = [].
Proof.
  intros Hcode count r.
  destruct (onclose_abnormal ws code s Hcode) as [Hret Hclose].
  fold count in Hclose. subst r. unfold VoiceSession.dispatch.
  cbn [VoiceSession.handle].
  rewrite (final_bind _ _ _ tt), (calls_bind _ _ _ tt) by apply uncaught_returns.
  rewrite uncaught_same by exact Hret.
  set (r1 := (set_readyState ws (fun _ => CLOSED) ;; onclose code)%handler s) in *.
  assert (Hrest : inert (uncaught VoiceSession.commit ;;
                         s0 <- read ;;
                         VoiceSession.resume (awaitingStop (susp s0)) ;;
                         uncaught VoiceSession.commit)%handler) by inert_auto.
  destruct (Hrest (final r1)) as [Hconn Hdel].
  rewrite reconnect_delays_app, Hdel, app_nil_r, Hconn. exact Hclose.
Qed.

(** *** The camera page *)

Lemma camera_resume_returns awaiting : returns (CameraSession.resume awaiting).
Proof. revert awaiting. resume_returns_script. Qed.

Lemma camera_resume_inert awaiting : inert (CameraSession.resume awaiting).
Proof. revert awaiting. resume_inert_script. Qed.

#[local] Hint Resolve camera_resume_inert : inert.

Lemma camera_unmount_inert : inert CameraSession.unmount.
Proof. inert_auto. Qed.

#[local] Hint Resolve camera_unmount_inert : inert.

Lemma camera_render_inert fuel : inert (CameraSession.render fuel).
Proof. induction fuel as [|fuel IH]; cbn [CameraSession.render]; inert_auto. Qed.

#[local] Hint Resolve camera_render_inert : inert.

Lemma camera_commit_inert `{Runtime} : inert CameraSession.commit.
Proof. inert_auto. Qed.

#[local] Hint Resolve camera_commit_inert : inert.

Lemma camera_dispatch_returns `{Runtime} e s : out (CameraSession.dispatch e s) = Return tt.
Proof. revert e s. dispatch_returns_script camera_resume_returns. Qed.

Lemma camera_handle_inert `{Runtime} e :
  is_open e = false -> is_abnormal_close e = false -> inert (CameraSession.handle e).
Proof.
  intros Ho Ha. destruct e; try discriminate; try solve [inert_auto].
  cbn in Ha. apply negb_false_iff in Ha.
  unfold CameraSession.handle, onclose. rewrite Ha. inert_auto.
Qed.

Lemma camera_dispatch_inert `{Runtime} e :
  is_open e = false -> is_abnormal_close e = false -> inert (CameraSession.dispatch e).
Proof.
  intros Ho Ha. pose proof (camera_handle_inert e Ho Ha).
  unfold CameraSession.dispatch. inert_auto.
Qed.

Lemma camera_dispatch_abnormal `{Runtime} ws code s :
  code <> 1000 ->
  let count := reconnectCountRef (refs s) in
  let r := CameraSession.dispatch (WsClose ws code) s in
  if (count <? WS_MAX_RETRIES)%N then
    connection (final r) = ((count + 1)%N, "reconnecting")
    /\ reconnect_delays (calls r)
       = [Z.min (WS_RECONNECT_BASE_MS * 2 ^ Z.of_N count) WS_RECONNECT_MAX_MS]
  else
    connection (final r) = (count, "failed") /\ reconnect_delays (calls r) = [].
Proof.
  intros Hcode count r.
  destruct (onclose_abnormal ws code s Hcode) as [Hret Hclose].
  fold count in Hclose. subst r. unfold CameraSession.dispatch.
  cbn [CameraSession.handle].
  rewrite (final_bind _ _ _ tt), (calls_bind _ _ _ tt) by apply uncaught_returns.
  rewrite uncaught_same by exact Hret.
  set (r1 := (set_readyState ws (fun _ => CLOSED) ;; onclose code)%handler s) in *.
  assert (Hrest : inert (uncaught CameraSession.commit ;;
                         s0 <- read ;;
                         CameraSession.resume (awaitingStop (susp s0)) ;;
                         uncaught CameraSession.commit)%handler) by inert_auto.
  destruct (Hrest (final r1)) as [Hconn Hdel].
  rewrite reconnect_delays_app, Hdel, app_nil_r, Hconn. exact Hclose.
Qed.

(** ** Reconnection with backoff *)

Lemma backoff_prefix n :
  List.map backoff (seq 0 (Nat.min n 5)) = firstn n [1000; 2000; 4000; 8000; 16000].
Proof.
  do 5 (destruct n as [|n]; [reflexivity|]).
  rewrite Nat.min_r by lia. destruct n; reflexivity.
Qed.

(** What a run without an open does on either page. *)
Lemma run_backoff (dispatch : event -> M state unit) :
  (forall e s, out (dispatch e s) = Return tt) ->
  (forall e, is_open e = false -> is_abnormal_close e = false -> inert (dispatch e)) ->
  (forall ws code s, code <> 1000 ->
     let count := reconnectCountRef (refs s) in
     let r := dispatch (WsClose ws code) s in
     if (count <? WS_MAX_RETRIES)%N then
       connection (final r) = ((count + 1)%N, "reconnecting")
       /\ reconnect_delays (calls r)
          = [Z.min (WS_RECONNECT_BASE_MS * 2 ^ Z.of_N count) WS_RECONNECT_MAX_MS]
     else
       connection (final r) = (count, "failed") /\ reconnect_delays (calls r) = []) ->
  forall es s,
    reconnectCountRef (refs s) = 0%N -> no_open es = true ->
    let n := abnormal_closes es in
    let r := run_with dispatch es s in
    reconnect_delays (calls r) = List.map backoff (seq 0 (Nat.min n 5))
    /\ reconnect_delays (calls r) = firstn n [1000; 2000; 4000; 8000; 16000]
    /\ (length (reconnect_delays (calls r)) <= 5)%nat
    /\ ((5 < n)%nat -> wsStatus (ui (final r)) = "failed").
Proof.
  intros Hret Hinert Habn es s Hc Hno n r.
  destruct (run_with_backoff dispatch Hret Hinert Habn es s 0%nat Hc) as (H1 & H2 & H3);
    [lia | exact Hno |].
  cbn zeta in H1, H2, H3. fold n in H1, H2, H3. fold r in H1, H2, H3.
  rewrite Nat.sub_0_r in H1.
  split; [exact H1|]. split; [rewrite H1; apply backoff_prefix|].
  split.
  - rewrite H1, length_map, length_seq. lia.
  - intros Hn. rewrite H3. destruct n as [|m]; [lia|].
    destruct (Nat.leb_spec (0 + Datatypes.S m) 5); [lia|reflexivity].
Qed.


(** ** Close codes *)

(** C2. A close with code 1000 changes nothing and calls nothing: no
    reconnect is scheduled, status and retry counter stay as they are,
    whatever the counter; and on both pages the whole turn of the event
    loop for such a close leaves the connection alone.  A close with any
    other code takes the backoff path: below 5 retries the status becomes
    ['reconnecting'], the counter goes up by one and one reconnect is
    scheduled after [min(1000 * 2^count, 16000)] ms; from 5 retries on the
    status becomes ['failed'] and nothing is scheduled. *)
Theorem onclose_by_code `{Runtime} (code : Z) (s : state) (ws : nat) :
  let count := reconnectCountRef (refs s) in
  let r := onclose code s in
  out r = Return tt /\
  if code =? 1000 then
    final r = s /\ calls r = []
    /\ inert (VoiceSession.dispatch (WsClose ws code))
    /\ inert (CameraSession.dispatch (WsClose ws code))
  else if (count <? 5)%N then
    wsStatus (ui (final r)) = "reconnecting"
    /\ reconnectCountRef (refs (final r)) = (count + 1)%N
    /\ calls r = [set_timeout (Datatypes.S (timerIds (net s))) cb_connectWs
                    (Z.min (1000 * 2 ^ Z.of_N count) 16000)]
    /\ reconnectTimerRef (refs (final r)) = Some (Datatypes.S (timerIds (net s)))
  else
    wsStatus (ui (final r)) = "failed"
    /\ reconnectCountRef (refs (final r)) = count
    /\ calls r = [].
Proof.
  intros count r. subst r count. unfold onclose.
  destruct (code =? 1000) eqn:Hcode.
  - do 3 (split; [reflexivity|]). split.
    + apply voice_dispatch_inert; [reflexivity|]. cbn. rewrite Hcode. reflexivity.
    + apply camera_dispatch_inert; [reflexivity|]. cbn. rewrite Hcode. reflexivity.
  - cbn -[Z.pow Z.min Z.mul N.ltb N.add Z.of_N].
    unfold WS_MAX_RETRIES, WS_RECONNECT_BASE_MS, WS_RECONNECT_MAX_MS.
    destruct (reconnectCountRef (refs s) <? 5)%N; repeat split; reflexivity.
Qed.

(** ** Successful open, and Retry *)

Lemma voice_dispatch_open `{Runtime} ws s :
  connection (final (VoiceSession.dispatch (WsOpen ws) s)) = (0%N, "connected").
Proof.
  unfold VoiceSession.dispatch. cbn [VoiceSession.handle].
  rewrite (final_bind _ _ _ tt) by apply uncaught_returns.
  rewrite uncaught_same by reflexivity.
  set (r1 := (set_readyState ws (fun _ => OPEN) ;; onopen)%handler s).
  assert (Hrest : inert (uncaught VoiceSession.commit ;;
                         s0 <- read ;;
                         VoiceSession.resume (awaitingStop (susp s0)) ;;
                         uncaught VoiceSession.commit)%handler) by inert_auto.
  destruct (Hrest (final r1)) as [Hconn _]. rewrite Hconn. reflexivity.
Qed.


(** ** Inbound frames *)

(** C7. A frame whose payload does not parse is logged and dropped, on
    both pages: the handler returns, its only call is the [console.error],
    and the state after is the state before, so the voice state, the
    connection status, the transcript and the metrics are untouched. *)
Theorem malformed_frame_dropped `{Runtime} (data : frame_data) (s : state) :
  parse data = None ->
  let log := [console_error "Failed to parse WebSocket message:"] in
  (let r := VoiceSession.onmessage data s in
   final r = s /\ calls r = log /\ out r = Return tt)
  /\
  (let r := CameraSession.onmessage data s in
   final r = s /\ calls r = log /\ out r = Return tt).
Proof.
  intros Hparse log.
  unfold VoiceSession.onmessage, CameraSession.onmessage, Session.onmessage.
  rewrite Hparse. repeat split; reflexivity.
Qed.

Lemma welcome_type data :
  Js.is_string (Js.member data "type") "welcome" = true ->
  Js.get data "type" = Some (Js.member data "type").
Proof.
  unfold Js.get. destruct data; cbn; try discriminate; reflexivity.
Qed.

(** C10. A welcome frame in which [message] and [scenario.opening] are
    both absent or falsy puts the text [Let's begin.] on display as the AI
    question, on both pages, and that same text is what is handed to
    speech synthesis when the welcome is played (the played-flag is not
    set and the browser has speech synthesis). *)
Theorem welcome_defaults `{Runtime} (frame : frame_data) (data : Js.value) (s : state) :
  parse frame = Some data ->
  Js.is_string (Js.member data "type") "welcome" = true ->
  Js.truthy (Js.member data "message") = false ->
  Js.truthy (Js.get_opt (Js.member data "scenario") "opening") = false ->
  let shown := Js.str "Let's begin." in
  let played := if welcomePlayedRef (refs s) then []
                else if speechSynthesis (synth s) then [shown] else [] in
  (let r := VoiceSession.onmessage frame s in
   aiQuestion (ui (final r)) = shown /\ spoken (calls r) = played)
  /\
  (let r := CameraSession.onmessage frame s in
   aiQuestion (ui (final r)) = shown /\ spoken (calls r) = played).
Proof.
  intros Hparse Htype Hmsg Hopening shown played. subst shown played.
  unfold VoiceSession.onmessage, CameraSession.onmessage, Session.onmessage.
  rewrite Hparse, (welcome_type data Htype), Htype.
  unfold on_welcome, welcome_message, Js.or. rewrite Hmsg, Hopening.
  destruct s as [cur u [tr [tm|] w rc rt [|] aa] m a sp [[|] iv] b su cd lf cam sd];
    cbn; repeat split; reflexivity.
Qed.

(** ** Submitting a turn *)

Lemma trimStart_all_ws t : forallb Js.isTrimmed t = true -> Js.trimStart t = [].
Proof.
  induction t as [|c t IH]; [reflexivity|]. cbn. intros Hall.
  apply andb_true_iff in Hall as [Hc Ht]. rewrite Hc. apply IH, Ht.
Qed.

Lemma trim_all_ws t : forallb Js.isTrimmed t = true -> Js.trim t = [].
Proof.
  intros Hall. unfold Js.trim, Js.trimEnd. rewrite (trimStart_all_ws t Hall). reflexivity.
Qed.

Lemma turn_text_spec s :
  let trimmed := Js.trim (transcriptRef (refs s)) in
  turn_text s <> []
  /\ (trimmed = [] -> turn_text s = FALLBACK)
  /\ (trimmed <> [] -> turn_text s = trimmed).
Proof.
  unfold turn_text. cbn zeta.
  destruct (Js.trim (transcriptRef (refs s))) as [|c t]; cbn.
  - repeat split; [discriminate | congruence].
  - repeat split; [discriminate | discriminate].
Qed.

(** C4. A turn submitted over an open socket sends exactly one
    [user_audio_transcript] frame, and its text is never empty: it is the
    fallback phrase, verbatim, when the transcript trims to nothing (an
    empty transcript, or one of white space only), and the trimmed
    transcript otherwise.  This is so for [sendTranscript] of the voice
    page and for the end of [handleHoldEnd] of the camera page. *)
Theorem submitted_text_nonempty (s : state) (ws : nat) (session_id : Js.jsstring) :
  wsRef (refs s) = Some ws -> socket_open s = true ->
  let trimmed := Js.trim (transcriptRef (refs s)) in
  let text := turn_text s in
  FALLBACK = Js.lit "I understand your point and would like to respond..."
  /\ text <> []
  /\ (trimmed = [] -> text = FALLBACK)
  /\ (forallb Js.isTrimmed (transcriptRef (refs s)) = true -> text = FALLBACK)
  /\ (trimmed <> [] -> text = trimmed)
  /\ calls (VoiceSession.sendTranscript s)
     = [ws_send ws (user_audio_transcript text);
        set_timeout (Datatypes.S (timerIds (net s))) cb_thinkingSlow 4000]
  /\ (currentSession s = Some session_id ->
      sent (calls (CameraSession.after_stopRecording s))
      = [user_audio_transcript text]).
Proof.
  intros Hws Hopen trimmed text.
  destruct (turn_text_spec s) as (Hne & Hempty & Hfull).
  split; [reflexivity|]. split; [exact Hne|]. split; [exact Hempty|].
  split; [intros Hall; apply Hempty, trim_all_ws, Hall|]. split; [exact Hfull|].
  split.
  - unfold VoiceSession.sendTranscript. cbn. rewrite Hws, Hopen. reflexivity.
  - intros Hsession. unfold CameraSession.after_stopRecording, stopListening.
    subst text. unfold turn_text.
    destruct s as [cur u r m a [t it [|] [|]] sy b su cd lf cam sd]; cbn in *;
      rewrite Hsession, Hws; unfold socket_open; cbn;
      unfold socket_open in Hopen; cbn in Hopen; rewrite Hws in *; rewrite Hopen;
      reflexivity.
Qed.

(** C5, as the code has it.  When the socket is not open at the moment a
    turn completes, the rest of the handler returns without an exception,
    sends nothing and schedules no timer, its only possible call being the
    stop of speech recognition; and the transcript is left as it is, not
    cleared. *)
Theorem turn_dropped_when_socket_not_open (s : state) :
  socket_open s = false ->
  let r := VoiceSession.after_stopRecording s in
  out r = Return tt
  /\ sent (calls r) = []
  /\ (forall e, In e (calls r) -> e = recognition_stop)
  /\ transcript (speech (final r)) = transcript (speech s)
  /\ transcriptRef (refs (final r)) = transcriptRef (refs s)
  /\ timers (net (final r)) = timers (net s).
Proof.
  intros Hclosed.
  unfold VoiceSession.after_stopRecording, VoiceSession.sendTranscript, stopListening.
  destruct s as [cur u [tr tm w rc rt wp aa] m a [t it [|] [|]] sy b su cd lf cam sd];
    unfold socket_open in *; cbn in *; destruct w as [ws|]; cbn;
    rewrite ?Hclosed; cbn; repeat split; try reflexivity;
    intros e He; cbn in He; intuition congruence.
Qed.

(** ** Properties that a handler preserves *)

Section Preserves.
Variable I : state -> Prop.

Lemma preserves_ret {A} (a : A) : preserves I (ret a).
Proof. intros s H. exact H. Qed.

Lemma preserves_throw {A} e : preserves I (@throw state A e).
Proof. intros s H. exact H. Qed.

Lemma preserves_read : preserves I (@read state).
Proof. intros s H. exact H. Qed.

Lemma preserves_emit e : preserves I (emit e).
Proof. intros s H. exact H. Qed.

Lemma preserves_modify f : (forall s, I s -> I (f s)) -> preserves I (modify f).
Proof. intros Hf s H. apply Hf, H. Qed.

Lemma preserves_bind {A B} (m : M state A) (k : A -> M state B) :
  preserves I m -> (forall a, preserves I (k a)) -> preserves I (bind m k).
Proof.
  intros Hm Hk s H. unfold bind. pose proof (Hm s H) as H1.
  destruct (out (m s)) as [a|e]; cbn; [apply Hk, H1 | exact H1].
Qed.

Lemma preserves_try_catch {A} (m : M state A) h :
  preserves I m -> (forall e, preserves I (h e)) -> preserves I (try_catch m h).
Proof.
  intros Hm Hh s H. unfold try_catch. pose proof (Hm s H) as H1.
  destruct (out (m s)) as [a|e]; cbn; [exact H1 | apply Hh, H1].
Qed.

Lemma preserves_when b m : preserves I m -> preserves I (when b m).
Proof. intros H. destruct b; [exact H | apply preserves_ret]. Qed.

Lemma preserves_uncaught m : preserves I m -> preserves I (uncaught m).
Proof.
  intros H. apply preserves_try_catch; [exact H|]. intros e. apply preserves_emit.
Qed.

Lemma preserves_recorder {A} (m : M AudioRecorder.world A) :
  (forall w s, I s -> I (with_media (fun _ => w) s)) -> preserves I (recorder m).
Proof. intros Hw s H. apply Hw, H. Qed.

Lemma preserves_run_with dispatch :
  (forall e s, out (dispatch e s) = Return tt) ->
  (forall e, preserves I (dispatch e)) ->
  forall es, preserves I (run_with dispatch es).
Proof.
  intros Hret Hd es. induction es as [|e es IH]; intros s H; [exact H|].
  cbn [run_with]. rewrite (final_bind _ _ _ tt) by apply Hret. apply IH, Hd, H.
Qed.

End Preserves.

Create HintDb preserves discriminated.

Ltac preserves_step :=
  cbv beta zeta;
  first
  [ assumption
  | solve [auto 1 with preserves nocore]
  | lazymatch goal with
    | |- preserves _ (bind _ _) => apply preserves_bind; [|intros ?]
    | |- preserves _ (ret _) => apply preserves_ret
    | |- preserves _ (throw _) => apply preserves_throw
    | |- preserves _ read => apply preserves_read
    | |- preserves _ (emit _) => apply preserves_emit
    | |- preserves _ (modify _) =>
        apply preserves_modify; let H := fresh in intros ? H; exact H
    | |- preserves _ (when _ _) => apply preserves_when
    | |- preserves _ (uncaught _) => apply preserves_uncaught
    | |- preserves _ (try_catch _ _) => apply preserves_try_catch; [|intros ?]
    | |- preserves _ (recorder _) =>
        apply preserves_recorder; let H := fresh in intros ? ? H; exact H
    | |- preserves _ (if ?b then _ else _) => destruct b
    | |- preserves _ (match ?x with _ => _ end) => destruct x
    | |- preserves _ ?m => let h := head_of m in unfold h
    end ].

Ltac preserves_auto := repeat preserves_step.

(** The renders of a page keep what its handlers, its effects and their
    cleanups keep. *)
Ltac voice_render_preserves :=
  let fuel := fresh "fuel" in let IH := fresh "IH" in
  intros fuel; induction fuel as [|fuel IH]; cbn [VoiceSession.render]; preserves_auto.

Ltac camera_render_preserves :=
  let fuel := fresh "fuel" in let IH := fresh "IH" in
  intros fuel; induction fuel as [|fuel IH]; cbn [CameraSession.render]; preserves_auto.

(** ** The welcome and the played-flag *)

(** With the played-flag set, a welcome frame is displayed and not spoken. *)
Lemma welcome_guard `{Runtime} (frame : frame_data) (data : Js.value) (s : state) :
  parse frame = Some data ->
  Js.is_string (Js.member data "type") "welcome" = true ->
  welcomePlayedRef (refs s) = true ->
  spoken (calls (VoiceSession.onmessage frame s)) = []
  /\ spoken (calls (CameraSession.onmessage frame s)) = [].
Proof.
  intros Hparse Htype Hplayed.
  unfold VoiceSession.onmessage, CameraSession.onmessage, Session.onmessage.
  rewrite Hparse, (welcome_type data Htype), Htype. unfold on_welcome.
  destruct s as [cur u [tr [tm|] w rc rt wp aa] m a sp sy b su cd lf cam sd];
    cbn in Hplayed; subst wp; cbn; split; reflexivity.
Qed.

(** ** The renders that follow a change *)

(** What React makes of an effect or a cleanup. *)
Lemma guarded_spec (m : M state unit) (s : state) :
  final (guarded m s) = final (m s)
  /\ ((out (m s) = Return tt /\ out (guarded m s) = Return false
       /\ calls (guarded m s) = calls (m s))
      \/ (exists e, out (m s) = Throw e /\ out (guarded m s) = Return true
                    /\ calls (guarded m s) = calls (m s) ++ [console_error e])).
Proof.
  unfold guarded, try_catch, bind.
  destruct (out (m s)) as [[]|e] eqn:E; cbn.
  - split; [reflexivity|]. left. rewrite app_nil_r. auto.
  - split; [reflexivity|]. right. exists e. auto.
Qed.

(** The cleanup of the connect effect of the voice page: what it
    leaves alone, and what it has done when it returns. *)
Lemma voice_cleanup_spec (s : state) :
  let r := VoiceSession.connect_cleanup s in
  life (final r) = life s
  /\ currentSession (final r) = currentSession s
  /\ connectDeps (final r) = connectDeps s
  /\ isHolding (ui (final r)) = isHolding (ui s)
  /\ isRecording (ui (final r)) = isRecording (ui s)
  /\ welcomePlayedRef (refs (final r)) = false
  /\ (out r = Return tt ->
      VoiceStore.writes (voice (final r)) = (VoiceStore.writes (voice s) + 1 + 1)%N).
Proof.
  destruct s as [cur u [tr [tm|] [w|] rc [rt|] wp aa] m a sp [[|] iv] b su cd lf cam sd];
    cbn; repeat split; try reflexivity; intros; discriminate.
Qed.

(** The connect effect of the voice page. *)
Lemma voice_effect_spec (d : bool * bool * N) (s : state) :
  let r := VoiceSession.connect_effect d s in
  life (final r) = life s
  /\ currentSession (final r) = currentSession s
  /\ ui (final r) = ui s
  /\ voice (final r) = voice s
  /\ welcomePlayedRef (refs (final r)) = welcomePlayedRef (refs s)
  /\ (out r = Return tt -> currentSession s <> None -> connectDeps (final r) = Some d).
Proof.
  destruct s as [[[|c id]|] u [tr tm [w|] rc rt wp aa] m a sp sy b su cd lf cam sd];
    cbn; repeat split; try reflexivity; intros; try discriminate; try contradiction.
Qed.

Lemma bind_read {A} (k : state -> M state A) (s : state) : bind read k s = k s s.
Proof. unfold bind, read. cbn. destruct (k s s) as [s' log [a|e]]; reflexivity. Qed.

Lemma voice_unmount_life (s : state) :
  life (final (VoiceSession.unmount s)) = Unmounted.
Proof.
  unfold VoiceSession.unmount.
  rewrite (final_bind _ _ _ s) by reflexivity. cbn [read final].
  rewrite (final_bind _ _ _ tt) by reflexivity. cbn [modify final].
  destruct (connectDeps s) as [d|]; [|reflexivity].
  rewrite (final_bind _ _ _ tt) by reflexivity. cbn [modify final].
  destruct (guarded_spec VoiceSession.connect_cleanup
              (with_connectDeps (fun _ => None) (with_life (fun _ => Unmounted) s)))
    as [Hfinal [(_ & Hout & _)|(e & _ & Hout & _)]];
    rewrite (final_bind _ _ _ _ Hout); cbn [ret final]; rewrite Hfinal;
    destruct (voice_cleanup_spec
                (with_connectDeps (fun _ => None) (with_life (fun _ => Unmounted) s)))
      as (Hlife & _); exact Hlife.
Qed.



(** *** Handlers that speak nothing *)
















(** *** The played-flag within a mount *)
















Lemma uncaught_final_kept (m : M state unit) (s : state) :
  final (uncaught m s) = final (m s).
Proof. unfold uncaught, try_catch. destruct (out (m s)); reflexivity. Qed.




(** ** Concrete runs *)

(** A recording hook is stopped: with the stop event after 120 ms the
    promise carries the clip, and with no stop event it is resolved with
    null once 5000 ms are over. *)
Lemma stopRecording_always_resolves_witness :
  promise_of 0 (exec [DataAvailable [1; 2; 3]%N; Elapse 120; StopEvent]
                     (final (stopRecording Scenario.recording)))
  = Resolved (Some [1; 2; 3]%N)
  /\ promise_of 0 (exec [Elapse 2500; Elapse 2500] (final (stopRecording Scenario.recording)))
     = Resolved None.
Proof.
  destruct (stopRecording_always_resolves Scenario.recording) as (_ & _ & Hactive).
  destruct (Hactive eq_refl) as [_ Hruns]. split.
  - apply (proj2 (proj2 (Hruns _)) [DataAvailable [1; 2; 3]%N; Elapse 120] []);
      [reflexivity | reflexivity | vm_compute; reflexivity].
  - apply (proj1 (proj2 (Hruns _))); [reflexivity | vm_compute; discriminate].
Defined.

(** A refused microphone: [startRecording] returns false, state idle. *)
Lemma startRecording_never_throws_witness :
  out (startRecording Scenario.refused AudioRecorder.initial) = Return false
  /\ VoiceStore.state
       (AudioRecorder.voice (final (startRecording Scenario.refused AudioRecorder.initial)))
     = "idle".
Proof.
  pose proof (startRecording_never_throws Scenario.refused AudioRecorder.initial) as Hstart.
  cbv zeta in Hstart. destruct Hstart as [_ (H1 & H2 & _)].
  split; [exact H1 | exact H2].
Defined.

(** A close with code 1000 on the failed page changes nothing. *)
Lemma onclose_by_code_witness :
  final (onclose 1000 Scenario.failed_voice) = Scenario.failed_voice
  /\ calls (onclose 1000 Scenario.failed_voice) = [].
Proof.
  pose proof (@onclose_by_code Json.runtime 1000 Scenario.failed_voice 5%nat) as Hclose.
  cbv zeta in Hclose. destruct Hclose as [_ (H1 & H2 & _)].
  split; [exact H1 | exact H2].
Defined.



(** A truncated frame is dropped. *)
Lemma malformed_frame_dropped_witness :
  final (VoiceSession.onmessage (rt := Json.runtime) Scenario.broken_frame Scenario.fresh)
  = Scenario.fresh.
Proof.
  pose proof (@malformed_frame_dropped Json.runtime Scenario.broken_frame Scenario.fresh
                eq_refl) as Hdrop.
  cbv zeta in Hdrop. destruct Hdrop as [(H1 & _) _].
  exact H1.
Defined.

(** A welcome with a scenario that has no opening. *)
Lemma welcome_defaults_witness :
  aiQuestion (ui (final (VoiceSession.onmessage (rt := Json.runtime)
                           Scenario.bare_welcome_frame Scenario.fresh)))
  = Js.str "Let's begin.".
Proof.
  destruct (@welcome_defaults Json.runtime Scenario.bare_welcome_frame
              (Js.VObject [(Js.lit "type", Js.str "welcome");
                           (Js.lit "scenario",
                            Js.VObject [(Js.lit "title", Js.str "Interview")])])
              Scenario.fresh eq_refl eq_refl eq_refl eq_refl) as [(H1 & _) _].
  exact H1.
Defined.

(** A transcript of spaces only is sent as the fallback phrase. *)
Lemma submitted_text_nonempty_witness :
  transcriptRef (refs Scenario.connected_voice) = Js.lit "   "
  /\ turn_text Scenario.connected_voice = FALLBACK.
Proof.
  destruct (submitted_text_nonempty Scenario.connected_voice 0%nat [] eq_refl eq_refl)
    as (_ & _ & H1 & _).
  split; [reflexivity | apply H1; reflexivity].
Defined.

(** The held turn of [Scenario.held_turn] on the page of the demo, which
    has no socket. *)
Lemma turn_dropped_when_socket_not_open_witness :
  transcript (speech (final (VoiceSession.after_stopRecording Scenario.released_demo)))
  = Js.lit " hello"
  /\ sent (calls (VoiceSession.after_stopRecording Scenario.released_demo)) = [].
Proof.
  destruct (turn_dropped_when_socket_not_open Scenario.released_demo eq_refl)
    as (_ & H0 & _ & H1 & _).
  split; [exact H1 | exact H0].
Defined.

(** The claim of C5 fails on [Scenario.held_turn] on the voice page of
    the demo.  The page is mounted and no socket is open when the
    recorder stops and the turn completes; nothing is sent, and the
    transcript is still there afterwards. *)
Lemma transcript_kept_when_socket_not_open :
  let r := VoiceSession.dispatch (rt := Json.runtime)
             (Recorder AudioRecorder.StopEvent) Scenario.released_demo in
  is_mounted Scenario.released_demo = true
  /\ socket_open Scenario.released_demo = false
  /\ awaitingStop (susp Scenario.released_demo) = [0%nat]
  /\ awaitingStop (susp (final r)) = []
  /\ is_mounted (final r) = true
  /\ sent (calls r) = []
  /\ transcript (speech (final r)) = Js.lit " hello"
  /\ transcript (speech (final r)) <> [].
Proof. vm_compute. repeat split; try reflexivity; discriminate. Qed.


(* ===================================================================== *)
(** * Further properties *)
(* ===================================================================== *)

(** ** The connection over any run *)

Lemma camera_dispatch_open `{Runtime} ws s :
  connection (final (CameraSession.dispatch (WsOpen ws) s)) = (0%N, "connected").
Proof.
  unfold CameraSession.dispatch. cbn [CameraSession.handle].
  rewrite (final_bind _ _ _ tt) by apply uncaught_returns.
  rewrite uncaught_same by reflexivity.
  set (r1 := (set_readyState ws (fun _ => OPEN) ;; onopen)%handler s).
  assert (Hrest : inert (uncaught CameraSession.commit ;;
                         s0 <- read ;;
                         CameraSession.resume (awaitingStop (susp s0)) ;;
                         uncaught CameraSession.commit)%handler) by inert_auto.
  destruct (Hrest (final r1)) as [Hconn _]. rewrite Hconn. reflexivity.
Qed.

Lemma connection_ok_spec s :
  connection_ok s
  = ((fst (connection s) <=? WS_MAX_RETRIES)%N && known_status (snd (connection s))).
Proof. reflexivity. Qed.

(** One turn of the event loop keeps the connection in order, given what
    it does on an open, on an abnormal close, and otherwise. *)
Lemma dispatch_connection_ok (dispatch : event -> M state unit) :
  (forall ws s, connection (final (dispatch (WsOpen ws) s)) = (0%N, "connected")) ->
  (forall e, is_open e = false -> is_abnormal_close e = false -> inert (dispatch e)) ->
  (forall ws code s, code <> 1000 ->
     let count := reconnectCountRef (refs s) in
     let r := dispatch (WsClose ws code) s in
     if (count <? WS_MAX_RETRIES)%N then
       connection (final r) = ((count + 1)%N, "reconnecting")
       /\ reconnect_delays (calls r)
          = [Z.min (WS_RECONNECT_BASE_MS * 2 ^ Z.of_N count) WS_RECONNECT_MAX_MS]
     else
       connection (final r) = (count, "failed") /\ reconnect_delays (calls r) = []) ->
  forall e, preserves (fun s => connection_ok s = true) (dispatch e).
Proof.
  intros Hopen Hinert Habn e s Hok.
  rewrite connection_ok_spec in *.
  destruct (is_open e) eqn:Ho.
  { destruct e; try discriminate. rewrite Hopen. reflexivity. }
  destruct (is_abnormal_close e) eqn:Ha.
  - destruct e as [| | | | |ws code| | | | | | | | | | | | | |]; try discriminate.
    cbn in Ha. apply negb_true_iff, Z.eqb_neq in Ha.
    pose proof (Habn ws code s Ha) as Hd. cbv zeta in Hd.
    apply andb_true_iff in Hok as [Hcount _]. cbn [connection fst snd] in Hcount.
    unfold WS_MAX_RETRIES in *.
    destruct (N.ltb_spec (reconnectCountRef (refs s)) 5) as [Hlt|Hge];
      destruct Hd as [-> _]; cbn [fst snd]; apply andb_true_iff; split;
      try reflexivity; apply N.leb_le; apply N.leb_le in Hcount; lia.
  - destruct (Hinert e Ho Ha s) as [-> _]. exact Hok.
Qed.

(** X1.  The retry counter never passes 5 and the status is always one of
    ['idle'], ['connected'], ['reconnecting'], ['failed'], in every run of
    events on either page; in particular it never is ['connecting']. *)
Theorem connection_stays_in_order `{Runtime} (es : list event) (s : state) :
  connection_ok s = true ->
  (let s' := final (VoiceSession.run es s) in
   (reconnectCountRef (refs s') <= 5)%N
   /\ known_status (wsStatus (ui s')) = true
   /\ wsStatus (ui s') <> "connecting")
  /\
  (let s' := final (CameraSession.run es s) in
   (reconnectCountRef (refs s') <= 5)%N
   /\ known_status (wsStatus (ui s')) = true
   /\ wsStatus (ui s') <> "connecting").
Proof.
  intros Hok.
  assert (Hread : forall s', connection_ok s' = true ->
            (reconnectCountRef (refs s') <= 5)%N
            /\ known_status (wsStatus (ui s')) = true
            /\ wsStatus (ui s') <> "connecting").
  { intros s' Hs'. unfold connection_ok in Hs'.
    apply andb_true_iff in Hs' as [Hc Hst]. apply N.leb_le in Hc.
    split; [exact Hc|]. split; [exact Hst|].
    intros Heq. rewrite Heq in Hst. discriminate. }
  split; apply Hread.
  - unfold VoiceSession.run.
    refine (preserves_run_with (fun s0 => connection_ok s0 = true) VoiceSession.dispatch
              voice_dispatch_returns _ es s Hok).
    apply dispatch_connection_ok;
      [apply voice_dispatch_open | apply voice_dispatch_inert | apply voice_dispatch_abnormal].
  - unfold CameraSession.run.
    refine (preserves_run_with (fun s0 => connection_ok s0 = true) CameraSession.dispatch
              camera_dispatch_returns _ es s Hok).
    apply dispatch_connection_ok;
      [apply camera_dispatch_open | apply camera_dispatch_inert | apply camera_dispatch_abnormal].
Qed.

Lemma connection_stays_in_order_witness :
  wsStatus (ui (final (VoiceSession.run (rt := Json.runtime)
                         (Scenario.six_closes ++ [ClickRetry; WsOpen 6]) Scenario.fresh)))
  <> "connecting".
Proof.
  destruct (@connection_stays_in_order Json.runtime
              (Scenario.six_closes ++ [ClickRetry; WsOpen 6]) Scenario.fresh eq_refl)
    as [(_ & _ & Hnot) _].
  exact Hnot.
Defined.

(** ** Runs in two parts *)

Lemma run_with_app (dispatch : event -> M state unit) :
  (forall e s, out (dispatch e s) = Return tt) ->
  forall es1 es2 s,
    let r1 := run_with dispatch es1 s in
    final (run_with dispatch (es1 ++ es2) s) = final (run_with dispatch es2 (final r1))
    /\ calls (run_with dispatch (es1 ++ es2) s)
       = calls r1 ++ calls (run_with dispatch es2 (final r1)).
Proof.
  intros Hret es1. induction es1 as [|e es1 IH]; intros es2 s.
  - cbn. split; reflexivity.
  - change ((e :: es1) ++ es2) with (e :: (es1 ++ es2)).
    cbn [run_with]. cbv zeta.
    rewrite !(final_bind _ _ _ tt), !(calls_bind _ _ _ tt) by apply Hret.
    cbv beta.
    destruct (IH es2 (final (dispatch e s))) as [Hf Hc]. cbv zeta in Hf, Hc.
    rewrite Hf, Hc, app_assoc. split; reflexivity.
Qed.

Lemma run_with_snoc_connection (dispatch : event -> M state unit) :
  (forall e s, out (dispatch e s) = Return tt) ->
  forall es e s c,
    (forall s', connection (final (dispatch e s')) = c) ->
    connection (final (run_with dispatch (es ++ [e]) s)) = c.
Proof.
  intros Hret es e s c Hc.
  destruct (run_with_app dispatch Hret es [e] s) as [Hf _]. cbv zeta in Hf.
  rewrite Hf. cbn [run_with].
  rewrite (final_bind _ _ _ tt) by apply Hret. apply Hc.
Qed.

(** A successful open restarts the backoff, whatever came before it. *)
Lemma run_restarts (dispatch : event -> M state unit) :
  (forall e s, out (dispatch e s) = Return tt) ->
  (forall ws s, connection (final (dispatch (WsOpen ws) s)) = (0%N, "connected")) ->
  (forall e, is_open e = false -> is_abnormal_close e = false -> inert (dispatch e)) ->
  (forall ws code s, code <> 1000 ->
     let count := reconnectCountRef (refs s) in
     let r := dispatch (WsClose ws code) s in
     if (count <? WS_MAX_RETRIES)%N then
       connection (final r) = ((count + 1)%N, "reconnecting")
       /\ reconnect_delays (calls r)
          = [Z.min (WS_RECONNECT_BASE_MS * 2 ^ Z.of_N count) WS_RECONNECT_MAX_MS]
     else
       connection (final r) = (count, "failed") /\ reconnect_delays (calls r) = []) ->
  forall es1 ws es2 s,
    no_open es2 = true ->
    reconnect_delays (calls (run_with dispatch ((es1 ++ [WsOpen ws]) ++ es2) s))
    = reconnect_delays (calls (run_with dispatch (es1 ++ [WsOpen ws]) s))
      ++ firstn (abnormal_closes es2) [1000; 2000; 4000; 8000; 16000].
Proof.
  intros Hret Hopen Hinert Habn es1 ws es2 s Hno.
  destruct (run_with_app dispatch Hret (es1 ++ [WsOpen ws]) es2 s) as [_ Hc].
  cbv zeta in Hc. rewrite Hc, reconnect_delays_app. f_equal.
  pose proof (run_with_snoc_connection dispatch Hret es1 (WsOpen ws) s _ (Hopen ws)) as Hconn.
  apply pair_equal_spec in Hconn as [Hcount _].
  destruct (run_backoff dispatch Hret Hinert Habn es2 _ Hcount Hno) as (_ & H2 & _).
  exact H2.
Qed.

(** X2.  After a socket opened, whatever happened before, the reconnect delays
    start again at 1000 ms: the abnormal closes that follow, with no further
    open between them, schedule 1000, 2000, 4000, 8000, 16000 ms and then
    nothing, on both pages. *)
Theorem backoff_restarts_after_open `{Runtime}
    (history : list event) (ws : nat) (later : list event) (s : state) :
  no_open later = true ->
  reconnect_delays (calls (VoiceSession.run ((history ++ [WsOpen ws]) ++ later) s))
  = reconnect_delays (calls (VoiceSession.run (history ++ [WsOpen ws]) s))
    ++ firstn (abnormal_closes later) [1000; 2000; 4000; 8000; 16000]
  /\
  reconnect_delays (calls (CameraSession.run ((history ++ [WsOpen ws]) ++ later) s))
  = reconnect_delays (calls (CameraSession.run (history ++ [WsOpen ws]) s))
    ++ firstn (abnormal_closes later) [1000; 2000; 4000; 8000; 16000].
Proof.
  intros Hno. unfold VoiceSession.run, CameraSession.run. split.
  - exact (run_restarts VoiceSession.dispatch voice_dispatch_returns voice_dispatch_open
             voice_dispatch_inert voice_dispatch_abnormal history ws later s Hno).
  - exact (run_restarts CameraSession.dispatch camera_dispatch_returns camera_dispatch_open
             camera_dispatch_inert camera_dispatch_abnormal history ws later s Hno).
Qed.

Lemma backoff_restarts_after_open_witness :
  reconnect_delays
    (calls (VoiceSession.run (rt := Json.runtime)
              ((firstn 7 Scenario.six_closes ++ [WsOpen 3])
               ++ [WsClose 3 1006; Timer 4; WsClose 4 1006])
              Scenario.fresh))
  = [1000; 2000; 4000; 1000; 2000].
Proof.
  destruct (@backoff_restarts_after_open Json.runtime (firstn 7 Scenario.six_closes) 3%nat
              [WsClose 3 1006; Timer 4; WsClose 4 1006] Scenario.fresh eq_refl) as [Hv _].
  rewrite Hv. vm_compute. reflexivity.
Defined.

(** X3.  Once the retry counter stands at 5, the handlers of the sockets
    schedule no reconnect any more until a socket opens, whatever reaches
    them in between (closes, normal or not, errors, frames, timers, user
    input), and the counter stays at 5, on both pages. *)
Theorem no_reconnect_after_limit `{Runtime} (es : list event) (s : state) :
  reconnectCountRef (refs s) = 5%N ->
  no_open es = true ->
  (let r := VoiceSession.run es s in
   reconnect_delays (calls r) = []
   /\ reconnectCountRef (refs (final r)) = 5%N)
  /\
  (let r := CameraSession.run es s in
   reconnect_delays (calls r) = []
   /\ reconnectCountRef (refs (final r)) = 5%N).
Proof.
  intros Hc Hno.
  assert (Hgen : forall dispatch : event -> M state unit,
    (forall e s, out (dispatch e s) = Return tt) ->
    (forall e, is_open e = false -> is_abnormal_close e = false -> inert (dispatch e)) ->
    (forall ws code s, code <> 1000 ->
       let count := reconnectCountRef (refs s) in
       let r := dispatch (WsClose ws code) s in
       if (count <? WS_MAX_RETRIES)%N then
         connection (final r) = ((count + 1)%N, "reconnecting")
         /\ reconnect_delays (calls r)
            = [Z.min (WS_RECONNECT_BASE_MS * 2 ^ Z.of_N count) WS_RECONNECT_MAX_MS]
       else
         connection (final r) = (count, "failed") /\ reconnect_delays (calls r) = []) ->
    let r := run_with dispatch es s in
    reconnect_delays (calls r) = []
    /\ reconnectCountRef (refs (final r)) = 5%N).
  { intros dispatch Hret Hinert Habn.
    destruct (run_with_backoff dispatch Hret Hinert Habn es s 5%nat Hc) as (H1 & H2 & _);
      [lia | exact Hno |].
    cbv zeta in *. rewrite Nat.sub_diag, Nat.min_0_r in H1.
    split; [exact H1|].
    rewrite H2. rewrite Nat.min_r by lia. reflexivity. }
  split.
  - exact (Hgen VoiceSession.dispatch voice_dispatch_returns voice_dispatch_inert
             voice_dispatch_abnormal).
  - exact (Hgen CameraSession.dispatch camera_dispatch_returns camera_dispatch_inert
             camera_dispatch_abnormal).
Qed.

Lemma no_reconnect_after_limit_witness :
  reconnectCountRef (refs Scenario.failed_voice) = 5%N
  /\ reconnect_delays
       (calls (VoiceSession.run (rt := Json.runtime)
                 [WsClose 6 1006; WsError 7; WsClose 7 1006]
                 Scenario.failed_voice))
     = []
  /\ reconnectCountRef
       (refs (final (VoiceSession.run (rt := Json.runtime)
                       [WsClose 6 1006; WsError 7; WsClose 7 1006]
                       Scenario.failed_voice)))
     = 5%N.
Proof.
  assert (Hcount : reconnectCountRef (refs Scenario.failed_voice) = 5%N)
    by (vm_compute; reflexivity).
  split; [exact Hcount|].
  exact (proj1 (@no_reconnect_after_limit Json.runtime
                  [WsClose 6 1006; WsError 7; WsClose 7 1006]
                  Scenario.failed_voice Hcount eq_refl)).
Defined.

(** ** One socket at a time *)

Lemma others_closed_spec cur socks : forall n,
  others_closed_from cur n socks = true
  <-> (forall i st, socks !! i = Some st -> is_live st = true -> cur = Some (n + i)%nat).
Proof.
  induction socks as [|st0 rest IH]; intros n; cbn [others_closed_from].
  - split; [intros _ i st Hl; destruct i; discriminate | reflexivity].
  - rewrite andb_true_iff, IH. split.
    + intros [Hhead Hrest] [|i] st Hl Hlive; cbn in Hl.
      * injection Hl as ->. rewrite Hlive in Hhead. cbn in Hhead.
        unfold is_current in Hhead. destruct cur as [c|]; [|discriminate].
        apply Nat.eqb_eq in Hhead. subst c. f_equal. lia.
      * rewrite (Hrest i st Hl Hlive). f_equal. lia.
    + intros Hall. split.
      * destruct (is_live st0) eqn:Hlive; [|reflexivity].
        rewrite (Hall 0%nat st0 eq_refl Hlive). cbn.
        rewrite Nat.add_0_r. apply Nat.eqb_refl.
      * intros i st Hl Hlive. rewrite (Hall (Datatypes.S i) st Hl Hlive). f_equal. lia.
Qed.

Lemma one_live_socket_spec s :
  one_live_socket s = true
  <-> (forall ws st, sockets (net s) !! ws = Some st -> is_live st = true ->
                     wsRef (refs s) = Some ws).
Proof. unfold one_live_socket. rewrite others_closed_spec. reflexivity. Qed.

(** A change of one socket's state that makes no socket live. *)
Lemma set_readyState_one_live ws f :
  (forall st, is_live (f st) = true -> is_live st = true) ->
  preserves (fun s => one_live_socket s = true) (set_readyState ws f).
Proof.
  intros Hf s Hs. rewrite one_live_socket_spec in *.
  intros i st Hl Hlive. cbn in Hl, Hlive |- *.
  destruct (decide (i = ws)) as [->|Hne].
  - rewrite list_lookup_alter_eq in Hl.
    destruct (sockets (net s) !! ws) as [st0|] eqn:Hst0; [|discriminate].
    cbn in Hl. injection Hl as <-. apply (Hs ws st0 Hst0), Hf, Hlive.
  - rewrite list_lookup_alter_ne in Hl by congruence. apply (Hs i st Hl Hlive).
Qed.

Lemma close_one_live ws code :
  preserves (fun s => one_live_socket s = true) (close ws code).
Proof.
  unfold close. apply preserves_bind; [|intros _; apply preserves_emit].
  apply set_readyState_one_live. intros [| | |]; cbn; congruence.
Qed.

Lemma closed_one_live ws :
  preserves (fun s => one_live_socket s = true) (set_readyState ws (fun _ => CLOSED)).
Proof. apply set_readyState_one_live. intros st; cbn; congruence. Qed.

(** [connectWs] closes the socket it replaces. *)
Lemma connectWs_one_live :
  preserves (fun s => one_live_socket s = true) connectWs.
Proof.
  intros s Hs. rewrite one_live_socket_spec in *.
  destruct s as [cur u r m a sp sy [socks tm ids] su cd lf cam sd].
  destruct r as [tr tt0 w rc rt wp aa]. cbn in Hs.
  assert (Hclosed : forall i st,
            match w with
            | Some c => alter (fun st => match st with
                                         | CONNECTING | OPEN => CLOSING
                                         | _ => st
                                         end) c socks
            | None => socks
            end !! i = Some st -> is_live st = false).
  { intros i st Hl. destruct (is_live st) eqn:Hlive; [|reflexivity]. exfalso.
    destruct w as [c|].
    - destruct (decide (i = c)) as [->|Hne].
      + rewrite list_lookup_alter_eq in Hl.
        destruct (socks !! c) as [[| | |]|]; cbn in Hl; try discriminate;
          injection Hl as <-; discriminate.
      + rewrite list_lookup_alter_ne in Hl by congruence.
        specialize (Hs i st Hl Hlive). congruence.
    - specialize (Hs i st Hl Hlive). discriminate. }
  unfold connectWs. destruct cur as [[|ch id]|].
  - (* the session id is empty: nothing is opened *)
    intros i st Hl Hlive. destruct w as [c|]; cbn in Hl |- *;
      rewrite (Hclosed i st Hl) in Hlive; discriminate.
  - intros i st Hl Hlive. destruct w as [c|]; cbn in Hl |- *.
    + rewrite length_alter in *.
      destruct (decide (i < length socks)%nat) as [Hlt|Hge].
      * rewrite lookup_app_l in Hl by (rewrite length_alter; exact Hlt).
        rewrite (Hclosed i st Hl) in Hlive. discriminate.
      * rewrite lookup_app_r in Hl by (rewrite length_alter; lia).
        rewrite length_alter in Hl.
        destruct (i - length socks)%nat as [|k] eqn:Hk; [|destruct k; discriminate].
        f_equal. lia.
    + destruct (decide (i < length socks)%nat) as [Hlt|Hge].
      * rewrite lookup_app_l in Hl by exact Hlt.
        rewrite (Hclosed i st Hl) in Hlive. discriminate.
      * rewrite lookup_app_r in Hl by lia.
        destruct (i - length socks)%nat as [|k] eqn:Hk; [|destruct k; discriminate].
        f_equal. lia.
  - exact Hs.
Qed.

Lemma voice_resume_one_live awaiting :
  preserves (fun s => one_live_socket s = true) (VoiceSession.resume awaiting).
Proof.
  induction awaiting as [|i rest IH]; cbn; [apply preserves_ret|]. preserves_auto.
Qed.

Lemma camera_resume_one_live awaiting :
  preserves (fun s => one_live_socket s = true) (CameraSession.resume awaiting).
Proof.
  induction awaiting as [|i rest IH]; cbn; [apply preserves_ret|]. preserves_auto.
Qed.

Lemma voice_commit_one_live `{Runtime} :
  preserves (fun s => one_live_socket s = true) VoiceSession.commit.
Proof.
  pose proof close_one_live as Hclose. pose proof closed_one_live as Hclosed.
  pose proof connectWs_one_live as Hconnect.
  assert (Hrender : forall fuel,
            preserves (fun s => one_live_socket s = true) (VoiceSession.render fuel))
    by voice_render_preserves.
  preserves_auto.
Qed.

Lemma camera_commit_one_live `{Runtime} :
  preserves (fun s => one_live_socket s = true) CameraSession.commit.
Proof.
  pose proof close_one_live as Hclose. pose proof closed_one_live as Hclosed.
  pose proof connectWs_one_live as Hconnect.
  assert (Hrender : forall fuel,
            preserves (fun s => one_live_socket s = true) (CameraSession.render fuel))
    by camera_render_preserves.
  preserves_auto.
Qed.

(** The open of a connecting socket. *)
Lemma open_one_live ws s :
  one_live_socket s = true -> deliverable s (WsOpen ws) = true ->
  one_live_socket (final ((set_readyState ws (fun _ => OPEN) ;; onopen)%handler s)) = true.
Proof.
  intros Hs Hd. cbn in Hd.
  destruct (sockets (net s) !! ws) as [[| | |]|] eqn:Hws; try discriminate.
  rewrite one_live_socket_spec in *.
  intros i st Hl Hlive. cbn in Hl |- *.
  destruct (decide (i = ws)) as [->|Hne].
  - apply (Hs ws CONNECTING Hws eq_refl).
  - rewrite list_lookup_alter_ne in Hl by congruence. apply (Hs i st Hl Hlive).
Qed.

Lemma voice_handle_one_live `{Runtime} e :
  is_open e = false ->
  preserves (fun s => one_live_socket s = true) (VoiceSession.handle e).
Proof.
  intros Ho.
  pose proof close_one_live as Hclose. pose proof closed_one_live as Hclosed.
  pose proof connectWs_one_live as Hconnect.
  destruct e; try discriminate; preserves_auto.
Qed.

Lemma camera_handle_one_live `{Runtime} e :
  is_open e = false ->
  preserves (fun s => one_live_socket s = true) (CameraSession.handle e).
Proof.
  intros Ho.
  pose proof close_one_live as Hclose. pose proof closed_one_live as Hclosed.
  pose proof connectWs_one_live as Hconnect.
  destruct e; try discriminate; preserves_auto.
Qed.

Lemma voice_dispatch_one_live `{Runtime} e s :
  one_live_socket s = true -> deliverable s e = true ->
  one_live_socket (final (VoiceSession.dispatch e s)) = true.
Proof.
  intros Hs Hd. unfold VoiceSession.dispatch.
  rewrite (final_bind _ _ _ tt) by apply uncaught_returns.
  pose proof voice_commit_one_live as Hcommit.
  pose proof voice_resume_one_live as Hresume.
  assert (Hrest : preserves (fun s0 => one_live_socket s0 = true)
                    (uncaught VoiceSession.commit ;;
                     s0 <- read ;;
                     VoiceSession.resume (awaitingStop (susp s0)) ;;
                     uncaught VoiceSession.commit)%handler) by preserves_auto.
  apply Hrest.
  destruct (is_open e) eqn:Ho.
  - destruct e; try discriminate. cbn [VoiceSession.handle].
    rewrite uncaught_same by reflexivity. apply open_one_live; assumption.
  - apply preserves_uncaught; [apply voice_handle_one_live, Ho | exact Hs].
Qed.

Lemma camera_dispatch_one_live `{Runtime} e s :
  one_live_socket s = true -> deliverable s e = true ->
  one_live_socket (final (CameraSession.dispatch e s)) = true.
Proof.
  intros Hs Hd. unfold CameraSession.dispatch.
  rewrite (final_bind _ _ _ tt) by apply uncaught_returns.
  pose proof camera_commit_one_live as Hcommit.
  pose proof camera_resume_one_live as Hresume.
  assert (Hrest : preserves (fun s0 => one_live_socket s0 = true)
                    (uncaught CameraSession.commit ;;
                     s0 <- read ;;
                     CameraSession.resume (awaitingStop (susp s0)) ;;
                     uncaught CameraSession.commit)%handler) by preserves_auto.
  apply Hrest.
  destruct (is_open e) eqn:Ho.
  - destruct e; try discriminate. cbn [CameraSession.handle].
    rewrite uncaught_same by reflexivity. apply open_one_live; assumption.
  - apply preserves_uncaught; [apply camera_handle_one_live, Ho | exact Hs].
Qed.

Lemma run_one_live (dispatch : event -> M state unit) :
  (forall e s, out (dispatch e s) = Return tt) ->
  (forall e s, one_live_socket s = true -> deliverable s e = true ->
               one_live_socket (final (dispatch e s)) = true) ->
  forall es s,
    one_live_socket s = true -> deliverable_run dispatch es s = true ->
    one_live_socket (final (run_with dispatch es s)) = true.
Proof.
  intros Hret Hd es. induction es as [|e es IH]; intros s Hs Hrun; [exact Hs|].
  cbn [deliverable_run] in Hrun. apply andb_true_iff in Hrun as [He Hrun].
  cbn [run_with]. rewrite (final_bind _ _ _ tt) by apply Hret.
  apply IH; [apply Hd; assumption | exact Hrun].
Qed.

(** X4.  The page never has two sockets that are connecting or open: in every
    run of events in which an [open] arrives only for a socket that is
    connecting, any socket that is connecting or open is the one [wsRef]
    holds, on both pages.  [connectWs] and the cleanup of the connect effect
    close the socket they leave behind. *)
Theorem one_socket_at_a_time `{Runtime} (es : list event) (s : state) :
  one_live_socket s = true ->
  (deliverable_run VoiceSession.dispatch es s = true ->
   let s' := final (VoiceSession.run es s) in
   forall ws st, sockets (net s') !! ws = Some st -> is_live st = true ->
                 wsRef (refs s') = Some ws)
  /\
  (deliverable_run CameraSession.dispatch es s = true ->
   let s' := final (CameraSession.run es s) in
   forall ws st, sockets (net s') !! ws = Some st -> is_live st = true ->
                 wsRef (refs s') = Some ws).
Proof.
  intros Hs. split; intros Hrun s'; apply one_live_socket_spec; subst s'.
  - exact (run_one_live VoiceSession.dispatch voice_dispatch_returns
             voice_dispatch_one_live es s Hs Hrun).
  - exact (run_one_live CameraSession.dispatch camera_dispatch_returns
             camera_dispatch_one_live es s Hs Hrun).
Qed.

Lemma one_socket_at_a_time_witness :
  let s' := final (VoiceSession.run (rt := Json.runtime) (firstn 3 Scenario.six_closes)
                     Scenario.fresh) in
  sockets (net s') = [CLOSED; CONNECTING] /\ wsRef (refs s') = Some 1%nat.
Proof.
  split; [vm_compute; reflexivity|].
  destruct (@one_socket_at_a_time Json.runtime (firstn 3 Scenario.six_closes) Scenario.fresh
              eq_refl) as [Hv _].
  apply (Hv eq_refl 1%nat CONNECTING); reflexivity.
Defined.

(** ** The recorder hook in use *)

Import AudioRecorder.

Lemma div_nonneg a b :
  (0 <= a)%Q -> (0 < b)%Q ->
  exists q, Js.div (Js.Finite a) (Js.Finite b) = Js.Finite q /\ (0 <= q)%Q.
Proof.
  intros Ha Hb. unfold Js.div.
  destruct (Qeq_bool b 0) eqn:E.
  - apply Qeq_bool_iff in E. rewrite E in Hb. exfalso. apply (Qlt_irrefl 0), Hb.
  - eexists. split; [reflexivity|]. rewrite Qred_correct.
    apply Qle_shift_div_l; [exact Hb|]. rewrite Qmult_0_l. exact Ha.
Qed.

(** The level [analyzeLoop] computes from at least one bin. *)
Lemma level_normalized (data : list N) :
  data <> [] ->
  RecorderUse.level_in_range
    (Js.Math_min
       (Js.div (Js.div (Js.of_Z (Z.of_N (sum_bytes data))) (Js.of_nat (length data)))
               (Js.of_Z 128))
       (Js.of_Z 1)) = true.
Proof.
  intros Hdata. unfold Js.of_nat, Js.of_Z.
  destruct (div_nonneg (inject_Z (Z.of_N (sum_bytes data)))
              (inject_Z (Z.of_nat (length data)))) as (q & -> & Hq).
  - rewrite <- (Zle_Qle 0). lia.
  - rewrite <- (Zlt_Qlt 0). destruct data; [contradiction|cbn; lia].
  - destruct (div_nonneg q (inject_Z 128) Hq) as (q' & -> & Hq'); [reflexivity|].
    unfold Js.Math_min. destruct (Qle_bool q' (inject_Z 1)) eqn:E; [|reflexivity].
    apply andb_true_iff. split; [apply Qle_bool_iff; exact Hq' | exact E].
Qed.

(** What a start leaves of the hook. *)
Lemma startRecording_leaves p w :
  let w' := final (startRecording p w) in
  stops w' = stops w
  /\ (audioChunksRef (hook w') = [] \/ audioChunksRef (hook w') = audioChunksRef (hook w))
  /\ (VoiceStore.audioLevel (voice w') = VoiceStore.audioLevel (voice w)
      \/ VoiceStore.audioLevel (voice w') = Js.of_Z 0
      \/ VoiceStore.audioLevel (voice w')
         = Js.Math_min
             (Js.div (Js.div (Js.of_Z (Z.of_N (sum_bytes (byteFrequencyData p))))
                             (Js.of_nat (length (byteFrequencyData p))))
                     (Js.of_Z 128))
             (Js.of_Z 1))
  /\ (start_succeeds p = false -> recorder_active w = false -> recorder_active w' = false)
  /\ (forall stream, getUserMedia p = Some stream -> streamRef (hook w') = Some stream).
Proof.
  destruct p as [gum ac cs ca con data opus mr st].
  destruct w as [[mr0 chunks an af strm ctx] v t calls fr].
  destruct ctx, gum as [stream|], ac, cs, ca, con, mr, st;
    cbv -[Js.div Js.Math_min Js.of_Z Js.of_nat sum_bytes length];
    (split; [reflexivity|]);
    (split; [first [left; reflexivity | right; reflexivity]|]);
    (split; [first [left; reflexivity | right; left; reflexivity
                   | right; right; reflexivity]|]);
    (split; [first [discriminate | intros _ H; exact H | reflexivity]
            | first [discriminate | intros ? H; exact H]]).
Qed.

Lemma analyzeLoop_leaves p w :
  let w' := final (analyzeLoop p w) in
  stops w' = stops w
  /\ audioChunksRef (hook w') = audioChunksRef (hook w)
  /\ streamRef (hook w') = streamRef (hook w)
  /\ mediaRecorderRef (hook w') = mediaRecorderRef (hook w)
  /\ (VoiceStore.audioLevel (voice w') = VoiceStore.audioLevel (voice w)
      \/ VoiceStore.audioLevel (voice w')
         = Js.Math_min
             (Js.div (Js.div (Js.of_Z (Z.of_N (sum_bytes (byteFrequencyData p))))
                             (Js.of_nat (length (byteFrequencyData p))))
                     (Js.of_Z 128))
             (Js.of_Z 1)).
Proof.
  destruct w as [[mr0 chunks [an|] af strm ctx] v t calls fr];
    cbv -[Js.div Js.Math_min Js.of_Z Js.of_nat sum_bytes length];
    repeat (split; [reflexivity|]); [right|left]; reflexivity.
Qed.

Lemma unmount_cleanup_leaves w :
  let w' := final (RecorderUse.unmount_cleanup w) in
  stops w' = stops w
  /\ audioChunksRef (hook w') = audioChunksRef (hook w)
  /\ voice w' = voice w
  /\ (streamRef (hook w) <> None -> streamRef (hook w') = Some {| tracks_live := false |}).
Proof.
  destruct w as [[mr0 chunks an [af|] [strm|] [ctx|]] v t calls fr]; cbn;
    repeat split; try reflexivity; intros Hne; contradiction.
Qed.

Lemma stopRecording_leaves w :
  let w' := final (stopRecording w) in
  audioChunksRef (hook w') = audioChunksRef (hook w)
  /\ (exists c, stops w' = stops w ++ [c]
                /\ (settled c = Pending \/ settled c = Resolved None))
  /\ (VoiceStore.audioLevel (voice w') = VoiceStore.audioLevel (voice w)
      \/ VoiceStore.audioLevel (voice w') = Js.of_Z 0)
  /\ recorder_active w' = false
  /\ (recorder_active w = false -> streamRef (hook w') = streamRef (hook w)).
Proof.
  destruct w as [[mr0 chunks an af strm ctx] v t cs fr].
  unfold stopRecording. cbn.
  destruct mr0 as [[[| |] mime on]|]; cbn;
    try (destruct strm, af; cbn);
    (replace (length cs) with (length cs + 0)%nat by lia);
    rewrite ?alter_app_r; cbn;
    (split; [reflexivity|]);
    (split; [eexists; split; [reflexivity|cbn; auto]|]);
    (split; [first [left; reflexivity | right; reflexivity]|]);
    (split; [reflexivity|]);
    first [discriminate | reflexivity].
Qed.

Lemma step_leaves e w :
  let w' := final (step e w) in
  voice w' = voice w /\ streamRef (hook w') = streamRef (hook w).
Proof.
  open_world w; destruct e as [ms|data|]; try (split; reflexivity);
    cbn; unfold ondataavailable; cbn;
    destruct (0 <? N.of_nat (length data))%N; split; reflexivity.
Qed.

Lemma final_bind_ret {S A} (m : M S A) (s : S) :
  final ((_ <- m ;; ret tt)%handler s) = final (m s).
Proof. unfold bind. destruct (out (m s)); reflexivity. Qed.

Lemma after_app acts1 acts2 w :
  RecorderUse.after (acts1 ++ acts2) w = RecorderUse.after acts2 (RecorderUse.after acts1 w).
Proof. unfold RecorderUse.after. apply fold_left_app. Qed.

(** A property of the hook that every action keeps holds after any
    series of them. *)
Lemma after_ind (P : world -> Prop) (ok : RecorderUse.action -> bool) :
  (forall a w, ok a = true -> P w -> P (final (RecorderUse.perform a w))) ->
  forall acts w, forallb ok acts = true -> P w -> P (RecorderUse.after acts w).
Proof.
  intros Hstep acts. induction acts as [|a acts IH]; intros w Hok Hw; [exact Hw|].
  cbn in Hok. apply andb_true_iff in Hok as [Ha Hok].
  cbn. apply IH; [exact Hok|]. apply Hstep; assumption.
Qed.

Lemma perform_level a w :
  RecorderUse.well_fed a = true ->
  RecorderUse.level_in_range (VoiceStore.audioLevel (voice w)) = true ->
  RecorderUse.level_in_range
    (VoiceStore.audioLevel (voice (final (RecorderUse.perform a w)))) = true.
Proof.
  intros Hfed Hw.
  assert (Hbins : forall p, RecorderUse.has_bins p = true -> byteFrequencyData p <> []).
  { intros p Hp. unfold RecorderUse.has_bins in Hp.
    destruct (byteFrequencyData p); [discriminate|congruence]. }
  destruct a as [p| |e|p|]; cbn [RecorderUse.perform RecorderUse.well_fed] in *.
  - rewrite final_bind_ret.
    destruct (startRecording_leaves p w) as (_ & _ & [-> | [-> | ->]] & _);
      [exact Hw | reflexivity | apply level_normalized, Hbins, Hfed].
  - rewrite final_bind_ret.
    destruct (stopRecording_leaves w) as (_ & _ & [-> | ->] & _);
      [exact Hw | reflexivity].
  - destruct (step_leaves e w) as [-> _]. exact Hw.
  - destruct (analyzeLoop_leaves p w) as (_ & _ & _ & _ & [-> | ->]);
      [exact Hw | apply level_normalized, Hbins, Hfed].
  - destruct (unmount_cleanup_leaves w) as (_ & _ & -> & _). exact Hw.
Qed.

(** X5.  The audio level the recorder hook writes to the store is always
    between 0 and 1: whatever is started, stopped, delivered or unmounted,
    and whatever the analyser measures, as long as it hands [analyzeLoop]
    at least one frequency bin. *)
Theorem audio_level_in_range (acts : list RecorderUse.action) (w : world) :
  forallb RecorderUse.well_fed acts = true ->
  RecorderUse.level_in_range (VoiceStore.audioLevel (voice w)) = true ->
  exists q, VoiceStore.audioLevel (voice (RecorderUse.after acts w)) = Js.Finite q
            /\ (0 <= q)%Q /\ (q <= 1)%Q.
Proof.
  intros Hfed Hw.
  pose proof (after_ind
                (fun w0 => RecorderUse.level_in_range (VoiceStore.audioLevel (voice w0)) = true)
                RecorderUse.well_fed perform_level acts w Hfed Hw) as Hafter.
  cbv beta in Hafter.
  destruct (VoiceStore.audioLevel (voice (RecorderUse.after acts w))) as [|q|negative];
    [discriminate| |discriminate].
  cbn in Hafter. apply andb_true_iff in Hafter as [H0 H1].
  exists q. split; [reflexivity|]. split; apply Qle_bool_iff; assumption.
Qed.

Lemma audio_level_in_range_witness :
  exists q,
    VoiceStore.audioLevel
      (voice (RecorderUse.after [RecorderUse.Start Examples.loud;
                                 RecorderUse.Frame Scenario.granted;
                                 RecorderUse.Frame Examples.loud] initial))
    = Js.Finite q
    /\ (0 <= q)%Q /\ (q <= 1)%Q.
Proof. apply audio_level_in_range; reflexivity. Defined.

(** ** Clips *)

Lemma concat_nonempty (chunks : list blob) :
  chunks <> [] -> Forall (fun chunk : blob => chunk <> []) chunks ->
  List.concat chunks <> [].
Proof.
  intros Hne Hall. destruct chunks as [|c rest]; [contradiction|].
  apply Forall_cons in Hall as [Hc _]. cbn.
  destruct c; [contradiction|discriminate].
Qed.

Lemma run_timeout_settled t c :
  settled (run_timeout t c) = settled c \/ settled (run_timeout t c) = Resolved None.
Proof.
  unfold run_timeout. destruct (timeoutId c) as [due|]; [|left; reflexivity].
  destruct (due <=? t)%N; [|left; reflexivity].
  cbn. unfold resolve_call. destruct (settled c) eqn:E; cbn; [right; reflexivity|].
  left. exact E.
Qed.

Lemma step_no_empty_clip e w :
  RecorderUse.no_empty_clip w -> RecorderUse.no_empty_clip (final (step e w)).
Proof.
  intros [Hchunks Hstops]. unfold RecorderUse.no_empty_clip.
  destruct w as [[mr0 chunks an af strm ctx] v t cs fr]. cbn in Hchunks, Hstops.
  destruct e as [ms|data|]; cbn.
  - split; [exact Hchunks|]. apply Forall_fmap.
    eapply Forall_impl; [exact Hstops|]. intros c Hc b Hb. cbn in Hb.
    destruct (run_timeout_settled (t + ms) c) as [Heq|Heq]; rewrite Heq in Hb.
    + apply (Hc b Hb).
    + discriminate.
  - destruct mr0 as [mr|]; [|split; assumption].
    unfold ondataavailable. cbn.
    destruct (N.ltb_spec 0 (N.of_nat (length data))) as [Hpos|Hzero]; cbn;
      [|split; assumption].
    split; [|exact Hstops].
    apply Forall_app. split; [exact Hchunks|].
    apply Forall_cons. split; [|constructor].
    destruct data; [cbn in Hpos; lia|discriminate].
  - destruct mr0 as [[st mime [i|]]|]; [|split; assumption|split; assumption]. cbn.
    split; [exact Hchunks|].
    apply Forall_alter.
    + apply Forall_alter; [exact Hstops|]. intros c _ Hc. exact Hc.
    + intros c _ Hc b Hb. unfold resolve_call in Hb.
      destruct (settled c) eqn:E; cbn in Hb.
      * destruct (N.ltb_spec 0 (N.of_nat (length chunks))) as [Hpos|Hzero];
          [|discriminate].
        injection Hb as <-. apply concat_nonempty; [|exact Hchunks].
        destruct chunks; [cbn in Hpos; lia|discriminate].
      * rewrite E in Hb. apply (Hc b). exact Hb.
Qed.

Lemma perform_no_empty_clip a w :
  RecorderUse.no_empty_clip w -> RecorderUse.no_empty_clip (final (RecorderUse.perform a w)).
Proof.
  intros Hw. destruct a as [p| |e|p|]; cbn [RecorderUse.perform].
  - rewrite final_bind_ret. destruct Hw as [Hchunks Hstops].
    destruct (startRecording_leaves p w) as (Hs & Hc & _).
    split; [|rewrite Hs; exact Hstops].
    destruct Hc as [-> | ->]; [constructor | exact Hchunks].
  - rewrite final_bind_ret. destruct Hw as [Hchunks Hstops].
    destruct (stopRecording_leaves w) as (Hc & (c & Hs & Hsettled) & _).
    split; [rewrite Hc; exact Hchunks|].
    rewrite Hs. apply Forall_app. split; [exact Hstops|].
    apply Forall_cons. split; [|constructor].
    intros b Hb. destruct Hsettled as [E|E]; rewrite E in Hb; discriminate.
  - apply step_no_empty_clip, Hw.
  - destruct Hw as [Hchunks Hstops].
    destruct (analyzeLoop_leaves p w) as (Hs & Hc & _).
    split; [rewrite Hc; exact Hchunks | rewrite Hs; exact Hstops].
  - destruct Hw as [Hchunks Hstops].
    destruct (unmount_cleanup_leaves w) as (Hs & Hc & _).
    split; [rewrite Hc; exact Hchunks | rewrite Hs; exact Hstops].
Qed.

(** X6.  A promise of [stopRecording] is never resolved with an empty clip: in
    any use of the hook from its first render, a clip that is not null has
    at least one byte. *)
Theorem clip_never_empty (acts : list RecorderUse.action) (i : nat) (clip : blob) :
  promise_of i (RecorderUse.after acts initial) = Resolved (Some clip) ->
  clip <> [].
Proof.
  intros Hclip.
  assert (Hinv : RecorderUse.no_empty_clip (RecorderUse.after acts initial)).
  { apply (after_ind RecorderUse.no_empty_clip (fun _ => true)).
    - intros a w _. apply perform_no_empty_clip.
    - apply forallb_forall. reflexivity.
    - split; constructor. }
  destruct Hinv as [_ Hstops]. unfold promise_of in Hclip.
  destruct (stops (RecorderUse.after acts initial) !! i) as [c|] eqn:Hc; [|discriminate].
  rewrite Forall_lookup in Hstops. apply (Hstops i c Hc clip Hclip).
Qed.

Lemma clip_never_empty_witness :
  promise_of 0 (RecorderUse.after
                  [RecorderUse.Start Scenario.granted;
                   RecorderUse.Happen (DataAvailable []);
                   RecorderUse.Happen (DataAvailable [7; 8]%N);
                   RecorderUse.Stop;
                   RecorderUse.Happen StopEvent] initial)
  = Resolved (Some [7; 8]%N)
  /\ [7; 8]%N <> @nil N.
Proof.
  split; [reflexivity|].
  apply (clip_never_empty
           [RecorderUse.Start Scenario.granted;
            RecorderUse.Happen (DataAvailable []);
            RecorderUse.Happen (DataAvailable [7; 8]%N);
            RecorderUse.Stop;
            RecorderUse.Happen StopEvent] 0%nat).
  reflexivity.
Defined.

(** ** A stop after a stop *)

(** X7.  Once [stopRecording] has been called, every further call, until the
    next start, returns a promise that is resolved with null at once:
    the first call leaves the recorder inactive, and no event of the
    recorder or the clock changes that. *)
Theorem second_stop_resolves_null (w : world) (es : list event) :
  let stopped := exec es (final (stopRecording w)) in
  let again := stopRecording stopped in
  out again = Return (length (stops stopped))
  /\ promise_of (length (stops stopped)) (final again) = Resolved None.
Proof.
  intros stopped again. apply stopRecording_idle.
  subst stopped. unfold recorder_active. rewrite exec_recorder.
  destruct (stopRecording_leaves w) as (_ & _ & _ & Hidle & _). exact Hidle.
Qed.

(** ** The microphone after a failed start *)

Lemma perform_keeps_stream a w :
  RecorderUse.keeps_stream a = true ->
  recorder_active w = false ->
  recorder_active (final (RecorderUse.perform a w)) = false
  /\ streamRef (hook (final (RecorderUse.perform a w))) = streamRef (hook w).
Proof.
  intros Hkeep Hidle. destruct a as [p| |e|p|]; try discriminate;
    cbn [RecorderUse.perform].
  - rewrite final_bind_ret.
    destruct (stopRecording_leaves w) as (_ & _ & _ & Hi & Hs).
    split; [exact Hi | apply Hs, Hidle].
  - destruct (step_leaves e w) as [_ Hs]. split; [|exact Hs].
    unfold recorder_active. rewrite step_recorder. exact Hidle.
  - destruct (analyzeLoop_leaves p w) as (_ & _ & Hs & Hmr & _). split; [|exact Hs].
    unfold recorder_active. rewrite Hmr. exact Hidle.
Qed.

(** X8.  When [startRecording] is called while no recorder is active, the
    microphone is granted and the start then fails, the stream stays as
    [getUserMedia] gave it: [startRecording] does not stop its tracks, and
    neither does any later [stopRecording], recorder event or frame; only
    the cleanup at unmount stops them. *)
Theorem failed_start_keeps_microphone
    (p : platform) (stream : MediaStream) (w : world) (acts : list RecorderUse.action) :
  getUserMedia p = Some stream ->
  start_succeeds p = false ->
  recorder_active w = false ->
  forallb RecorderUse.keeps_stream acts = true ->
  let later := RecorderUse.after acts (final (startRecording p w)) in
  out (startRecording p w) = Return false
  /\ streamRef (hook later) = Some stream
  /\ streamRef (hook (final (RecorderUse.unmount_cleanup later)))
     = Some {| tracks_live := false |}.
Proof.
  intros Hgum Hfail Hidle Hkeep later.
  destruct (startRecording_leaves p w) as (_ & _ & _ & Hi & Hs).
  specialize (Hi Hfail Hidle). specialize (Hs stream Hgum).
  assert (Hlater : recorder_active later = false /\ streamRef (hook later) = Some stream).
  { subst later.
    apply (after_ind (fun w0 => recorder_active w0 = false
                                /\ streamRef (hook w0) = Some stream)
             RecorderUse.keeps_stream); [|exact Hkeep|split; assumption].
    intros a w0 Ha [Hi0 Hs0].
    destruct (perform_keeps_stream a w0 Ha Hi0) as [Hi1 Hs1].
    split; [exact Hi1 | rewrite Hs1; exact Hs0]. }
  destruct Hlater as [_ Hstream].
  split; [|split; [exact Hstream|]].
  - destruct p as [gum ac cs ca con data opus mr st].
    destruct w as [[mr0 chunks an af strm ctx] v t calls fr].
    cbn in Hgum. subst gum. unfold start_succeeds in Hfail. cbn in Hfail.
    destruct ctx, ac, cs, ca, con, mr, st; try discriminate; reflexivity.
  - destruct (unmount_cleanup_leaves later) as (_ & _ & _ & Hclean).
    apply Hclean. rewrite Hstream. discriminate.
Qed.

Lemma failed_start_keeps_microphone_witness :
  streamRef (hook (RecorderUse.after [RecorderUse.Stop; RecorderUse.Happen (Elapse 6000)]
                     (final (startRecording Examples.no_audio_context initial))))
  = Some {| tracks_live := true |}.
Proof.
  destruct (failed_start_keeps_microphone Examples.no_audio_context
              {| tracks_live := true |} initial
              [RecorderUse.Stop; RecorderUse.Happen (Elapse 6000)]
              eq_refl eq_refl eq_refl eq_refl) as (_ & Hstream & _).
  exact Hstream.
Defined.

(** ** What a recording buffers, and the microphone after it *)


(** The hook after a start whose calls all succeed. *)
Lemma startRecording_started p w :
  start_succeeds p = true ->
  let w' := final (startRecording p w) in
  audioChunksRef (hook w') = []
  /\ recorder_active w' = true
  /\ streamRef (hook w') = getUserMedia p.
Proof.
  intros Hok.
  destruct p as [gum ac cs ca con data opus mr st].
  destruct w as [[mr0 chunks an af strm ctx] v t calls fr].
  unfold start_succeeds in Hok. cbn in Hok.
  destruct gum as [stream|], ac, cs, ca, con, mr, st; try discriminate.
  destruct ctx; cbv -[Js.div Js.Math_min Js.of_Z Js.of_nat sum_bytes length];
    repeat split; reflexivity.
Qed.

Lemma delivered_snoc acts a :
  RecorderUse.delivered (acts ++ [a])
  = RecorderUse.delivered acts
    ++ match a with
       | RecorderUse.Happen (DataAvailable (c :: data)) => [c :: data]
       | _ => []
       end.
Proof.
  unfold RecorderUse.delivered. rewrite flat_map_app. cbn. rewrite app_nil_r. reflexivity.
Qed.

(** What an action other than a start does to the buffer of a hook that
    has a recorder. *)
Lemma perform_buffers a w :
  RecorderUse.is_start a = false ->
  mediaRecorderRef (hook w) <> None ->
  mediaRecorderRef (hook (final (RecorderUse.perform a w))) <> None
  /\ audioChunksRef (hook (final (RecorderUse.perform a w)))
     = audioChunksRef (hook w)
       ++ match a with
          | RecorderUse.Happen (DataAvailable (c :: data)) => [c :: data]
          | _ => []
          end.
Proof.
  intros Hstart Hmr.
  destruct w as [[[mr|] chunks an af strm ctx] v t cs fr]; [|contradiction].
  destruct a as [p| |e|p|]; try discriminate; cbn [RecorderUse.perform].
  - rewrite final_bind_ret. destruct mr as [[| |] mime on]; unfold stopRecording; cbn;
      try (destruct strm, af; cbn); rewrite app_nil_r; split; discriminate || reflexivity.
  - destruct e as [ms|[|c data]|]; cbn; rewrite ?app_nil_r;
      try (split; discriminate || reflexivity).
    destruct (mr_onstop mr); cbn; rewrite ?app_nil_r; split; discriminate || reflexivity.
  - destruct an; cbn; rewrite app_nil_r; split; discriminate || reflexivity.
  - destruct af, strm, ctx; cbn; rewrite app_nil_r; split; discriminate || reflexivity.
Qed.

(** X21.  A recording starts with an empty buffer and buffers exactly the
    chunks delivered since its start that are not empty, in the order of
    their delivery: nothing of an earlier turn is left in it, and nothing
    but a new start empties it. *)
Theorem recording_buffers_what_was_delivered
    (p : platform) (w : world) (acts : list RecorderUse.action) :
  start_succeeds p = true ->
  forallb (fun a => negb (RecorderUse.is_start a)) acts = true ->
  audioChunksRef (hook (RecorderUse.after acts (final (startRecording p w))))
  = RecorderUse.delivered acts.
Proof.
  intros Hok Hacts.
  destruct (startRecording_started p w Hok) as (Hempty & Hactive & _).
  set (w1 := final (startRecording p w)) in *.
  assert (Hmr1 : mediaRecorderRef (hook w1) <> None).
  { unfold recorder_active in Hactive. destruct (mediaRecorderRef (hook w1)); congruence. }
  assert (Hinv : mediaRecorderRef (hook (RecorderUse.after acts w1)) <> None
                 /\ audioChunksRef (hook (RecorderUse.after acts w1))
                    = RecorderUse.delivered acts).
  { induction acts as [|a acts IH] using rev_ind; [split; assumption|].
    rewrite forallb_app in Hacts. apply andb_true_iff in Hacts as [Hacts Ha].
    cbn in Ha. rewrite andb_true_r in Ha. apply negb_true_iff in Ha.
    destruct (IH Hacts) as [IHmr IHchunks].
    rewrite after_app. cbn [RecorderUse.after fold_left].
    destruct (perform_buffers a _ Ha IHmr) as [Hmr Hchunks].
    split; [exact Hmr|]. rewrite Hchunks, IHchunks, delivered_snoc. reflexivity. }
  apply Hinv.
Qed.

Lemma recording_buffers_what_was_delivered_witness :
  audioChunksRef
    (hook (RecorderUse.after
             [RecorderUse.Happen (DataAvailable [1; 2]%N);
              RecorderUse.Happen (DataAvailable []);
              RecorderUse.Stop;
              RecorderUse.Happen (DataAvailable [3]%N);
              RecorderUse.Happen StopEvent]
             (final (startRecording Scenario.granted Scenario.recording))))
  = [[1; 2]%N; [3]%N].
Proof.
  apply (recording_buffers_what_was_delivered Scenario.granted Scenario.recording
           [RecorderUse.Happen (DataAvailable [1; 2]%N);
            RecorderUse.Happen (DataAvailable []);
            RecorderUse.Stop;
            RecorderUse.Happen (DataAvailable [3]%N);
            RecorderUse.Happen StopEvent]);
    reflexivity.
Defined.

Lemma perform_while_recording a w :
  RecorderUse.while_recording a = true ->
  recorder_active (final (RecorderUse.perform a w)) = recorder_active w
  /\ streamRef (hook (final (RecorderUse.perform a w))) = streamRef (hook w).
Proof.
  intros Ha. destruct a as [p| |e|p|]; try discriminate; cbn [RecorderUse.perform].
  - destruct (step_leaves e w) as [_ Hs]. split; [|exact Hs].
    unfold recorder_active. rewrite step_recorder. reflexivity.
  - destruct (analyzeLoop_leaves p w) as (_ & _ & Hs & Hmr & _). split; [|exact Hs].
    unfold recorder_active. rewrite Hmr. reflexivity.
Qed.

(** X22.  A turn that records gives the microphone back when it is stopped:
    after a start whose calls all succeed, and whatever the recorder and
    the analyser do while it records, the recorder is recording, and
    [stopRecording] stops the tracks of the stream and leaves the recorder
    inactive. *)
Theorem stopRecording_releases_microphone
    (p : platform) (w : world) (acts : list RecorderUse.action) :
  start_succeeds p = true ->
  forallb RecorderUse.while_recording acts = true ->
  let turn := RecorderUse.after acts (final (startRecording p w)) in
  recorder_active turn = true
  /\ streamRef (hook turn) = getUserMedia p
  /\ streamRef (hook (final (stopRecording turn))) = Some {| tracks_live := false |}
  /\ recorder_active (final (stopRecording turn)) = false.
Proof.
  intros Hok Hacts turn.
  destruct (startRecording_started p w Hok) as (_ & Hactive & Hstream).
  assert (Hturn : recorder_active turn = true /\ streamRef (hook turn) = getUserMedia p).
  { subst turn.
    apply (after_ind (fun w0 => recorder_active w0 = true
                                /\ streamRef (hook w0) = getUserMedia p)
             RecorderUse.while_recording); [|exact Hacts|split; assumption].
    intros a w0 Ha [Hi0 Hs0].
    destruct (perform_while_recording a w0 Ha) as [Hi1 Hs1].
    split; [rewrite Hi1; exact Hi0 | rewrite Hs1; exact Hs0]. }
  destruct Hturn as [Hrec Hstr].
  split; [exact Hrec|]. split; [exact Hstr|].
  assert (Hgranted : exists stream, getUserMedia p = Some stream).
  { unfold start_succeeds in Hok. destruct (getUserMedia p); [eauto|discriminate]. }
  destruct Hgranted as [stream Hgum]. rewrite Hgum in Hstr.
  destruct (stopRecording_leaves turn) as (_ & _ & _ & Hidle & _).
  split; [|exact Hidle].
  destruct turn as [[[mr|] chunks an af strm ctx] v t cs fr];
    [|discriminate].
  cbn in Hstr. subst strm. unfold recorder_active in Hrec. cbn in Hrec.
  apply negb_true_iff in Hrec. unfold stopRecording. cbn. rewrite Hrec.
  destruct af; reflexivity.
Qed.

Lemma stopRecording_releases_microphone_witness :
  let turn := RecorderUse.after [RecorderUse.Happen (DataAvailable [1; 2]%N);
                                 RecorderUse.Frame Examples.loud]
                (final (startRecording Scenario.granted initial)) in
  streamRef (hook turn) = Some {| tracks_live := true |}
  /\ streamRef (hook (final (stopRecording turn))) = Some {| tracks_live := false |}.
Proof.
  destruct (stopRecording_releases_microphone Scenario.granted initial
              [RecorderUse.Happen (DataAvailable [1; 2]%N);
               RecorderUse.Frame Examples.loud] eq_refl eq_refl)
    as (_ & Hlive & Hreleased & _).
  split; [exact Hlive | exact Hreleased].
Defined.

(** ** Nothing is sent before a socket opens *)

Import Session.

Lemma no_socket_open_closed s : no_socket_open s = true -> socket_open s = false.
Proof.
  unfold no_socket_open, socket_open. intros Hall.
  destruct (wsRef (refs s)) as [ws|]; [|reflexivity].
  destruct (sockets (net s) !! ws) as [[| | |]|] eqn:Hws; try reflexivity.
  rewrite forallb_forall in Hall.
  apply list_elem_of_lookup_2, list_elem_of_In in Hws.
  specialize (Hall _ Hws). discriminate.
Qed.

Lemma forallb_alter {A} (p : A -> bool) (f : A -> A) (l : list A) :
  (forall x, p x = true -> p (f x) = true) ->
  forall i, forallb p l = true -> forallb p (alter f i l) = true.
Proof.
  intros Hf. induction l as [|x l IH]; intros i Hall; [destruct i; exact Hall|].
  cbn in Hall. apply andb_true_iff in Hall as [Hx Hl].
  destruct i as [|i]; cbn; apply andb_true_iff; split; auto.
Qed.

Lemma unsent_from_of {A} (m : M state A) s : unsent m -> unsent_from s m.
Proof. intros H. apply H. Qed.

Lemma unsent_ret {A} (a : A) : unsent (ret a).
Proof. intros s H. split; [exact H | reflexivity]. Qed.

Lemma unsent_throw {A} e : unsent (@throw state A e).
Proof. intros s H. split; [exact H | reflexivity]. Qed.

Lemma unsent_read : unsent (@read state).
Proof. intros s H. split; [exact H | reflexivity]. Qed.

Lemma unsent_emit e : sent [e] = [] -> unsent (@emit state e).
Proof. intros He s H. split; [exact H | exact He]. Qed.

Lemma unsent_modify f :
  (forall s, no_socket_open s = true -> no_socket_open (f s) = true) ->
  unsent (modify f).
Proof. intros Hf s H. split; [apply Hf, H | reflexivity]. Qed.

Lemma unsent_bind {A B} (m : M state A) (k : A -> M state B) :
  unsent m -> (forall a, unsent (k a)) -> unsent (bind m k).
Proof.
  intros Hm Hk s H. unfold bind. destruct (Hm s H) as [H1 Hs1].
  destruct (out (m s)) as [a|e]; cbn; [|split; assumption].
  destruct (Hk a _ H1) as [H2 Hs2]. split; [exact H2|].
  rewrite sent_app, Hs1, Hs2. reflexivity.
Qed.

(** What follows a read of the state may rely on what the state was. *)
Lemma unsent_read_bind {B} (k : state -> M state B) :
  (forall s, no_socket_open s = true -> unsent_from s (k s)) -> unsent (bind read k).
Proof. intros Hk s H. unfold bind. cbn. apply (Hk s H H). Qed.

Lemma unsent_try_catch {A} (m : M state A) h :
  unsent m -> (forall e, unsent (h e)) -> unsent (try_catch m h).
Proof.
  intros Hm Hh s H. unfold try_catch. destruct (Hm s H) as [H1 Hs1].
  destruct (out (m s)) as [a|e]; cbn; [split; assumption|].
  destruct (Hh e _ H1) as [H2 Hs2]. split; [exact H2|].
  rewrite sent_app, Hs1, Hs2. reflexivity.
Qed.

Lemma unsent_when b m : unsent m -> unsent (when b m).
Proof. intros H. destruct b; [exact H | apply unsent_ret]. Qed.

Lemma unsent_uncaught m : unsent m -> unsent (uncaught m).
Proof.
  intros H. apply unsent_try_catch; [exact H|]. intros e. apply unsent_emit. reflexivity.
Qed.

Lemma unsent_recorder {A} (m : M AudioRecorder.world A) : silent m -> unsent (recorder m).
Proof. intros Hm s H. split; [exact H | apply (Hm (media s))]. Qed.

Lemma unsent_set_readyState ws f :
  (forall st, f st <> OPEN) -> unsent (set_readyState ws f).
Proof.
  intros Hf. apply unsent_modify. intros s H. unfold no_socket_open in *. cbn.
  apply forallb_alter; [|exact H].
  intros st _. specialize (Hf st). destruct (f st); congruence.
Qed.

Lemma unsent_close ws code : unsent (close ws code).
Proof.
  unfold close. apply unsent_bind; [|intros _; apply unsent_emit; reflexivity].
  apply unsent_modify. intros s H. unfold no_socket_open in *. cbn.
  apply forallb_alter; [|exact H]. intros [| | |]; congruence.
Qed.

Lemma unsent_createVoiceWebSocket id : unsent (createVoiceWebSocket id).
Proof.
  unfold createVoiceWebSocket, validateString_required.
  apply unsent_bind; [destruct id; [apply unsent_throw | apply unsent_ret]|]. intros _.
  apply unsent_bind; [apply unsent_read|]. intros s0.
  apply unsent_bind.
  - apply unsent_modify. intros s H. unfold no_socket_open in *. cbn.
    rewrite forallb_app, H. reflexivity.
  - intros _. apply unsent_bind; [apply unsent_emit; reflexivity|].
    intros _. apply unsent_ret.
Qed.

Create HintDb unsent discriminated.

Ltac unsent_step :=
  cbv beta zeta;
  first
  [ assumption
  | solve [auto 1 with unsent nocore]
  | lazymatch goal with
    | |- unsent (bind read _) =>
        apply unsent_read_bind;
        let s0 := fresh "s" in let H := fresh "Hclosed" in
        intros s0 H; cbv beta;
        try rewrite (no_socket_open_closed s0 H);
        apply unsent_from_of; clear H
    | |- unsent (bind _ _) => apply unsent_bind; [|intros ?]
    | |- unsent (ret _) => apply unsent_ret
    | |- unsent (throw _) => apply unsent_throw
    | |- unsent read => apply unsent_read
    | |- unsent (emit _) => apply unsent_emit; reflexivity
    | |- unsent (set_readyState _ (fun _ => CLOSED)) =>
        apply unsent_set_readyState; intros ?; discriminate
    | |- unsent (modify _) =>
        apply unsent_modify; let H := fresh in intros ? H; exact H
    | |- unsent (when _ _) => apply unsent_when
    | |- unsent (uncaught _) => apply unsent_uncaught
    | |- unsent (try_catch _ _) => apply unsent_try_catch; [|intros ?]
    | |- unsent (recorder AudioRecorder.startRecording_begin) =>
        apply unsent_recorder, silent_startRecording_begin
    | |- unsent (recorder (AudioRecorder.startRecording_resume _)) =>
        apply unsent_recorder, silent_startRecording_resume
    | |- unsent (recorder AudioRecorder.stopRecording) =>
        apply unsent_recorder, silent_stopRecording
    | |- unsent (recorder (AudioRecorder.step _)) => apply unsent_recorder, silent_step
    | |- unsent (if ?b then _ else _) => destruct b
    | |- unsent (match ?x with _ => _ end) => destruct x
    | |- unsent ?m => let h := head_of m in unfold h
    end ].

Ltac unsent_auto := repeat unsent_step.

Lemma unsent_connectWs : unsent connectWs.
Proof.
  pose proof unsent_close as Hclose. pose proof unsent_createVoiceWebSocket as Hcreate.
  unsent_auto.
Qed.

Lemma voice_resume_unsent awaiting : unsent (VoiceSession.resume awaiting).
Proof.
  induction awaiting as [|i rest IH]; cbn; [apply unsent_ret|]. unsent_auto.
Qed.

Lemma camera_resume_unsent awaiting : unsent (CameraSession.resume awaiting).
Proof.
  induction awaiting as [|i rest IH]; cbn; [apply unsent_ret|]. unsent_auto.
Qed.

Lemma voice_handle_unsent `{Runtime} e : is_open e = false -> unsent (VoiceSession.handle e).
Proof.
  intros Ho. pose proof unsent_close as Hclose. pose proof unsent_connectWs as Hconnect.
  destruct e; try discriminate; unsent_auto.
Qed.

Lemma camera_handle_unsent `{Runtime} e : is_open e = false -> unsent (CameraSession.handle e).
Proof.
  intros Ho. pose proof unsent_close as Hclose. pose proof unsent_connectWs as Hconnect.
  destruct e; try discriminate; unsent_auto.
Qed.

(** What a turn of the event loop does after the handler. *)
Lemma voice_render_unsent fuel : unsent (VoiceSession.render fuel).
Proof.
  pose proof unsent_close as Hclose. pose proof unsent_connectWs as Hconnect.
  induction fuel as [|fuel IH]; cbn [VoiceSession.render]; unsent_auto.
Qed.

Lemma camera_render_unsent fuel : unsent (CameraSession.render fuel).
Proof.
  pose proof unsent_close as Hclose. pose proof unsent_connectWs as Hconnect.
  induction fuel as [|fuel IH]; cbn [CameraSession.render]; unsent_auto.
Qed.

Lemma voice_rest_unsent `{Runtime} :
  unsent (uncaught VoiceSession.commit ;;
          s0 <- read ;;
          VoiceSession.resume (awaitingStop (susp s0)) ;;
          uncaught VoiceSession.commit)%handler.
Proof.
  pose proof unsent_close as Hclose. pose proof unsent_connectWs as Hconnect.
  pose proof voice_resume_unsent as Hresume.
  pose proof voice_render_unsent as Hrender.
  unsent_auto.
Qed.

Lemma camera_rest_unsent `{Runtime} :
  unsent (uncaught CameraSession.commit ;;
          s0 <- read ;;
          CameraSession.resume (awaitingStop (susp s0)) ;;
          uncaught CameraSession.commit)%handler.
Proof.
  pose proof unsent_close as Hclose. pose proof unsent_connectWs as Hconnect.
  pose proof camera_resume_unsent as Hresume.
  pose proof camera_render_unsent as Hrender.
  unsent_auto.
Qed.

Lemma voice_dispatch_unsent `{Runtime} e :
  is_open e = false -> unsent (VoiceSession.dispatch e).
Proof.
  intros Ho.
  pose proof (voice_handle_unsent e Ho) as Hhandle.
  pose proof voice_rest_unsent as Hrest.
  unfold VoiceSession.dispatch.
  apply unsent_bind; [apply unsent_uncaught, Hhandle | intros _; exact Hrest].
Qed.

Lemma camera_dispatch_unsent `{Runtime} e :
  is_open e = false -> unsent (CameraSession.dispatch e).
Proof.
  intros Ho.
  pose proof (camera_handle_unsent e Ho) as Hhandle.
  pose proof camera_rest_unsent as Hrest.
  unfold CameraSession.dispatch.
  apply unsent_bind; [apply unsent_uncaught, Hhandle | intros _; exact Hrest].
Qed.

Lemma run_unsent (dispatch : event -> M state unit) :
  (forall e, is_open e = false -> unsent (dispatch e)) ->
  forall es, no_open es = true -> unsent (run_with dispatch es).
Proof.
  intros Hd es. induction es as [|e es IH]; intros Hno; [apply unsent_ret|].
  cbn in Hno. apply andb_true_iff in Hno as [He Hno]. apply negb_true_iff in He.
  cbn [run_with]. apply unsent_bind; [apply Hd, He | intros _; apply IH, Hno].
Qed.

(** X9.  As long as no socket has opened, the page sends nothing: whatever the
    user does and whatever else arrives, no frame goes out before an
    [open] event, on either page. *)
Theorem nothing_sent_before_open `{Runtime} (es : list event) (s : state) :
  no_open es = true ->
  no_socket_open s = true ->
  sent (calls (VoiceSession.run es s)) = []
  /\ sent (calls (CameraSession.run es s)) = [].
Proof.
  intros Hno Hs. unfold VoiceSession.run, CameraSession.run. split.
  - exact (proj2 (run_unsent VoiceSession.dispatch voice_dispatch_unsent es Hno s Hs)).
  - exact (proj2 (run_unsent CameraSession.dispatch camera_dispatch_unsent es Hno s Hs)).
Qed.

Lemma nothing_sent_before_open_witness :
  sent (calls (VoiceSession.run (rt := Json.runtime) Examples.unopened_turn Scenario.fresh))
  = []
  /\ sent (calls (CameraSession.run (rt := Json.runtime) Examples.unopened_turn
                    Scenario.fresh)) = [].
Proof.
  apply (@nothing_sent_before_open Json.runtime Examples.unopened_turn Scenario.fresh);
    reflexivity.
Defined.

(** ** Ending a session *)

Lemma leave_leaves failure s :
  let r := Leaving.leave failure s in
  out r = Return tt
  /\ final r = s
  /\ Leaving.navigations (calls r) = [Leaving.destination s]
  /\ sent (calls r)
     = match currentSession s with
       | Some _ => if socket_open s then [end_session] else []
       | None => []
       end.
Proof.
  destruct s as [cur u r m a sp sy [socks tm ids] su cd lf cam sd].
  destruct r as [tr tt0 w rc rt wp aa].
  unfold Leaving.leave, Leaving.destination, Leaving.endSession, validateString_required,
    socket_open.
  destruct cur as [id|]; [|repeat split; reflexivity].
  destruct w as [ws|]; cbn.
  - destruct (socks !! ws) as [[| | |]|]; destruct id as [|c id], failure as [e|];
      repeat split; reflexivity.
  - destruct id as [|c id], failure as [e|]; repeat split; reflexivity.
Qed.

(** X10.  Ending a session always leaves the page, and never throws: unless the
    user is asked and declines, [handleEnd] navigates exactly once, to
    ['/'] in the demo and to the feedback of the session otherwise, whether
    the request to end the session succeeds, fails or is refused for an
    empty session id.  The ['end_session'] frame goes out exactly when
    there is a session and its socket is open.  No cell of the page
    changes.  A user who declines stays, and nothing is sent. *)
Theorem handleEnd_always_leaves (confirmed : bool) (failure : option string) (s : state) :
  let voice := Leaving.voice_handleEnd confirmed failure s in
  let camera := Leaving.camera_handleEnd failure s in
  let frames := match currentSession s with
                | Some _ => if socket_open s then [end_session] else []
                | None => []
                end in
  (out voice = Return tt /\ final voice = s
   /\ if Leaving.declined confirmed s
      then calls voice = []
      else Leaving.navigations (calls voice) = [Leaving.destination s]
           /\ sent (calls voice) = frames)
  /\ (out camera = Return tt /\ final camera = s
      /\ Leaving.navigations (calls camera) = [Leaving.destination s]
      /\ sent (calls camera) = frames).
Proof.
  intros voice camera frames.
  destruct (leave_leaves failure s) as (Hout & Hfinal & Hnav & Hsent).
  split; [|repeat split; assumption].
  subst voice. unfold Leaving.voice_handleEnd, Leaving.declined.
  unfold bind. cbn [read out final calls app].
  destruct (isHolding (ui s) || isRecording (ui s)), confirmed; cbn [negb andb];
    cbv zeta; rewrite ?Hout; cbn [out final calls app];
    repeat split; assumption || reflexivity.
Qed.

(** ** The session clock *)

Lemma split_at_colon_digits (d : Decimal.uint) (rest : string) :
  Display.split_at_colon
    (String.append (DecimalString.NilEmpty.string_of_uint d) (String ":" rest))
  = Some (DecimalString.NilEmpty.string_of_uint d, rest).
Proof.
  induction d as [|d IH|d IH|d IH|d IH|d IH|d IH|d IH|d IH|d IH|d IH]; cbn;
    [reflexivity | rewrite IH; reflexivity ..].
Qed.

Lemma read_decimal_decimal (n : N) : Display.read_decimal (Api.decimal n) = Some n.
Proof.
  unfold Display.read_decimal, Api.decimal.
  rewrite DecimalString.NilEmpty.usu. cbn. f_equal. apply DecimalN.Unsigned.of_to.
Qed.

(** The seconds field for every value below 60. *)
Lemma seconds_field (r : N) :
  (r < 60)%N ->
  String.length (Display.padStart 2 "0" (Api.decimal r)) = 2%nat
  /\ Display.read_decimal (Display.padStart 2 "0" (Api.decimal r)) = Some r.
Proof.
  intros Hr.
  assert (Hall : forallb
            (fun k => let r := N.of_nat k in
               Nat.eqb (String.length (Display.padStart 2 "0" (Api.decimal r))) 2
               && match Display.read_decimal (Display.padStart 2 "0" (Api.decimal r)) with
                  | Some v => N.eqb v r
                  | None => false
                  end)
            (seq 0 60) = true) by (vm_compute; reflexivity).
  rewrite forallb_forall in Hall.
  specialize (Hall (N.to_nat r)).
  rewrite N2Nat.id in Hall. cbv zeta in Hall.
  assert (Hin : In (N.to_nat r) (seq 0 60)) by (apply in_seq; lia).
  apply Hall in Hin. apply andb_true_iff in Hin as [Hlen Hread].
  apply Nat.eqb_eq in Hlen. split; [exact Hlen|].
  destruct (Display.read_decimal _) as [v|]; [|discriminate].
  apply N.eqb_eq in Hread. congruence.
Qed.

(** X11.  For a whole number of seconds up to [Number.MAX_SAFE_INTEGER],
    the displayed time reads back as the seconds it was made from, so two
    different times never look the same; the seconds field always has two
    digits and the minutes are not capped at an hour. *)
Theorem formatTime_reads_back (s : N) :
  (s <= Display.MAX_SAFE_INTEGER)%N ->
  Display.parseTime (Display.formatTime s) = Some s
  /\ exists minutes seconds,
       Display.split_at_colon (Display.formatTime s) = Some (minutes, seconds)
       /\ String.length seconds = 2%nat
       /\ Display.read_decimal minutes = Some (s / 60)%N
       /\ Display.read_decimal seconds = Some (s mod 60)%N.
Proof.
  intros _.
  assert (Hsplit : Display.split_at_colon (Display.formatTime s)
                   = Some (Api.decimal (s / 60),
                           Display.padStart 2 "0" (Api.decimal (s mod 60)))).
  { unfold Display.formatTime. cbv zeta. apply split_at_colon_digits. }
  destruct (seconds_field (s mod 60)) as [Hlen Hread];
    [apply N.mod_lt; discriminate|].
  split.
  - unfold Display.parseTime. rewrite Hsplit, read_decimal_decimal, Hread.
    f_equal. rewrite (N.div_mod s 60) at 3 by discriminate. reflexivity.
  - eexists _, _. split; [exact Hsplit|]. split; [exact Hlen|].
    split; [apply read_decimal_decimal | exact Hread].
Qed.

Lemma formatTime_reads_back_witness :
  (3725 <= Display.MAX_SAFE_INTEGER)%N
  /\ Display.formatTime 3725 = "62:05"
  /\ Display.parseTime (Display.formatTime 3725) = Some 3725%N.
Proof.
  assert (Hsafe : (3725 <= Display.MAX_SAFE_INTEGER)%N) by (vm_compute; discriminate).
  split; [exact Hsafe|]. split; [reflexivity|].
  exact (proj1 (formatTime_reads_back 3725 Hsafe)).
Defined.

(** ** Validation of a string argument *)

(** X12.  [validateString] lets through exactly: [undefined] and [null] when the
    value is not required, and a string that is not empty when it is
    required and is no longer than a [maxLength] other than 0.  Everything
    else is refused with an exception: a number, a boolean, an array or an
    object always, even when not required.  A [maxLength] of 0 limits
    nothing.  On a string, the required check without a length limit is
    the check [createVoiceWebSocket] relies on. *)
Theorem validateString_accepts {S} (value : Js.value) (fieldName : string)
    (required : bool) (maxLength : option N) (s : S) :
  let r := Api.validateString value fieldName required maxLength s in
  final r = s /\ calls r = []
  /\ (if Api.acceptable value required maxLength
      then out r = Return tt
      else exists message, out r = Throw message)
  /\ (forall (id : Js.jsstring) (s' : state),
        out (Api.validateString (Js.VString id) fieldName true None s')
        = out (validateString_required id fieldName s')).
Proof.
  cbv zeta. unfold Api.validateString, Api.acceptable.
  split; [|split; [|split]].
  - destruct value as [| |b|n|t|items|props], required, maxLength as [max|];
      try reflexivity; destruct t as [|c t]; try reflexivity;
      cbn -[N.of_nat N.ltb N.eqb];
      match goal with |- context [if ?b then _ else _] => destruct b end; reflexivity.
  - destruct value as [| |b|n|t|items|props], required, maxLength as [max|];
      try reflexivity; destruct t as [|c t]; try reflexivity;
      cbn -[N.of_nat N.ltb N.eqb];
      match goal with |- context [if ?b then _ else _] => destruct b end; reflexivity.
  - destruct value as [| |b|n|t|items|props], required, maxLength as [max|];
      try reflexivity; try (eexists; reflexivity);
      destruct t as [|c t]; try reflexivity; try (eexists; reflexivity);
      cbn -[N.of_nat N.ltb N.leb N.eqb];
      destruct (N.eqb_spec max 0) as [->|Hmax]; cbn -[N.of_nat N.ltb N.leb];
        try reflexivity;
      repeat match goal with
      | |- context [(?a <? ?b)%N] => destruct (N.ltb_spec a b)
      | |- context [(?a <=? ?b)%N] => destruct (N.leb_spec a b)
      end;
      cbn [length] in *; try lia; try reflexivity; eexists; reflexivity.
  - intros id s'. destruct id; reflexivity.
Qed.

(** ** Silence detection *)

Section Silence.
Import SilenceDetection.
Variables threshold durationMs : Q.


(** One run of [loop], by cases. *)
Lemma loop_cases f d :
  let r := loop threshold durationMs f d in
  analyserRef (final r) = analyserRef d
  /\ if negb (analyserRef d) then
       called r = false
       /\ silenceStartRef (final r) = silenceStartRef d
       /\ firedRef (final r) = firedRef d
     else if quiet threshold f then
       match silenceStartRef d with
       | None =>
           called r = false
           /\ silenceStartRef (final r) = Some (now f)
           /\ firedRef (final r) = firedRef d
       | Some start =>
           silenceStartRef (final r) = Some start
           /\ if negb (firedRef d) && due durationMs start f
              then called r = true /\ firedRef (final r) = true
              else called r = false /\ firedRef (final r) = firedRef d
       end
     else
       called r = false
       /\ silenceStartRef (final r) = None
       /\ firedRef (final r) = false.
Proof.
  destruct d as [raf [start|] fired [|] req]; unfold SilenceDetection.loop; cbn;
    (split; [destruct (quiet threshold f);
             try destruct (negb fired && due durationMs start f);
             reflexivity|]);
    try (repeat split; reflexivity);
    destruct (quiet threshold f); try (repeat split; reflexivity);
    (split; [destruct (negb fired && due durationMs start f);
             reflexivity|]);
    destruct (negb fired && due durationMs start f);
    split; reflexivity.
Qed.

Lemma after_snoc fs f d : after threshold durationMs (fs ++ [f]) d = final (loop threshold durationMs f (after threshold durationMs fs d)).
Proof. unfold SilenceDetection.after. rewrite fold_left_app. reflexivity. Qed.

Lemma after_analyser fs d : analyserRef (after threshold durationMs fs d) = analyserRef d.
Proof.
  induction fs as [|f fs IH] using rev_ind; [reflexivity|].
  rewrite after_snoc. destruct (loop_cases f (after threshold durationMs fs d)) as [-> _]. exact IH.
Qed.

(** The start of the silent stretch the hook is in. *)
Lemma after_start fs d start :
  silenceStartRef d = None ->
  silenceStartRef (after threshold durationMs fs d) = Some start ->
  exists before first mid,
    fs = before ++ first :: mid
    /\ now first = start
    /\ Forall (fun f => quiet threshold f = true) (first :: mid).
Proof.
  intros Hnone. revert start.
  induction fs as [|f fs IH] using rev_ind; intros start Hstart.
  - cbn in Hstart. congruence.
  - rewrite after_snoc in Hstart.
    destruct (loop_cases f (after threshold durationMs fs d)) as [_ Hcases].
    destruct (negb (analyserRef (after threshold durationMs fs d))) eqn:Hdetached.
    + (* no analyser: no frame has changed anything *)
      exfalso. rewrite after_analyser in Hdetached.
      assert (Hstill : forall gs, silenceStartRef (after threshold durationMs gs d) = None).
      { induction gs as [|g gs IHg] using rev_ind; [exact Hnone|].
        rewrite after_snoc.
        destruct (loop_cases g (after threshold durationMs gs d)) as [_ Hg].
        rewrite after_analyser, Hdetached in Hg.
        destruct Hg as (_ & -> & _). exact IHg. }
      rewrite <- after_snoc, Hstill in Hstart. discriminate.
    + destruct (quiet threshold f) eqn:Hquiet.
      * destruct (silenceStartRef (after threshold durationMs fs d)) as [start0|] eqn:Hstart0.
        -- destruct Hcases as [Hsame _]. rewrite Hsame in Hstart.
           injection Hstart as <-.
           destruct (IH start0 eq_refl) as (before & first & mid & -> & Hat & Hall).
           exists before, first, (mid ++ [f]).
           split; [rewrite <- app_assoc; reflexivity|]. split; [exact Hat|].
           rewrite app_comm_cons. apply Forall_app. split; [exact Hall|].
           constructor; [exact Hquiet|constructor].
        -- destruct Hcases as (_ & Hnew & _). rewrite Hnew in Hstart.
           injection Hstart as <-.
           exists fs, f, []. split; [reflexivity|]. split; [reflexivity|].
           constructor; [exact Hquiet|constructor].
      * destruct Hcases as (_ & Hnew & _). rewrite Hnew in Hstart. discriminate.
Qed.

(** X13.  The callback is called only after a silence that has lasted
    [durationMs] by the clock as the code reads it: if the run of [loop]
    for a frame calls it, that frame and the frames before it, back to
    some first one, were all below the threshold, and the reading of the
    clock at this frame less the reading at that first one, subtracted
    as doubles, is at least [durationMs]. *)
Theorem silence_needs_full_duration
    (earlier : list frame) (f : frame) (d : SilenceDetection.t) :
  silenceStartRef d = None ->
  called (loop threshold durationMs f (after threshold durationMs earlier d)) = true ->
  exists before first mid,
    earlier = before ++ first :: mid
    /\ Forall (fun g => quiet threshold g = true) (first :: mid ++ [f])
    /\ Double.ge (Double.sub (now f) (now first)) (Double.of_Q durationMs) = true.
Proof.
  intros Hnone Hcalled.
  destruct (loop_cases f (after threshold durationMs earlier d)) as [_ Hcases].
  destruct (negb (analyserRef (after threshold durationMs earlier d)));
    [destruct Hcases as [Hno _]; congruence|].
  destruct (quiet threshold f) eqn:Hquiet; [|destruct Hcases as [Hno _]; congruence].
  destruct (silenceStartRef (after threshold durationMs earlier d)) as [start|] eqn:Hstart;
    [|destruct Hcases as [Hno _]; congruence].
  destruct Hcases as [_ Hdue].
  destruct (negb (firedRef (after threshold durationMs earlier d)) && due durationMs start f) eqn:Hring;
    [|destruct Hdue as [Hno _]; congruence].
  apply andb_true_iff in Hring as [_ Hring].
  destruct (after_start earlier d start Hnone Hstart)
    as (before & first & mid & -> & Hat & Hall).
  exists before, first, mid. split; [reflexivity|]. split.
  - rewrite app_comm_cons. apply Forall_app. split; [exact Hall|].
    constructor; [exact Hquiet|constructor].
  - rewrite Hat. exact Hring.
Qed.

Lemma calls_of_cons b rings :
  calls_of (b :: rings) = ((if b then 1 else 0) + calls_of rings)%nat.
Proof. unfold calls_of. destruct b; reflexivity. Qed.

(** A silent stretch taken up by a hook that has fired or not. *)
Lemma watch_stretch start : forall (mid : list frame) (d : SilenceDetection.t),
  analyserRef d = true -> silenceStartRef d = Some start ->
  Forall (fun g => quiet threshold g = true) mid ->
  calls_of (watch threshold durationMs mid d)
  = (if negb (firedRef d) && existsb (due durationMs start) mid then 1 else 0)%nat.
Proof.
  induction mid as [|f mid IH]; intros d Hattached Hstart Hall.
  - cbn. rewrite andb_false_r. reflexivity.
  - apply Forall_cons in Hall as [Hquiet Hall].
    cbn [SilenceDetection.watch existsb].
    destruct (loop_cases f d) as [Han Hcases].
    rewrite Hattached in Hcases, Han. cbn [negb] in Hcases.
    rewrite Hquiet, Hstart in Hcases. destruct Hcases as [Hsame Hdue].
    specialize (IH (final (loop threshold durationMs f d)) Han Hsame Hall).
    rewrite calls_of_cons, IH.
    destruct (firedRef d) eqn:Hfired; cbn [negb andb] in *.
    + destruct Hdue as [-> ->]. reflexivity.
    + destruct (due durationMs start f) eqn:Hd; cbn [orb];
        destruct Hdue as [-> ->]; reflexivity.
Qed.

(** X14.  In one silent stretch the callback is called once, at the first
    frame at which the test of the code finds that [durationMs] have
    passed since the first frame of the stretch (the reading of the clock
    less the reading at that first frame, subtracted as doubles, is at
    least [durationMs]), and not at all when the stretch ends before
    that.  The hook is ready for such a stretch right after
    [attachAnalyser] and after every frame at or above the threshold. *)
Theorem silence_rings_once
    (first : frame) (mid : list frame) (d : SilenceDetection.t) :
  armed d = true ->
  Forall (fun g => quiet threshold g = true) (first :: mid) ->
  calls_of (watch threshold durationMs (first :: mid) d)
  = (if existsb (due durationMs (now first)) mid then 1 else 0)%nat
  /\ armed (final (attachAnalyser d)) = true
  /\ (forall (loud : frame) (d' : SilenceDetection.t),
        analyserRef d' = true -> quiet threshold loud = false ->
        armed (final (loop threshold durationMs loud d')) = true).
Proof.
  intros Harmed Hall. split; [|split].
  - unfold armed in Harmed.
    apply andb_true_iff in Harmed as [Harmed Hstart].
    apply andb_true_iff in Harmed as [Hattached Hfired].
    apply negb_true_iff in Hfired.
    destruct (silenceStartRef d) eqn:Hnone; [discriminate|].
    apply Forall_cons in Hall as [Hquiet Hall].
    cbn [SilenceDetection.watch].
    destruct (loop_cases first d) as [Han Hcases].
    rewrite Hattached in Hcases, Han. cbn [negb] in Hcases.
    rewrite Hquiet, Hnone in Hcases. destruct Hcases as (Hcalled & Hstart' & Hfired').
    pose proof (watch_stretch (now first) mid (final (loop threshold durationMs first d)) Han Hstart' Hall)
      as Hrest.
    rewrite Hfired', Hfired in Hrest. cbn [negb andb] in Hrest.
    rewrite calls_of_cons, Hcalled. exact Hrest.
  - destruct d as [[raf|] start fired an req]; reflexivity.
  - intros loud d' Hattached Hloud.
    destruct (loop_cases loud d') as [Han Hcases].
    rewrite Hattached in Hcases, Han. cbn [negb] in Hcases. rewrite Hloud in Hcases.
    destruct Hcases as (_ & Hstart & Hfired).
    unfold armed. rewrite Han, Hstart, Hfired. reflexivity.
Qed.

End Silence.

Lemma silence_needs_full_duration_witness :
  SilenceDetection.called
    (SilenceDetection.loop Examples.page_threshold Examples.page_durationMs
       (Examples.hush_at (20001 # 10))
       (SilenceDetection.after Examples.page_threshold Examples.page_durationMs
          [Examples.noise 0; Examples.hush_at (1 # 10); Examples.hush 1500]
          Examples.listening)) = true
  /\ exists before first mid,
       [Examples.noise 0; Examples.hush_at (1 # 10); Examples.hush 1500]
       = before ++ first :: mid
       /\ Forall (fun g => SilenceDetection.quiet Examples.page_threshold g = true)
                 (first :: mid ++ [Examples.hush_at (20001 # 10)])
       /\ Double.ge (Double.sub (SilenceDetection.now (Examples.hush_at (20001 # 10)))
                                (SilenceDetection.now first))
                    (Double.of_Q Examples.page_durationMs) = true.
Proof.
  assert (Hcalled :
    SilenceDetection.called
      (SilenceDetection.loop Examples.page_threshold Examples.page_durationMs
         (Examples.hush_at (20001 # 10))
         (SilenceDetection.after Examples.page_threshold Examples.page_durationMs
            [Examples.noise 0; Examples.hush_at (1 # 10); Examples.hush 1500]
            Examples.listening)) = true) by (vm_compute; reflexivity).
  split; [exact Hcalled|].
  apply (silence_needs_full_duration Examples.page_threshold Examples.page_durationMs
           [Examples.noise 0; Examples.hush_at (1 # 10); Examples.hush 1500]
           (Examples.hush_at (20001 # 10)) Examples.listening);
    [vm_compute; reflexivity | exact Hcalled].
Defined.

Lemma silence_rings_once_witness :
  SilenceDetection.calls_of
    (SilenceDetection.watch Examples.page_threshold Examples.page_durationMs
       [Examples.hush_at (1 # 10); Examples.hush 1000; Examples.hush_at (20001 # 10);
        Examples.hush 3000; Examples.hush 9000]
       Examples.listening)
  = 1%nat.
Proof.
  destruct (silence_rings_once Examples.page_threshold Examples.page_durationMs
              (Examples.hush_at (1 # 10))
              [Examples.hush 1000; Examples.hush_at (20001 # 10); Examples.hush 3000;
               Examples.hush 9000]
              Examples.listening) as [Hcalls _].
  - vm_compute. reflexivity.
  - repeat constructor.
  - rewrite Hcalls. vm_compute. reflexivity.
Defined.

(** ** The camera store *)

Lemma slice_end_snoc {A} (n : nat) (l : list A) (x : A) :
  CameraStore.slice_end (Datatypes.S n) (l ++ [x]) = CameraStore.slice_end n l ++ [x].
Proof.
  unfold CameraStore.slice_end. rewrite length_app. cbn [length].
  replace (length l + 1 - Datatypes.S n)%nat with (length l - n)%nat by lia.
  rewrite skipn_app.
  replace (length l - n - length l)%nat with 0%nat by lia. reflexivity.
Qed.

Lemma slice_end_twice {A} (n m : nat) (l : list A) :
  (n <= m)%nat ->
  CameraStore.slice_end n (CameraStore.slice_end m l) = CameraStore.slice_end n l.
Proof.
  intros Hnm. unfold CameraStore.slice_end.
  rewrite length_skipn, skipn_skipn. f_equal. lia.
Qed.

Lemma slice_end_length {A} (n : nat) (l : list A) :
  (length (CameraStore.slice_end n l) <= n)%nat.
Proof. unfold CameraStore.slice_end. rewrite length_skipn. lia. Qed.

Lemma slice_end_map {A B} (f : A -> B) (n : nat) (l : list A) :
  List.map f (CameraStore.slice_end n l) = CameraStore.slice_end n (List.map f l).
Proof. unfold CameraStore.slice_end. rewrite length_map. symmetry. apply skipn_map. Qed.

(** A window of [n + 1] samples takes one more. *)
Lemma window_push {A} (n : nat) (history : list A) (x : A) :
  CameraStore.slice_end n (CameraStore.slice_end (Datatypes.S n) history) ++ [x]
  = CameraStore.slice_end (Datatypes.S n) (history ++ [x]).
Proof. rewrite slice_end_twice by lia. symmetry. apply slice_end_snoc. Qed.

Lemma feed_snoc updates u s :
  CameraStore.feed (updates ++ [u]) s
  = CameraStore.updateMetrics (fst u) (snd u) (CameraStore.feed updates s).
Proof. unfold CameraStore.feed. rewrite fold_left_app. reflexivity. Qed.

Lemma given_snoc key updates u :
  CameraStore.given key (updates ++ [u])
  = CameraStore.given key updates
    ++ (if CameraStore.defined (Js.member (fst u) key) then [Js.member (fst u) key] else []).
Proof.
  unfold CameraStore.given. rewrite map_app, List.filter_app. cbn.
  destruct (CameraStore.defined (Js.member (fst u) key)); reflexivity.
Qed.

(** X15.  The store keeps a sliding window: after any series of updates from the
    reset state, the eye-contact and posture samples are the last 300
    values given for them, oldest first, and the expression log holds the
    last 100 expressions.  So the windows never grow past 300 and 100
    entries, however long the session. *)
Theorem samples_are_a_window (updates : list (Js.value * N)) :
  let s := CameraStore.feed updates CameraStore.initial in
  CameraStore.eyeContactSamples s
  = CameraStore.slice_end 300 (CameraStore.given "eyeContact" updates)
  /\ CameraStore.postureSamples s
     = CameraStore.slice_end 300 (CameraStore.given "posture" updates)
  /\ List.map fst (CameraStore.expressionLog s)
     = CameraStore.slice_end 100 (CameraStore.given "expression" updates)
  /\ (length (CameraStore.eyeContactSamples s) <= 300)%nat
  /\ (length (CameraStore.postureSamples s) <= 300)%nat
  /\ (length (CameraStore.expressionLog s) <= 100)%nat.
Proof.
  cbv zeta.
  assert (Hwin :
    CameraStore.eyeContactSamples (CameraStore.feed updates CameraStore.initial)
    = CameraStore.slice_end 300 (CameraStore.given "eyeContact" updates)
    /\ CameraStore.postureSamples (CameraStore.feed updates CameraStore.initial)
       = CameraStore.slice_end 300 (CameraStore.given "posture" updates)
    /\ List.map fst (CameraStore.expressionLog (CameraStore.feed updates CameraStore.initial))
       = CameraStore.slice_end 100 (CameraStore.given "expression" updates)).
  { induction updates as [|u updates IH] using rev_ind; [repeat split; reflexivity|].
    destruct IH as (Heye & Hposture & Hexpr).
    rewrite feed_snoc, !given_snoc. cbn [CameraStore.updateMetrics
      CameraStore.eyeContactSamples CameraStore.postureSamples CameraStore.expressionLog].
    split; [|split].
    - destruct (CameraStore.defined (Js.member (fst u) "eyeContact"));
        [|rewrite app_nil_r; exact Heye].
      rewrite Heye. apply (window_push 299).
    - destruct (CameraStore.defined (Js.member (fst u) "posture"));
        [|rewrite app_nil_r; exact Hposture].
      rewrite Hposture. apply (window_push 299).
    - destruct (CameraStore.defined (Js.member (fst u) "expression"));
        [|rewrite app_nil_r; exact Hexpr].
      rewrite map_app, slice_end_map, Hexpr. apply (window_push 99). }
  destruct Hwin as (Heye & Hposture & Hexpr).
  split; [exact Heye|]. split; [exact Hposture|]. split; [exact Hexpr|].
  split; [rewrite Heye; apply slice_end_length|].
  split; [rewrite Hposture; apply slice_end_length|].
  rewrite <- (length_map fst), Hexpr. apply slice_end_length.
Qed.

(** ** Face touches *)

Lemma collect_not_counted found c now s :
  CameraStore.nervousHabits
    (CameraStore.updateMetrics (snd (BodyLanguage.collect found c)) now s)
  = CameraStore.nervousHabits s
  /\ BodyLanguage.nervousCountRef (fst (BodyLanguage.collect found c))
     = (BodyLanguage.nervousCountRef c
        + match BodyLanguage.hands found with Some (_, true) => 1 | _ => 0 end)%N.
Proof.
  destruct found as [[eye|] [expr|] [pos|] [[[|] [|]]|]]; cbn;
    split; reflexivity || lia.
Qed.

Lemma touches_cons found now frames :
  BodyLanguage.touches ((found, now) :: frames)
  = (match BodyLanguage.hands found with Some (_, true) => 1 | _ => 0 end
     + BodyLanguage.touches frames)%N.
Proof.
  unfold BodyLanguage.touches. cbn [List.filter fst].
  destruct (BodyLanguage.hands found) as [[emphatic [|]]|]; cbn [length]; lia.
Qed.

(** X16.  The store never counts a face touch.  The analysis loop counts them
    in [nervousCountRef] and marks the frame with the property
    [nervousHabit], but [updateMetrics] reads [nervousHabits]: whatever
    the frames show, [nervousHabits] in the store stays what it was. *)
Theorem face_touches_never_reach_store
    (frames : list (BodyLanguage.detection * N))
    (c : BodyLanguage.counters) (s : CameraStore.t) :
  let after := BodyLanguage.analyse frames c s in
  CameraStore.nervousHabits (snd after) = CameraStore.nervousHabits s
  /\ BodyLanguage.nervousCountRef (fst after)
     = (BodyLanguage.nervousCountRef c + BodyLanguage.touches frames)%N.
Proof.
  cbv zeta. revert c s.
  induction frames as [|[found now] frames IH]; intros c s.
  - cbn. split; [reflexivity|]. unfold BodyLanguage.touches. cbn. lia.
  - cbn [BodyLanguage.analyse].
    destruct (collect_not_counted found c now s) as [Hstore Hcount].
    destruct (BodyLanguage.collect found c) as [c' metrics] eqn:Hcollect.
    cbn [fst snd] in Hstore, Hcount.
    destruct (IH c' (CameraStore.updateMetrics metrics now s)) as [IHs IHc].
    split; [rewrite IHs; exact Hstore|].
    rewrite IHc, Hcount, touches_cons. lia.
Qed.

(** ** The dominant expression *)

Lemma jsstring_eqb_eq a b : Js.jsstring_eqb a b = true <-> a = b.
Proof. unfold Js.jsstring_eqb. apply bool_decide_eq_true. Qed.

Lemma jsstring_eqb_sym a b : Js.jsstring_eqb a b = Js.jsstring_eqb b a.
Proof.
  unfold Js.jsstring_eqb.
  destruct (decide (a = b)) as [->|Hne].
  - reflexivity.
  - rewrite !bool_decide_eq_false_2 by congruence. reflexivity.
Qed.

Lemma count_of_bump key label counts :
  CameraStore.count_of key (CameraStore.bump label counts)
  = (CameraStore.count_of key counts
     + if Js.jsstring_eqb key label then 1 else 0)%nat.
Proof.
  unfold CameraStore.count_of.
  induction counts as [|[k n] counts IH]; cbn [CameraStore.bump find fst snd].
  - rewrite (jsstring_eqb_sym label key). destruct (Js.jsstring_eqb key label); reflexivity.
  - destruct (Js.jsstring_eqb k label) eqn:Hkl; cbn [find fst snd].
    + apply jsstring_eqb_eq in Hkl. subst k.
      rewrite (jsstring_eqb_sym label key).
      destruct (Js.jsstring_eqb key label); cbn [snd]; lia.
    + destruct (Js.jsstring_eqb k key) eqn:Hkk.
      * apply jsstring_eqb_eq in Hkk. subst k. rewrite Hkl. cbn [snd]. lia.
      * exact IH.
Qed.

Lemma occurrences_snoc key log label :
  CameraStore.occurrences key (log ++ [label])
  = (CameraStore.occurrences key log + if Js.jsstring_eqb key label then 1 else 0)%nat.
Proof.
  unfold CameraStore.occurrences. rewrite List.filter_app, length_app. cbn.
  destruct (Js.jsstring_eqb key label); reflexivity.
Qed.

(** The tally counts the occurrences. *)
Lemma count_of_tally key log :
  CameraStore.count_of key (fold_left (fun counts label => CameraStore.bump label counts) log [])
  = CameraStore.occurrences key log.
Proof.
  induction log as [|label log IH] using rev_ind; [reflexivity|].
  rewrite fold_left_app. cbn [fold_left].
  rewrite count_of_bump, IH, occurrences_snoc. reflexivity.
Qed.

(** The keys of a tally are distinct. *)
Lemma bump_keys label counts :
  NoDup (List.map fst counts) ->
  NoDup (List.map fst (CameraStore.bump label counts))
  /\ (forall k, In k (List.map fst (CameraStore.bump label counts)) ->
                k = label \/ In k (List.map fst counts)).
Proof.
  induction counts as [|[k n] counts IH]; intros Hnd; cbn [CameraStore.bump].
  - split; [apply NoDup_singleton|]. intros k [<-|[]]. left. reflexivity.
  - apply NoDup_cons in Hnd as [Hnotin Hnd]. cbn [List.map fst] in *.
    destruct (Js.jsstring_eqb k label) eqn:Hkl; cbn [List.map fst].
    + split; [apply NoDup_cons; split; assumption|]. intros k0 H0. right. exact H0.
    + destruct (IH Hnd) as [IHnd IHin]. split.
      * apply NoDup_cons. split; [|exact IHnd].
        rewrite list_elem_of_In. intros Hin. destruct (IHin k Hin) as [->|Hin'].
        -- rewrite (proj2 (jsstring_eqb_eq label label) eq_refl) in Hkl. discriminate.
        -- apply Hnotin. apply list_elem_of_In. exact Hin'.
      * intros k0 [<-|H0]; [right; left; reflexivity|].
        destruct (IHin k0 H0) as [->|Hin']; [left; reflexivity | right; right; exact Hin'].
Qed.

Lemma tally_keys log :
  NoDup (List.map fst (fold_left (fun counts label => CameraStore.bump label counts) log [])).
Proof.
  induction log as [|label log IH] using rev_ind; [constructor|].
  rewrite fold_left_app. cbn [fold_left]. apply bump_keys, IH.
Qed.

(** With distinct keys, an entry is what [count_of] finds. *)
Lemma count_of_entry counts k n :
  NoDup (List.map fst counts) -> In (k, n) counts -> CameraStore.count_of k counts = n.
Proof.
  unfold CameraStore.count_of.
  induction counts as [|[k0 n0] counts IH]; intros Hnd Hin; [destruct Hin|].
  apply NoDup_cons in Hnd as [Hnotin Hnd]. cbn [List.map fst] in *. cbn [find fst].
  destruct Hin as [Heq|Hin].
  - injection Heq as -> ->.
    rewrite (proj2 (jsstring_eqb_eq k k) eq_refl). reflexivity.
  - destruct (Js.jsstring_eqb k0 k) eqn:Hk; [|apply IH; assumption].
    apply jsstring_eqb_eq in Hk. subst k0. exfalso. apply Hnotin.
    apply list_elem_of_In. apply (in_map fst _ _ Hin).
Qed.

Lemma count_of_bound counts key bound :
  (forall e, In e counts -> (snd e <= bound)%nat) ->
  (CameraStore.count_of key counts <= bound)%nat.
Proof.
  intros Hall. unfold CameraStore.count_of.
  destruct (find _ counts) as [e|] eqn:Hfind; [|lia].
  apply find_some in Hfind as [Hin _]. apply Hall, Hin.
Qed.

(** The first entry after sorting has the largest count. *)
Lemma sort_entries_head entries :
  match CameraStore.sort_entries entries with
  | [] => entries = []
  | top :: _ => In top entries /\ forall e, In e entries -> (snd e <= snd top)%nat
  end.
Proof.
  induction entries as [|x entries IH]; [reflexivity|].
  cbn [CameraStore.sort_entries fold_right].
  fold (CameraStore.sort_entries entries).
  destruct (CameraStore.sort_entries entries) as [|top sorted]; cbn [CameraStore.insert_entry].
  - subst entries. split; [left; reflexivity|]. intros e [<-|[]]. lia.
  - destruct IH as [Hin Hmax].
    destruct (Nat.leb_spec (snd top) (snd x)) as [Hle|Hlt].
    + split; [left; reflexivity|]. intros e [<-|He]; [lia|].
      specialize (Hmax e He). lia.
    + split; [right; exact Hin|]. intros e [<-|He]; [lia | apply Hmax, He].
Qed.

Lemma occurrences_in key log :
  (0 < CameraStore.occurrences key log)%nat -> In key log.
Proof.
  unfold CameraStore.occurrences. intros Hpos.
  destruct (List.filter (Js.jsstring_eqb key) log) as [|x rest] eqn:Hf;
    [cbn in Hpos; lia|].
  assert (Hx : In x (List.filter (Js.jsstring_eqb key) log)) by (rewrite Hf; left; reflexivity).
  apply List.filter_In in Hx as [Hin Heq]. apply jsstring_eqb_eq in Heq. subst x. exact Hin.
Qed.

(** X17.  For a log of the labels that [detectExpression] returns
    (['smiling'], ['tense'], ['confident'], ['neutral']), the dominant
    expression is one of the labels of the log, and no label occurs more
    often in the log; for an empty log it is ['neutral']. *)
Theorem dominant_expression_is_most_frequent (log : list Js.jsstring) :
  log <> [] ->
  forallb CameraStore.is_expression log = true ->
  let dominant := CameraStore.getDominantExpression log in
  In dominant log
  /\ (forall label,
        (CameraStore.occurrences label log <= CameraStore.occurrences dominant log)%nat)
  /\ CameraStore.getDominantExpression [] = Js.lit "neutral".
Proof.
  intros Hne Hexpressions dominant.
  assert (Hlabels : Forall (fun label : Js.jsstring => label <> []) log).
  { rewrite Forall_forall. intros label Hin Hempty. subst label.
    rewrite forallb_forall in Hexpressions.
    apply list_elem_of_In in Hin. specialize (Hexpressions _ Hin). discriminate. }
  set (counts := fold_left (fun counts label => CameraStore.bump label counts) log []).
  assert (Hfirst : exists first rest, log = first :: rest)
    by (destruct log as [|first rest]; [contradiction|eauto]).
  destruct Hfirst as (first & rest & Hlog).
  assert (Hdom : dominant
                 = match CameraStore.sort_entries counts with
                   | (label, _) :: _ => match label with [] => Js.lit "neutral" | _ => label end
                   | [] => Js.lit "neutral"
                   end).
  { subst dominant counts. rewrite Hlog. reflexivity. }
  pose proof (sort_entries_head counts) as Hhead.
  destruct (CameraStore.sort_entries counts) as [|[top n] sorted].
  - (* the tally of a log that is not empty has an entry *)
    exfalso.
    assert (Hcount : CameraStore.count_of first counts = CameraStore.occurrences first log)
      by apply count_of_tally.
    rewrite Hhead in Hcount. rewrite Hlog in Hcount.
    unfold CameraStore.occurrences in Hcount. cbn [List.filter] in Hcount.
    rewrite (proj2 (jsstring_eqb_eq first first) eq_refl) in Hcount. discriminate.
  - destruct Hhead as [Hin Hmax].
    assert (Hn : CameraStore.occurrences top log = n).
    { rewrite <- count_of_tally. apply count_of_entry; [apply tally_keys | exact Hin]. }
    assert (Hbound : forall label, (CameraStore.occurrences label log <= n)%nat).
    { intros label. rewrite <- count_of_tally. apply count_of_bound.
      intros e He. apply (Hmax e He). }
    assert (Htop : In top log).
    { apply occurrences_in. rewrite Hn.
      specialize (Hbound first). rewrite Hlog in Hbound.
      unfold CameraStore.occurrences in Hbound. cbn [List.filter] in Hbound.
      rewrite (proj2 (jsstring_eqb_eq first first) eq_refl) in Hbound.
      cbn [length] in Hbound. lia. }
    assert (Hnonempty : top <> []).
    { rewrite Forall_forall in Hlabels. apply Hlabels. apply list_elem_of_In. exact Htop. }
    assert (Heq : dominant = top) by (rewrite Hdom; destruct top; [contradiction|reflexivity]).
    rewrite Heq. split; [exact Htop|]. split; [|reflexivity].
    intros label. rewrite Hn. apply Hbound.
Qed.

Lemma dominant_expression_is_most_frequent_witness :
  let log := [Js.lit "neutral"; Js.lit "smiling"; Js.lit "tense"; Js.lit "smiling"] in
  CameraStore.getDominantExpression log = Js.lit "smiling"
  /\ In (CameraStore.getDominantExpression log) log
  /\ forall label,
       (CameraStore.occurrences label log
        <= CameraStore.occurrences (CameraStore.getDominantExpression log) log)%nat.
Proof.
  intros log. split; [vm_compute; reflexivity|].
  assert (Hne : log <> []) by discriminate.
  assert (Hlabels : forallb CameraStore.is_expression log = true) by reflexivity.
  destruct (dominant_expression_is_most_frequent log Hne Hlabels) as (Hin & Hmost & _).
  split; [exact Hin | exact Hmost].
Defined.

(** ** A browser without speech synthesis *)

Import Session.

Lemma cannot_record_spec s :
  cannot_record s = true
  <-> speechSynthesis (synth s) = false
      /\ awaitingStart (susp s) = 0%nat
      /\ AudioRecorder.recorder_active (media s) = false.
Proof.
  unfold cannot_record. rewrite !andb_true_iff, !negb_true_iff, Nat.eqb_eq. tauto.
Qed.

(** [stopSpeech] throws there, so a turn stops at its first statement. *)
Lemma voice_begin_turn_cannot_record :
  preserves (fun s => cannot_record s = true) VoiceSession.begin_turn.
Proof.
  intros s Hs. pose proof Hs as Hs'. apply cannot_record_spec in Hs' as (Hsynth & _).
  destruct s as [cur u r m a sp [syn iv] b su cd lf cam sd]. cbn in Hsynth. subst syn.
  exact Hs.
Qed.

Lemma camera_handleHoldStart_cannot_record :
  preserves (fun s => cannot_record s = true) CameraSession.handleHoldStart.
Proof.
  intros s Hs. pose proof Hs as Hs'. apply cannot_record_spec in Hs' as (Hsynth & _).
  destruct s as [cur u r m a sp [syn iv] b su cd lf cam sd]. cbn in Hsynth. subst syn.
  exact Hs.
Qed.

Lemma recorder_stop_cannot_record :
  preserves (fun s => cannot_record s = true) (recorder AudioRecorder.stopRecording).
Proof.
  intros s Hs. apply cannot_record_spec in Hs as (Hsynth & Hwait & Hidle).
  apply cannot_record_spec. cbn. split; [exact Hsynth|]. split; [exact Hwait|].
  destruct (stopRecording_leaves (media s)) as (_ & _ & _ & Hi & _). exact Hi.
Qed.

Lemma recorder_step_cannot_record e :
  preserves (fun s => cannot_record s = true) (recorder (AudioRecorder.step e)).
Proof.
  intros s Hs. apply cannot_record_spec in Hs as (Hsynth & Hwait & Hidle).
  apply cannot_record_spec. cbn. split; [exact Hsynth|]. split; [exact Hwait|].
  unfold AudioRecorder.recorder_active in *. rewrite step_recorder. exact Hidle.
Qed.

Lemma voice_userMedia_cannot_record `{Runtime} p :
  preserves (fun s => cannot_record s = true) (VoiceSession.handle (UserMedia p)).
Proof.
  intros s Hs. pose proof Hs as Hs'. apply cannot_record_spec in Hs' as (_ & Hwait & _).
  cbn [VoiceSession.handle]. unfold bind at 1. cbn [read out final calls].
  rewrite Hwait. exact Hs.
Qed.

Lemma camera_userMedia_cannot_record `{Runtime} p :
  preserves (fun s => cannot_record s = true) (CameraSession.handle (UserMedia p)).
Proof.
  intros s Hs. pose proof Hs as Hs'. apply cannot_record_spec in Hs' as (_ & Hwait & _).
  cbn [CameraSession.handle]. unfold bind at 1. cbn [read out final calls].
  rewrite Hwait. exact Hs.
Qed.

Lemma voice_resume_cannot_record awaiting :
  preserves (fun s => cannot_record s = true) (VoiceSession.resume awaiting).
Proof.
  pose proof recorder_stop_cannot_record as Hstop. pose proof recorder_step_cannot_record as Hstep.
  induction awaiting as [|i rest IH]; cbn; [apply preserves_ret|]. preserves_auto.
Qed.

Lemma camera_resume_cannot_record awaiting :
  preserves (fun s => cannot_record s = true) (CameraSession.resume awaiting).
Proof.
  pose proof recorder_stop_cannot_record as Hstop. pose proof recorder_step_cannot_record as Hstep.
  induction awaiting as [|i rest IH]; cbn; [apply preserves_ret|]. preserves_auto.
Qed.

Lemma voice_dispatch_cannot_record `{Runtime} e :
  preserves (fun s => cannot_record s = true) (VoiceSession.dispatch e).
Proof.
  pose proof recorder_stop_cannot_record as Hstop. pose proof recorder_step_cannot_record as Hstep.
  pose proof voice_begin_turn_cannot_record as Hbegin.
  pose proof voice_userMedia_cannot_record as Hmedia.
  pose proof voice_resume_cannot_record as Hresume.
  assert (Hh : preserves (fun s => cannot_record s = true) (VoiceSession.handle e))
    by (destruct e; preserves_auto).
  assert (Hrender : forall fuel,
            preserves (fun s => cannot_record s = true) (VoiceSession.render fuel))
    by voice_render_preserves.
  unfold VoiceSession.dispatch. preserves_auto.
Qed.

Lemma camera_dispatch_cannot_record `{Runtime} e :
  preserves (fun s => cannot_record s = true) (CameraSession.dispatch e).
Proof.
  pose proof recorder_stop_cannot_record as Hstop. pose proof recorder_step_cannot_record as Hstep.
  pose proof camera_handleHoldStart_cannot_record as Hbegin.
  pose proof camera_userMedia_cannot_record as Hmedia.
  pose proof camera_resume_cannot_record as Hresume.
  assert (Hh : preserves (fun s => cannot_record s = true) (CameraSession.handle e))
    by (destruct e; preserves_auto).
  assert (Hrender : forall fuel,
            preserves (fun s => cannot_record s = true) (CameraSession.render fuel))
    by camera_render_preserves.
  unfold CameraSession.dispatch. preserves_auto.
Qed.

(** X18.  In a browser without [speechSynthesis] no turn is ever recorded, on
    either page: every handler that starts a turn calls the hook's [stop]
    first, which throws there, so [startRecording] is never reached.
    Whatever the user does, the recorder never becomes active and no
    [getUserMedia] is ever waited for. *)
Theorem no_turn_without_speech_synthesis `{Runtime} (es : list event) (s : state) :
  speechSynthesis (synth s) = false ->
  awaitingStart (susp s) = 0%nat ->
  AudioRecorder.recorder_active (media s) = false ->
  (let s' := final (VoiceSession.run es s) in
   AudioRecorder.recorder_active (media s') = false /\ awaitingStart (susp s') = 0%nat)
  /\
  (let s' := final (CameraSession.run es s) in
   AudioRecorder.recorder_active (media s') = false /\ awaitingStart (susp s') = 0%nat).
Proof.
  intros Hsynth Hwait Hidle.
  assert (Hs : cannot_record s = true) by (apply cannot_record_spec; auto).
  split; cbv zeta.
  - pose proof (preserves_run_with (fun s0 => cannot_record s0 = true)
                  VoiceSession.dispatch voice_dispatch_returns
                  voice_dispatch_cannot_record es s Hs) as Hrun.
    apply cannot_record_spec in Hrun as (_ & Hw & Hi). split; assumption.
  - pose proof (preserves_run_with (fun s0 => cannot_record s0 = true)
                  CameraSession.dispatch camera_dispatch_returns
                  camera_dispatch_cannot_record es s Hs) as Hrun.
    apply cannot_record_spec in Hrun as (_ & Hw & Hi). split; assumption.
Qed.

Lemma no_turn_without_speech_synthesis_witness :
  let s' := final (VoiceSession.run (rt := Json.runtime) Scenario.held_turn
                     Examples.without_synthesis) in
  AudioRecorder.recorder_active (media s') = false /\ awaitingStart (susp s') = 0%nat.
Proof.
  destruct (@no_turn_without_speech_synthesis Json.runtime Scenario.held_turn
              Examples.without_synthesis eq_refl eq_refl eq_refl) as [Hvoice _].
  exact Hvoice.
Defined.

(** ** The demo *)

Lemma offline_demo_spec s :
  offline_demo s = true <-> currentSession s = None /\ sockets (net s) = [].
Proof.
  unfold offline_demo. destruct (currentSession s), (sockets (net s)); split;
    try discriminate; try tauto; intros [H1 H2]; discriminate.
Qed.

Lemma connectWs_offline_demo :
  preserves (fun s => offline_demo s = true) connectWs.
Proof.
  intros s Hs. pose proof Hs as Hs'. apply offline_demo_spec in Hs' as [Hnone _].
  unfold connectWs, bind. cbn [read out final calls]. rewrite Hnone. exact Hs.
Qed.

Lemma set_readyState_offline_demo ws f :
  preserves (fun s => offline_demo s = true) (set_readyState ws f).
Proof.
  intros s Hs. pose proof Hs as Hs'. apply offline_demo_spec in Hs' as [Hnone Hsocks].
  apply offline_demo_spec. cbn. rewrite Hsocks. split; [exact Hnone | reflexivity].
Qed.

Lemma close_offline_demo ws code :
  preserves (fun s => offline_demo s = true) (close ws code).
Proof.
  unfold close. apply preserves_bind; [apply set_readyState_offline_demo|].
  intros _. apply preserves_emit.
Qed.

Lemma voice_resume_offline_demo awaiting :
  preserves (fun s => offline_demo s = true) (VoiceSession.resume awaiting).
Proof.
  induction awaiting as [|i rest IH]; cbn; [apply preserves_ret|]. preserves_auto.
Qed.

Lemma camera_resume_offline_demo awaiting :
  preserves (fun s => offline_demo s = true) (CameraSession.resume awaiting).
Proof.
  induction awaiting as [|i rest IH]; cbn; [apply preserves_ret|]. preserves_auto.
Qed.

Lemma voice_dispatch_offline_demo `{Runtime} e :
  preserves (fun s => offline_demo s = true) (VoiceSession.dispatch e).
Proof.
  pose proof connectWs_offline_demo as Hconnect. pose proof set_readyState_offline_demo as Hset.
  pose proof close_offline_demo as Hclose.
  pose proof voice_resume_offline_demo as Hresume.
  assert (Hh : preserves (fun s => offline_demo s = true) (VoiceSession.handle e))
    by (destruct e; preserves_auto).
  assert (Hrender : forall fuel,
            preserves (fun s => offline_demo s = true) (VoiceSession.render fuel))
    by voice_render_preserves.
  unfold VoiceSession.dispatch. preserves_auto.
Qed.

Lemma camera_dispatch_offline_demo `{Runtime} e :
  preserves (fun s => offline_demo s = true) (CameraSession.dispatch e).
Proof.
  pose proof connectWs_offline_demo as Hconnect. pose proof set_readyState_offline_demo as Hset.
  pose proof close_offline_demo as Hclose.
  pose proof camera_resume_offline_demo as Hresume.
  assert (Hh : preserves (fun s => offline_demo s = true) (CameraSession.handle e))
    by (destruct e; preserves_auto).
  assert (Hrender : forall fuel,
            preserves (fun s => offline_demo s = true) (CameraSession.render fuel))
    by camera_render_preserves.
  unfold CameraSession.dispatch. preserves_auto.
Qed.

Lemma offline_demo_no_socket_open s : offline_demo s = true -> no_socket_open s = true.
Proof.
  intros Hs. apply offline_demo_spec in Hs as [_ Hsocks].
  unfold no_socket_open. rewrite Hsocks. reflexivity.
Qed.

Lemma demo_dispatch_unsent (dispatch : event -> M state unit) (handle : event -> M state unit)
    (rest : M state unit) :
  (forall e, dispatch e = (uncaught (handle e) ;; rest)%handler) ->
  (forall ws, handle (WsOpen ws) = (set_readyState ws (fun _ => OPEN) ;; onopen)%handler) ->
  (forall e, is_open e = false -> unsent (handle e)) ->
  (forall e, preserves (fun s => offline_demo s = true) (handle e)) ->
  unsent rest ->
  forall e s, offline_demo s = true -> sent (calls (dispatch e s)) = [].
Proof.
  intros Hdispatch Hopen Hhandle Hdemo Hrest e s Hs.
  rewrite Hdispatch.
  assert (Hfirst : sent (calls (uncaught (handle e) s)) = []).
  { destruct (is_open e) eqn:Ho.
    - destruct e; try discriminate. rewrite Hopen. reflexivity.
    - apply (unsent_uncaught _ (Hhandle e Ho) s), offline_demo_no_socket_open, Hs. }
  assert (Hthen : offline_demo (final (uncaught (handle e) s)) = true)
    by (apply preserves_uncaught; [apply Hdemo | exact Hs]).
  unfold bind. destruct (out (uncaught (handle e) s)); cbn [calls]; [|exact Hfirst].
  rewrite sent_app, Hfirst.
  apply (Hrest _ (offline_demo_no_socket_open _ Hthen)).
Qed.

Lemma demo_run_unsent (dispatch : event -> M state unit) :
  (forall e s, out (dispatch e s) = Return tt) ->
  (forall e, preserves (fun s => offline_demo s = true) (dispatch e)) ->
  (forall e s, offline_demo s = true -> sent (calls (dispatch e s)) = []) ->
  forall es s, offline_demo s = true ->
    offline_demo (final (run_with dispatch es s)) = true
    /\ sent (calls (run_with dispatch es s)) = [].
Proof.
  intros Hret Hdemo Hsent es. induction es as [|e es IH]; intros s Hs.
  - split; [exact Hs | reflexivity].
  - cbn [run_with].
    rewrite (final_bind _ _ _ tt), (calls_bind _ _ _ tt) by apply Hret.
    destruct (IH (final (dispatch e s)) (Hdemo e s Hs)) as [IHdemo IHsent].
    split; [exact IHdemo|]. rewrite sent_app, (Hsent e s Hs), IHsent. reflexivity.
Qed.

(** X19.  The demo never connects to the session service: on a page
    without a session no WebSocket is ever made and no frame is ever sent,
    whatever the user does and whatever timers run, on both pages.  (The
    camera page still fetches its vision models at mount, session or
    not.) *)
Theorem demo_never_connects `{Runtime} (es : list event) (s : state) :
  currentSession s = None ->
  sockets (net s) = [] ->
  (let r := VoiceSession.run es s in
   sockets (net (final r)) = [] /\ sent (calls r) = [])
  /\
  (let r := CameraSession.run es s in
   sockets (net (final r)) = [] /\ sent (calls r) = []).
Proof.
  intros Hnone Hsocks.
  assert (Hs : offline_demo s = true) by (apply offline_demo_spec; auto).
  split; cbv zeta.
  - destruct (demo_run_unsent VoiceSession.dispatch voice_dispatch_returns
                voice_dispatch_offline_demo) with (es := es) (s := s) as [Hdemo Hsent];
      [|exact Hs|].
    + apply (demo_dispatch_unsent VoiceSession.dispatch VoiceSession.handle
               (uncaught VoiceSession.commit ;;
                s0 <- read ;;
                VoiceSession.resume (awaitingStop (susp s0)) ;;
                uncaught VoiceSession.commit)%handler);
        [reflexivity | reflexivity | apply voice_handle_unsent | |apply voice_rest_unsent].
      intros e. pose proof connectWs_offline_demo as Hconnect. pose proof set_readyState_offline_demo as Hset. pose proof close_offline_demo as Hclose.
      destruct e; preserves_auto.
    + apply offline_demo_spec in Hdemo as [_ Hnet]. split; assumption.
  - destruct (demo_run_unsent CameraSession.dispatch camera_dispatch_returns
                camera_dispatch_offline_demo) with (es := es) (s := s) as [Hdemo Hsent];
      [|exact Hs|].
    + apply (demo_dispatch_unsent CameraSession.dispatch CameraSession.handle
               (uncaught CameraSession.commit ;;
                s0 <- read ;;
                CameraSession.resume (awaitingStop (susp s0)) ;;
                uncaught CameraSession.commit)%handler);
        [reflexivity | reflexivity | apply camera_handle_unsent | |apply camera_rest_unsent].
      intros e. pose proof connectWs_offline_demo as Hconnect. pose proof set_readyState_offline_demo as Hset. pose proof close_offline_demo as Hclose.
      destruct e; preserves_auto.
    + apply offline_demo_spec in Hdemo as [_ Hnet]. split; assumption.
Qed.

Lemma demo_never_connects_witness :
  let r := VoiceSession.run (rt := Json.runtime) Scenario.held_turn (initial None) in
  sockets (net (final r)) = [] /\ sent (calls r) = [].
Proof.
  destruct (@demo_never_connects Json.runtime Scenario.held_turn (initial None)
              eq_refl eq_refl) as [Hvoice _].
  exact Hvoice.
Defined.

(** ** Starting a turn on the voice page *)

Lemma closing_not_live (ws : nat) (socks : list readyState) :
  match
    alter (fun st => match st with CONNECTING | OPEN => CLOSING | _ => st end) ws socks !! ws
  with
  | Some st => negb (is_live st)
  | None => true
  end = true.
Proof.
  revert ws. induction socks as [|st socks IH]; intros [|ws]; cbn; try reflexivity.
  - destruct st; reflexivity.
  - apply IH.
Qed.

Lemma closing_keeps_closed (ws w : nat) (socks : list readyState) :
  match socks !! w with Some st => negb (is_live st) | None => true end = true ->
  match
    alter (fun st => match st with CONNECTING | OPEN => CLOSING | _ => st end) ws socks !! w
  with
  | Some st => negb (is_live st)
  | None => true
  end = true.
Proof.
  revert ws w. induction socks as [|st socks IH]; intros [|ws] [|w]; cbn; try (intros; reflexivity);
    try (intros H; exact H).
  - destruct st; intros; reflexivity || assumption.
  - apply IH.
Qed.

(** The cleanup of the connect effect resets the played-flag and leaves
    the socket of [wsRef] closing or closed, whether or not it returns. *)
Lemma voice_cleanup_closes (s : state) :
  let s' := final (VoiceSession.connect_cleanup s) in
  welcomePlayedRef (refs s') = false /\ current_closed s' = true.
Proof.
  destruct s as [cur u [tr [tm|] [w|] rc [rt|] wp aa] m a sp [[|] iv] [socks tms ids]
                  su cd lf cam sd];
    cbn; (split; [reflexivity|]); try reflexivity;
    unfold current_closed; cbn; apply closing_not_live.
Qed.

(** The connect effect leaves the played-flag alone; when it throws it
    has made no socket and registered no cleanup. *)
Lemma voice_effect_throws (d : bool * bool * N) (s : state) e :
  out (VoiceSession.connect_effect d s) = Throw e ->
  let s' := final (VoiceSession.connect_effect d s) in
  connectDeps s' = connectDeps s
  /\ welcomePlayedRef (refs s') = welcomePlayedRef (refs s)
  /\ (current_closed s = true -> current_closed s' = true).
Proof.
  destruct s as [[[|c id]|] u [tr tm [w|] rc rt wp aa] m a sp sy [socks tms ids]
                  su cd lf cam sd];
    cbn; intros Hthrow; try discriminate;
    (split; [reflexivity|]); (split; [reflexivity|]);
    unfold current_closed; cbn; intros Hclosed; [|exact Hclosed].
  apply closing_keeps_closed. exact Hclosed.
Qed.

(** The page once React has taken it down. *)
Lemma voice_unmount_spec (s : state) :
  let s' := final (VoiceSession.unmount s) in
  life s' = Unmounted
  /\ (connectDeps s <> None ->
      welcomePlayedRef (refs s') = false /\ current_closed s' = true)
  /\ (connectDeps s = None ->
      welcomePlayedRef (refs s') = welcomePlayedRef (refs s)
      /\ current_closed s' = current_closed s).
Proof.
  cbv zeta. split; [apply voice_unmount_life|].
  unfold VoiceSession.unmount. rewrite bind_read.
  rewrite (final_bind _ _ _ tt) by reflexivity. cbn [modify final].
  destruct (connectDeps s) as [d|]; (split; [intros Hsome|intros Hnone]);
    try contradiction; try discriminate; [|split; reflexivity].
  rewrite (final_bind _ _ _ tt) by reflexivity. cbn [modify final].
  destruct (guarded_spec VoiceSession.connect_cleanup
              (with_connectDeps (fun _ => None) (with_life (fun _ => Unmounted) s)))
    as [Hfinal [(_ & Hout & _)|(e & _ & Hout & _)]];
    rewrite (final_bind _ _ _ _ Hout); cbn [ret final]; rewrite Hfinal;
    apply voice_cleanup_closes.
Qed.

(** A render that finds the connect effect due, on a page with a session,
    ends with the page taken down, the played-flag reset and the socket
    of [wsRef] closing or closed. *)
Lemma voice_render_closes (fuel : nat) : forall (s : state) d session_id,
  currentSession s = Some session_id ->
  connectDeps s = Some d -> VoiceSession.deps_changed d s = true ->
  let s' := final (VoiceSession.render fuel s) in
  life s' = Unmounted
  /\ welcomePlayedRef (refs s') = false
  /\ current_closed s' = true.
Proof.
  induction fuel as [|fuel IH]; intros s d session_id Hsession Hdeps Hdue; cbv zeta;
    cbn [VoiceSession.render]; rewrite bind_read, Hdeps, Hdue.
  - rewrite (final_bind _ _ _ tt) by reflexivity. cbn [emit final].
    destruct (voice_unmount_spec s) as (Hlife & Hsome & _).
    split; [exact Hlife|]. apply Hsome. rewrite Hdeps. discriminate.
  - rewrite (final_bind _ _ _ tt) by reflexivity. cbn [modify final].
    set (s1 := with_connectDeps (fun _ => None) s).
    destruct (voice_cleanup_spec s1) as (Hl1 & Hc1 & Hd1 & Hh1 & Hr1 & _ & Hw1).
    destruct (voice_cleanup_closes s1) as [Hflag1 Hclosed1].
    destruct (guarded_spec VoiceSession.connect_cleanup s1)
      as [Hf1 [(Hret1 & Hout1 & _)|(e1 & _ & Hout1 & _)]];
      rewrite (final_bind _ _ _ _ Hout1), Hf1;
      set (s2 := final (VoiceSession.connect_cleanup s1)) in *;
      destruct (voice_effect_spec (VoiceSession.rendered s) s2)
        as (Hl2 & Hc2 & Hu2 & Hv2 & _ & Hd2);
      (destruct (guarded_spec (VoiceSession.connect_effect (VoiceSession.rendered s)) s2)
         as [Hf2 [(Hret2 & Hout2 & _)|(e2 & Hthrow2 & Hout2 & _)]]);
      rewrite (final_bind _ _ _ _ Hout2), Hf2; cbn [orb];
      set (s3 := final (VoiceSession.connect_effect (VoiceSession.rendered s) s2)) in *.
    + (* the cleanup and the effect returned: the effect is due again *)
      apply (IH s3 (VoiceSession.rendered s) session_id).
      * rewrite Hc2, Hc1. exact Hsession.
      * apply Hd2; [exact Hret2|]. rewrite Hc1. cbn. rewrite Hsession. discriminate.
      * unfold VoiceSession.deps_changed, VoiceSession.rendered, same_deps. cbn [fst snd].
        rewrite Hu2, Hv2, Hh1, Hr1, (Hw1 Hret1). cbn.
        rewrite !Bool.eqb_reflx. cbn.
        apply negb_true_iff, N.eqb_neq. subst s1.
        change (voice (with_connectDeps (fun _ => None) s)) with (voice s). lia.
    + (* the effect threw *)
      destruct (voice_unmount_spec s3) as (Hlife & _ & Hnone).
      destruct (voice_effect_throws _ _ _ Hthrow2) as (Hd3 & Hflag3 & Hclosed3).
      fold s3 in Hd3, Hflag3, Hclosed3.
      split; [exact Hlife|].
      destruct Hnone as [-> ->]; [rewrite Hd3, Hd1; reflexivity|].
      split; [rewrite Hflag3; exact Hflag1 | exact (Hclosed3 Hclosed1)].
    + (* the cleanup threw, the effect returned *)
      destruct (voice_unmount_spec s3) as (Hlife & Hsome & _).
      split; [exact Hlife|]. apply Hsome.
      rewrite Hd2; [discriminate | exact Hret2 |]. rewrite Hc1. cbn. rewrite Hsession.
      discriminate.
    + (* both threw *)
      destruct (voice_unmount_spec s3) as (Hlife & _ & Hnone).
      destruct (voice_effect_throws _ _ _ Hthrow2) as (Hd3 & Hflag3 & Hclosed3).
      fold s3 in Hd3, Hflag3, Hclosed3.
      split; [exact Hlife|].
      destruct Hnone as [-> ->]; [rewrite Hd3, Hd1; reflexivity|].
      split; [rewrite Hflag3; exact Hflag1 | exact (Hclosed3 Hclosed1)].
Qed.

Lemma one_live_current_closed (s : state) :
  one_live_socket s = true -> current_closed s = true -> no_live_socket s = true.
Proof.
  intros Hone Hclosed. unfold no_live_socket. apply forallb_forall. intros st Hin.
  destruct (is_live st) eqn:Hlive; [|reflexivity]. exfalso.
  apply list_elem_of_In, list_elem_of_lookup in Hin as [ws Hws].
  rewrite one_live_socket_spec in Hone. specialize (Hone ws st Hws Hlive).
  unfold current_closed in Hclosed. rewrite Hone, Hws, Hlive in Hclosed. discriminate.
Qed.

(** The page that a turn has taken down stays as it is through the rest
    of the turn of the event loop. *)
Lemma voice_resume_taken_down awaiting : preserves taken_down (VoiceSession.resume awaiting).
Proof.
  unfold taken_down.
  induction awaiting as [|i rest IH]; cbn [VoiceSession.resume]; preserves_auto.
Qed.

Lemma voice_commit_taken_down `{Runtime} : preserves taken_down VoiceSession.commit.
Proof.
  intros s Hs. unfold VoiceSession.commit. rewrite bind_read.
  unfold is_mounted. destruct Hs as [Hlife Hrest]. rewrite Hlife. split; assumption.
Qed.

(** What the handlers that start a turn have done when the render comes:
    [isHolding] or [isRecording] is another value. *)
Lemma voice_turn_started `{Runtime} (e : event) (s : state) :
  is_mounted s = true -> starts_turn e s = true ->
  let s1 := final (VoiceSession.handle e s) in
  life s1 = life s
  /\ currentSession s1 = currentSession s
  /\ connectDeps s1 = connectDeps s
  /\ (isHolding (ui s1) = negb (isHolding (ui s)) /\ isRecording (ui s1) = isRecording (ui s)
      \/ isHolding (ui s1) = isHolding (ui s) /\ isRecording (ui s1) = negb (isRecording (ui s))).
Proof.
  intros Hmounted Hstarts.
  assert (Hbegin : forall (h r : bool),
            preserves (fun x => life x = life s /\ currentSession x = currentSession s
                                /\ connectDeps x = connectDeps s
                                /\ isHolding (ui x) = h /\ isRecording (ui x) = r)
                      VoiceSession.begin_turn)
    by (intros h r; preserves_auto).
  destruct e; try discriminate; cbn [starts_turn] in Hstarts;
    apply andb_true_iff in Hstarts as [Hmode Hidle]; apply negb_true_iff in Hidle;
    cbn [VoiceSession.handle]; rewrite bind_read, Hmounted.
  - rewrite Hmode. cbn [andb when]. unfold VoiceSession.handleHoldStart.
    rewrite (final_bind _ _ _ tt) by reflexivity.
    destruct (Hbegin true (isRecording (ui s)) (final (setIsHolding true s)))
      as (H1 & H2 & H3 & H4 & H5); [repeat split; reflexivity|].
    cbv zeta. rewrite H1, H2, H3, H4, H5, Hidle.
    repeat split. left. split; reflexivity.
  - apply negb_true_iff in Hmode. rewrite Hmode. cbn [andb negb when].
    unfold VoiceSession.handlePushToggle. rewrite bind_read, Hidle. cbn [negb].
    rewrite (final_bind _ _ _ tt) by reflexivity.
    destruct (Hbegin (isHolding (ui s)) true (final (setIsRecording true s)))
      as (H1 & H2 & H3 & H4 & H5); [repeat split; reflexivity|].
    cbv zeta. rewrite H1, H2, H3, H4, H5.
    repeat split. right. split; reflexivity.
Qed.

(** X20.  Starting a turn takes the voice page down.  On a mounted voice
    page with a session whose connect effect is up to date, pressing the
    hold button in hold mode, or clicking the record toggle in the other
    mode while not recording, changes [isHolding] or [isRecording]; the
    connect effect runs again, its cleanup writes the voice store, and the
    effect is due again after every run, until React takes the page down.
    At the end of that turn of the event loop the page is unmounted, no
    socket is connecting or open, and the played-flag is reset. *)
Theorem starting_a_turn_takes_the_page_down `{Runtime}
    (e : event) (s : state) (session_id : Js.jsstring) :
  currentSession s = Some session_id ->
  is_mounted s = true ->
  connectDeps s = Some (VoiceSession.rendered s) ->
  one_live_socket s = true ->
  starts_turn e s = true ->
  let s' := final (VoiceSession.dispatch e s) in
  life s' = Unmounted
  /\ no_live_socket s' = true
  /\ welcomePlayedRef (refs s') = false.
Proof.
  intros Hsession Hmounted Hdeps Hone Hstarts s'.
  assert (Hlive : one_live_socket s' = true).
  { apply voice_dispatch_one_live; [exact Hone|]. destruct e; try discriminate; reflexivity. }
  assert (Hdown : taken_down s').
  { subst s'. unfold VoiceSession.dispatch.
    rewrite (final_bind _ _ _ tt) by apply uncaught_returns.
    rewrite uncaught_final_kept.
    destruct (voice_turn_started e s Hmounted Hstarts) as (Hl1 & Hc1 & Hd1 & Hui).
    set (s1 := final (VoiceSession.handle e s)) in *.
    pose proof voice_resume_taken_down as Hresume.
    pose proof voice_commit_taken_down as Hcommit.
    assert (Hrest : preserves taken_down
                      (s0 <- read ;;
                       VoiceSession.resume (awaitingStop (susp s0)) ;;
                       uncaught VoiceSession.commit)%handler) by preserves_auto.
    rewrite (final_bind _ _ _ tt) by apply uncaught_returns.
    apply Hrest. rewrite uncaught_final_kept.
    unfold VoiceSession.commit. rewrite bind_read.
    replace (is_mounted s1) with true by (unfold is_mounted in *; rewrite Hl1; auto).
    rewrite (final_bind _ _ _ tt) by reflexivity.
    apply (voice_render_closes update_limit (final (sync_transcriptRef s1))
             (VoiceSession.rendered s) session_id).
    - change (currentSession s1 = Some session_id). rewrite Hc1. exact Hsession.
    - change (connectDeps s1 = Some (VoiceSession.rendered s)). rewrite Hd1. exact Hdeps.
    - unfold VoiceSession.deps_changed, VoiceSession.rendered, same_deps. cbn [fst snd].
      change (ui (final (sync_transcriptRef s1))) with (ui s1).
      apply negb_true_iff.
      destruct Hui as [[-> ->]|[-> ->]].
      + destruct (isHolding (ui s)); reflexivity.
      + destruct (isHolding (ui s)), (isRecording (ui s)); reflexivity. }
  destruct Hdown as (Hlife & Hflag & Hclosed).
  split; [exact Hlife|]. split; [|exact Hflag].
  apply one_live_current_closed; assumption.
Qed.

Lemma starting_a_turn_takes_the_page_down_witness :
  let r := VoiceSession.dispatch (rt := Json.runtime) ClickToggle Scenario.mounted_voice in
  is_mounted Scenario.mounted_voice = true
  /\ sockets (net Scenario.mounted_voice) = [CONNECTING]
  /\ life (final r) = Unmounted
  /\ no_live_socket (final r) = true
  /\ welcomePlayedRef (refs (final r)) = false
  /\ length (sockets (net (final r))) = 54%nat.
Proof.
  assert (Hmounted : is_mounted Scenario.mounted_voice = true) by (vm_compute; reflexivity).
  assert (Hsession : currentSession Scenario.mounted_voice = Some (Js.lit "abc123"))
    by (vm_compute; reflexivity).
  assert (Hdeps : connectDeps Scenario.mounted_voice
                  = Some (VoiceSession.rendered Scenario.mounted_voice))
    by (vm_compute; reflexivity).
  assert (Hone : one_live_socket Scenario.mounted_voice = true) by (vm_compute; reflexivity).
  assert (Hstarts : starts_turn ClickToggle Scenario.mounted_voice = true)
    by (vm_compute; reflexivity).
  destruct (starting_a_turn_takes_the_page_down (H := Json.runtime) ClickToggle
              Scenario.mounted_voice (Js.lit "abc123") Hsession Hmounted Hdeps Hone Hstarts)
    as (Hlife & Hsockets & Hflag).
  cbv zeta. split; [exact Hmounted|]. split; [vm_compute; reflexivity|].
  split; [exact Hlife|]. split; [exact Hsockets|]. split; [exact Hflag|].
  vm_compute. reflexivity.
Defined.
